(** * Manga-to-video studio: panel editing, undo history, detection and
      model orchestration

    A shallow embedding of the TypeScript sources
    ([components/MangaToVideoPanel.tsx], [components/InteractiveMangaView.tsx],
    [components/PanelEditor.tsx], [components/LongTextToAudioPanel.tsx],
    [services/panelDetectorService.ts], [services/audioProcessingService.ts],
    [services/geminiService.ts], [services/geminiTtsService.ts]) followed by
    the properties proved about them.

    Conventions of the embedding:
    - a JavaScript [number] is an exact rational ([Q]); the rounding of
      IEEE doubles is outside the model, and numeric equality is [==];
    - an object used as a dictionary is a [gmap string _]; an optional
      field is an [option];
    - React state is passed explicitly; [Date.now()] is an argument;
    - a rejected promise / thrown [Error] is [inl message]. *)

From Stdlib Require Import QArith Qminmax Qabs Qround Lqa ZArith Lia.
From Stdlib Require Import String Ascii DecimalString DecimalNat Sorted.
From stdpp Require Import base gmap list strings.

Local Open Scope string_scope.
Local Open Scope list_scope.

(** ** JavaScript numbers and small helpers *)

(** [a < b] and [a <= b] on numbers, as booleans. *)
Definition Qltb (a b : Q) : bool := negb (Qle_bool b a).
Definition Qleb (a b : Q) : bool := Qle_bool a b.

(** [`${n}`] for a non-negative integer. *)
Definition show_nat (n : nat) : string := NilEmpty.string_of_uint (Nat.to_uint n).

(** The one-character string holding a double quote. *)
Definition dquote : string := String (Ascii.ascii_of_nat 34) EmptyString.

(** [xs.join(sep)] *)
Fixpoint join (sep : string) (xs : list string) : string :=
  match xs with
  | [] => ""
  | [x] => x
  | x :: rest => x +:+ sep +:+ join sep rest
  end.

(** Structural comparison helpers used for [JSON.stringify(a) === JSON.stringify(b)]. *)
Definition option_eqb {A} (eqb : A → A → bool) (a b : option A) : bool :=
  match a, b with
  | Some x, Some y => eqb x y
  | None, None => true
  | _, _ => false
  end.

Fixpoint list_eqb {A} (eqb : A → A → bool) (a b : list A) : bool :=
  match a, b with
  | [], [] => true
  | x :: a', y :: b' => eqb x y && list_eqb eqb a' b'
  | _, _ => false
  end.

Definition map_eqb {V} (eqb : V → V → bool) (a b : gmap string V) : bool :=
  list_eqb (λ p q, String.eqb p.1 q.1 && eqb p.2 q.2) (map_to_list a) (map_to_list b).

(** ** Data model ([types.ts]) *)

(** [CoordinatesArray = [x, y, w, h]], normalized to the page. *)
Record CoordinatesArray := Coords { cx : Q; cy : Q; cw : Q; ch : Q }.

Record AudioInfo := {
  src : string;
  duration : Q;
  audio_error : option string;
}.

Record PanelFlags := {
  is_promotional : option bool;
  text_heavy : option bool;
  face_cut_risk : option bool;
}.

Inductive PanelStatus :=
  | pending | summarizing | narrating | complete | error | skipped.

Record Panel := {
  panel_id : string;
  index : nat;
  coordinates : CoordinatesArray;
  recap_texts : option (gmap string string);
  confidence : Q;
  narration_tone : option string;
  key_action_description : option string;
  dialogue_summary : option string;
  flags : option PanelFlags;
  croppedImageBase64 : option string;
  audioInfos : gmap string AudioInfo;
  status : PanelStatus;
}.

(** A page ([StitchedPageAnalysis]); the fields the pipeline reads. *)
Record StitchedPageAnalysis := {
  stitch_id : string;
  chapter_id : string;
  image_width : nat;
  image_height : nat;
  panels : list Panel;
  stitchedImageBase64 : string;
  stitchedImageMimeType : string;
  stitchedFileName : string;
}.

Inductive ChapterStatus :=
  | ch_pending | ch_stitching | ch_stitched | ch_processing | ch_processed | ch_error.

(** [Chapter]; [files] holds browser [File] objects, of which only the
    number is visible to [JSON.stringify] (each prints as an empty object). *)
Record Chapter := {
  id : string;
  name : string;
  files : list string;
  stitchedPages : list StitchedPageAnalysis;
  chapter_status : ChapterStatus;
  chapter_error : option string;
}.

(** Object spread with one field replaced: [{ ...panel, field: v }]. *)
Definition with_index (i : nat) (p : Panel) : Panel :=
  {| panel_id := panel_id p; index := i; coordinates := coordinates p;
     recap_texts := recap_texts p; confidence := confidence p;
     narration_tone := narration_tone p;
     key_action_description := key_action_description p;
     dialogue_summary := dialogue_summary p; flags := flags p;
     croppedImageBase64 := croppedImageBase64 p; audioInfos := audioInfos p;
     status := status p |}.

Definition with_cropped (img : option string) (p : Panel) : Panel :=
  {| panel_id := panel_id p; index := index p; coordinates := coordinates p;
     recap_texts := recap_texts p; confidence := confidence p;
     narration_tone := narration_tone p;
     key_action_description := key_action_description p;
     dialogue_summary := dialogue_summary p; flags := flags p;
     croppedImageBase64 := img; audioInfos := audioInfos p;
     status := status p |}.

Definition with_panels (ps : list Panel) (p : StitchedPageAnalysis) : StitchedPageAnalysis :=
  {| stitch_id := stitch_id p; chapter_id := chapter_id p;
     image_width := image_width p; image_height := image_height p;
     panels := ps; stitchedImageBase64 := stitchedImageBase64 p;
     stitchedImageMimeType := stitchedImageMimeType p;
     stitchedFileName := stitchedFileName p |}.

Definition with_stitchedPages (pgs : list StitchedPageAnalysis) (c : Chapter) : Chapter :=
  {| id := id c; name := name c; files := files c; stitchedPages := pgs;
     chapter_status := chapter_status c; chapter_error := chapter_error c |}.

(** [panels.map((p, i) => ({ ...p, index: i }))] *)
Definition reindex (ps : list Panel) : list Panel := imap with_index ps.

(** ** [JSON.stringify(a) === JSON.stringify(b)] on the state

    Two values print the same JSON text when they have the same fields with
    the same printed values; absent and [undefined] fields are both omitted
    (both are [None] here) and numbers are compared by value. *)

Definition coords_eqb (a b : CoordinatesArray) : bool :=
  Qeq_bool (cx a) (cx b) && Qeq_bool (cy a) (cy b)
  && Qeq_bool (cw a) (cw b) && Qeq_bool (ch a) (ch b).

Definition audio_eqb (a b : AudioInfo) : bool :=
  String.eqb (src a) (src b) && Qeq_bool (duration a) (duration b)
  && option_eqb String.eqb (audio_error a) (audio_error b).

Definition flags_eqb (a b : PanelFlags) : bool :=
  option_eqb Bool.eqb (is_promotional a) (is_promotional b)
  && option_eqb Bool.eqb (text_heavy a) (text_heavy b)
  && option_eqb Bool.eqb (face_cut_risk a) (face_cut_risk b).

Definition panel_status_eqb (a b : PanelStatus) : bool :=
  match a, b with
  | pending, pending | summarizing, summarizing | narrating, narrating
  | complete, complete | error, error | skipped, skipped => true
  | _, _ => false
  end.

Definition panel_eqb (a b : Panel) : bool :=
  String.eqb (panel_id a) (panel_id b)
  && Nat.eqb (index a) (index b)
  && coords_eqb (coordinates a) (coordinates b)
  && option_eqb (map_eqb String.eqb) (recap_texts a) (recap_texts b)
  && Qeq_bool (confidence a) (confidence b)
  && option_eqb String.eqb (narration_tone a) (narration_tone b)
  && option_eqb String.eqb (key_action_description a) (key_action_description b)
  && option_eqb String.eqb (dialogue_summary a) (dialogue_summary b)
  && option_eqb flags_eqb (flags a) (flags b)
  && option_eqb String.eqb (croppedImageBase64 a) (croppedImageBase64 b)
  && map_eqb audio_eqb (audioInfos a) (audioInfos b)
  && panel_status_eqb (status a) (status b).

Definition page_eqb (a b : StitchedPageAnalysis) : bool :=
  String.eqb (stitch_id a) (stitch_id b)
  && String.eqb (chapter_id a) (chapter_id b)
  && Nat.eqb (image_width a) (image_width b)
  && Nat.eqb (image_height a) (image_height b)
  && list_eqb panel_eqb (panels a) (panels b)
  && String.eqb (stitchedImageBase64 a) (stitchedImageBase64 b)
  && String.eqb (stitchedImageMimeType a) (stitchedImageMimeType b)
  && String.eqb (stitchedFileName a) (stitchedFileName b).

Definition chapter_status_eqb (a b : ChapterStatus) : bool :=
  match a, b with
  | ch_pending, ch_pending | ch_stitching, ch_stitching | ch_stitched, ch_stitched
  | ch_processing, ch_processing | ch_processed, ch_processed | ch_error, ch_error => true
  | _, _ => false
  end.

Definition chapter_eqb (a b : Chapter) : bool :=
  String.eqb (id a) (id b)
  && String.eqb (name a) (name b)
  && Nat.eqb (length (files a)) (length (files b))
  && list_eqb page_eqb (stitchedPages a) (stitchedPages b)
  && chapter_status_eqb (chapter_status a) (chapter_status b)
  && option_eqb String.eqb (chapter_error a) (chapter_error b).

Definition sameJSON (a b : list Chapter) : bool := list_eqb chapter_eqb a b.

(** ** The state store with undo history ([MangaToVideoPanel.tsx]) *)

(** [interface History<T> { past: T[]; present: T; future: T[] }] *)
Record History := {
  past : list (list Chapter);
  present : list Chapter;
  future : list (list Chapter);
}.

Definition initialHistory : History := {| past := []; present := []; future := [] |}.

(** [setChapters(updater, recordHistory = false)] *)
Definition setChapters (updater : list Chapter → list Chapter)
    (recordHistory : bool) (currentHistory : History) : History :=
  let newPresent := updater (present currentHistory) in
  if negb recordHistory then
    {| past := past currentHistory; present := newPresent;
       future := future currentHistory |}
  else if sameJSON newPresent (present currentHistory) then currentHistory
  else
    let newPast := past currentHistory ++ [present currentHistory] in
    let newPast := if (50 <? length newPast)%nat then drop 1 newPast else newPast in
    {| past := newPast; present := newPresent; future := [] |}.

(** [handleUndo] *)
Definition handleUndo (h : History) : History :=
  match last (past h) with
  | None => h
  | Some previous =>
      {| past := take (length (past h) - 1) (past h);
         present := previous;
         future := present h :: future h |}
  end.

(** [handleRedo] *)
Definition handleRedo (h : History) : History :=
  match future h with
  | [] => h
  | next :: newFuture =>
      {| past := past h ++ [present h]; present := next; future := newFuture |}
  end.

(** What can happen to the history cell: an update through [setChapters],
    undo, redo, or the reset done when a new folder is loaded
    ([setChaptersHistory({ past: [], present: [], future: [] })]). *)
Inductive HistoryAction :=
  | ActUpdate (updater : list Chapter → list Chapter) (recordHistory : bool)
  | ActUndo
  | ActRedo
  | ActReset.

Definition applyAction (h : History) (a : HistoryAction) : History :=
  match a with
  | ActUpdate updater recordHistory => setChapters updater recordHistory h
  | ActUndo => handleUndo h
  | ActRedo => handleRedo h
  | ActReset => initialHistory
  end.

Definition runActions (actions : list HistoryAction) (h : History) : History :=
  foldl applyAction h actions.

(** The bound that every action keeps: the snapshots held in [past] and
    [future] together never number more than 50. *)
Definition withinDepth (h : History) : Prop :=
  (length (past h) + length (future h) ≤ 50)%nat.

(** *** Panel edits dispatched to the store

    Each handler below is the updater the component passes to
    [setChapters(..., true)].  The later [setChapters] call that stores a
    freshly cropped thumbnail only replaces [croppedImageBase64]
    ([writeCropped]). *)

(** [handleDeletePanel(chapterId, pageId, panelId)] *)
Definition handleDeletePanel (chapterId pageId panelId : string)
    (prev : list Chapter) : list Chapter :=
  map (λ ch,
    if decide (id ch ≠ chapterId) then ch else
    let newPages := map (λ p,
      if decide (stitch_id p ≠ pageId) then p else
      with_panels
        (reindex (filter (λ panelItem, panel_id panelItem ≠ panelId) (panels p))) p)
      (stitchedPages ch) in
    with_stitchedPages newPages ch) prev.

(** The two halves built by [handleSplitPanel]: [restOfPanel] is spread,
    identity, geometry, texts, audio, thumbnail and status are replaced. *)
Definition splitHalf (originalPanel : Panel) (new_id : string)
    (coords : CoordinatesArray) : Panel :=
  {| panel_id := new_id; index := index originalPanel; coordinates := coords;
     recap_texts := Some ∅; confidence := confidence originalPanel;
     narration_tone := narration_tone originalPanel;
     key_action_description := key_action_description originalPanel;
     dialogue_summary := dialogue_summary originalPanel;
     flags := flags originalPanel; croppedImageBase64 := None;
     audioInfos := ∅; status := pending |}.

(** [newPanels.splice(panelIndex, 1, topPanel, bottomPanel)] *)
Definition splice_replace2 (panelIndex : nat) (a b : Panel) (ps : list Panel) : list Panel :=
  take panelIndex ps ++ [a; b] ++ drop (S panelIndex) ps.

(** [newPanels.splice(panelIndex + 1, 0, newPanel)] *)
Definition splice_insert_after (panelIndex : nat) (a : Panel) (ps : list Panel) : list Panel :=
  take (S panelIndex) ps ++ [a] ++ drop (S panelIndex) ps.

(** [handleSplitPanel(pageId, panelId, splitY_norm)]: the state produced by
    its updater; [now_a] and [now_b] are the two [Date.now()] readings. *)
Definition handleSplitPanel (pageId panelId : string) (splitY_norm : Q)
    (now_a now_b : nat) (prev : list Chapter) : list Chapter :=
  match list_find (λ c, Exists (λ p, stitch_id p = pageId) (stitchedPages c)) prev with
  | None => prev
  | Some (chIndex, chapter) =>
    match list_find (λ p, stitch_id p = pageId) (stitchedPages chapter) with
    | None => prev
    | Some (pageIndex, pageForCropping) =>
      match list_find (λ p, panel_id p = panelId) (panels pageForCropping) with
      | None => prev
      | Some (panelIndex, originalPanel) =>
        let x := cx (coordinates originalPanel) in
        let y := cy (coordinates originalPanel) in
        let w := cw (coordinates originalPanel) in
        let h := ch (coordinates originalPanel) in
        if Qleb splitY_norm y || Qleb (y + h) splitY_norm then prev else
        let topPanelHeight := (splitY_norm - y)%Q in
        let bottomPanelHeight := ((y + h) - splitY_norm)%Q in
        let topPanel := splitHalf originalPanel
          ("panel-" +:+ pageId +:+ "-" +:+ show_nat now_a +:+ "-a")
          (Coords x y w topPanelHeight) in
        let bottomPanel := splitHalf originalPanel
          ("panel-" +:+ pageId +:+ "-" +:+ show_nat now_b +:+ "-b")
          (Coords x splitY_norm w bottomPanelHeight) in
        let newPanels := splice_replace2 panelIndex topPanel bottomPanel
                           (panels pageForCropping) in
        <[chIndex := with_stitchedPages
            (<[pageIndex := with_panels (reindex newPanels) pageForCropping]>
               (stitchedPages chapter)) chapter]> prev
      end
    end
  end.

Inductive CropDirection := crop_top | crop_bottom.

(** The per-panel body of [handleCropPanel]. *)
Definition cropPanel (clamped_cropY_norm : Q) (direction : CropDirection)
    (panel : Panel) : Panel :=
  let x := cx (coordinates panel) in
  let y := cy (coordinates panel) in
  let w := cw (coordinates panel) in
  let h := ch (coordinates panel) in
  let replaced newCoords : Panel :=
    {| panel_id := panel_id panel; index := index panel; coordinates := newCoords;
       recap_texts := recap_texts panel; confidence := confidence panel;
       narration_tone := narration_tone panel;
       key_action_description := key_action_description panel;
       dialogue_summary := dialogue_summary panel; flags := flags panel;
       croppedImageBase64 := None; audioInfos := audioInfos panel;
       status := status panel |} in
  match direction with
  | crop_top =>
      let originalBottom := (y + h)%Q in
      let newY := clamped_cropY_norm in
      let newH := (originalBottom - newY)%Q in
      if Qltb (5 # 1000) newH then replaced (Coords x newY w newH) else panel
  | crop_bottom =>
      let newH := (clamped_cropY_norm - y)%Q in
      if Qltb (5 # 1000) newH then replaced (Coords x y w newH) else panel
  end.

(** [handleCropPanel(pageId, panelId, cropY_norm, direction)] *)
Definition handleCropPanel (pageId panelId : string) (cropY_norm : Q)
    (direction : CropDirection) (prev : list Chapter) : list Chapter :=
  let clamped_cropY_norm := Qmax 0 (Qmin 1 cropY_norm) in
  map (λ c,
    with_stitchedPages
      (map (λ page,
         if decide (stitch_id page ≠ pageId) then page else
         let newPanels := map (λ panel,
           if decide (panel_id panel ≠ panelId) then panel
           else cropPanel clamped_cropY_norm direction panel) (panels page) in
         with_panels newPanels page) (stitchedPages c)) c) prev.

(** [{ ...panelToDuplicate, panel_id, recap_texts: {}, audioInfos: {}, status: 'pending' }] *)
Definition duplicateOf (panelToDuplicate : Panel) (new_id : string) : Panel :=
  {| panel_id := new_id; index := index panelToDuplicate;
     coordinates := coordinates panelToDuplicate;
     recap_texts := Some ∅; confidence := confidence panelToDuplicate;
     narration_tone := narration_tone panelToDuplicate;
     key_action_description := key_action_description panelToDuplicate;
     dialogue_summary := dialogue_summary panelToDuplicate;
     flags := flags panelToDuplicate;
     croppedImageBase64 := croppedImageBase64 panelToDuplicate;
     audioInfos := ∅; status := pending |}.

(** [handleDuplicatePanel(chapterId, pageId, panelId)] *)
Definition handleDuplicatePanel (chapterId pageId panelId : string) (now : nat)
    (prev : list Chapter) : list Chapter :=
  map (λ c,
    if decide (id c ≠ chapterId) then c else
    with_stitchedPages
      (map (λ p,
         if decide (stitch_id p ≠ pageId) then p else
         match list_find (λ panelItem, panel_id panelItem = panelId) (panels p) with
         | None => p
         | Some (panelIndex, panelToDuplicate) =>
             let newPanel := duplicateOf panelToDuplicate
                               ("panel-" +:+ pageId +:+ "-" +:+ show_nat now) in
             let newPanels := splice_insert_after panelIndex newPanel (panels p) in
             with_panels (reindex newPanels) p
         end) (stitchedPages c)) c) prev.

(** The thumbnail write-back shared by the crop, duplicate and detection
    paths: [pnl.panel_id === panelId ? { ...pnl, croppedImageBase64 } : pnl]. *)
Definition writeCropped (pageId panelId : string) (newBase64 : string)
    (prev : list Chapter) : list Chapter :=
  map (λ c,
    with_stitchedPages
      (map (λ p,
         if decide (stitch_id p ≠ pageId) then p else
         with_panels
           (map (λ pnl, if decide (panel_id pnl = panelId)
                        then with_cropped (Some newBase64) pnl else pnl) (panels p)) p)
         (stitchedPages c)) c) prev.

(** Modelled from the spec: the "Merge with Next" action, which is not in
    the sources at hand.  The spec asks that it concatenate the narrative
    text of a panel with that of its immediate successor in all languages
    (["Hello"] and ["world"] give ["Hello world"]), keep the geometry, remove
    the successor and re-index the remaining panels. *)
Definition mergeTexts (a b : option (gmap string string)) : option (gmap string string) :=
  Some (union_with (λ s1 s2, Some (s1 +:+ " " +:+ s2)) (default ∅ a) (default ∅ b)).

Definition mergedPanel (a b : Panel) : Panel :=
  {| panel_id := panel_id a; index := index a; coordinates := coordinates a;
     recap_texts := mergeTexts (recap_texts a) (recap_texts b);
     confidence := confidence a; narration_tone := narration_tone a;
     key_action_description := key_action_description a;
     dialogue_summary := dialogue_summary a; flags := flags a;
     croppedImageBase64 := croppedImageBase64 a; audioInfos := audioInfos a;
     status := status a |}.

Definition mergePanels (panelId : string) (ps : list Panel) : list Panel :=
  match list_find (λ p, panel_id p = panelId) ps with
  | None => ps
  | Some (panelIndex, panel) =>
      match ps !! S panelIndex with
      | None => ps
      | Some successor =>
          reindex (take panelIndex ps ++ [mergedPanel panel successor]
                   ++ drop (S (S panelIndex)) ps)
      end
  end.

Definition mergeWithNext (chapterId pageId panelId : string)
    (prev : list Chapter) : list Chapter :=
  map (λ c,
    if decide (id c ≠ chapterId) then c else
    with_stitchedPages
      (map (λ p,
         if decide (stitch_id p ≠ pageId) then p
         else with_panels (mergePanels panelId (panels p)) p)
         (stitchedPages c)) c) prev.

(** *** Predicates on the state *)

(** The panel rectangle stays inside the page and has positive area. *)
Definition PanelInvariant (c : CoordinatesArray) : Prop :=
  (0 <= cx c ∧ 0 <= cy c ∧ cx c + cw c <= 1 ∧ cy c + ch c <= 1
   ∧ 0 < cw c ∧ 0 < ch c)%Q.

(** The [index] fields of a page's panels are [0, 1, ..., n-1] in list order. *)
Definition contiguous (ps : list Panel) : Prop :=
  map index ps = seq 0 (length ps).

Definition pages_indexed (chapters : list Chapter) : Prop :=
  Forall (λ c, Forall (λ p, contiguous (panels p)) (stitchedPages c)) chapters.

(** All panels of the store, in reading order
    ([chapters.flatMap(ch => ch.stitchedPages.flatMap(p => p.panels))]). *)
Definition allPanels (chapters : list Chapter) : list Panel :=
  concat (map (λ c, concat (map panels (stitchedPages c))) chapters).

(** The page with a given [stitch_id], looked up the way [handleSplitPanel]
    does: the first chapter holding such a page, and its first such page. *)
Definition findPage (pageId : string) (chapters : list Chapter)
    : option StitchedPageAnalysis :=
  match list_find (λ c, Exists (λ p, stitch_id p = pageId) (stitchedPages c)) chapters with
  | None => None
  | Some (_, chapter) =>
      match list_find (λ p, stitch_id p = pageId) (stitchedPages chapter) with
      | None => None
      | Some (_, page) => Some page
      end
  end.

(** ** Object identity in the history

    The handlers above give the value of the state after an edit.  In
    JavaScript a snapshot is an array of references: [prev.map(...)] returns
    the same page object for every page it leaves alone, so consecutive
    snapshots share page objects, and [handleSplitPanel] assigns to the
    [panels] field of the page object it found
    ([newChapters[chIndex].stitchedPages[pageIndex].panels = ...]) instead of
    building a new page.  This module keeps page objects in a heap to follow
    that write; chapter objects and arrays are never written in place and
    stay values. *)

Module SharedObjects.

(** A reference is a position in the heap of page objects. *)
Abbreviation Ref := nat.
Abbreviation Heap := (list StitchedPageAnalysis).

(** A chapter object: its own fields, and the references held by its
    [stitchedPages] array. *)
Record ChapterObj := { fields : Chapter; pageRefs : list Ref }.

Abbreviation Snapshot := (list ChapterObj).

Record HistoryObj := {
  pastRefs : list Snapshot;
  presentRefs : Snapshot;
  futureRefs : list Snapshot;
}.

(** The value a snapshot denotes in a heap. *)
Definition readChapter (heap : Heap) (c : ChapterObj) : Chapter :=
  with_stitchedPages (omap (λ r, heap !! r) (pageRefs c)) (fields c).

Definition readState (heap : Heap) (snap : Snapshot) : list Chapter :=
  map (readChapter heap) snap.

Definition readHistory (heap : Heap) (h : HistoryObj) : History :=
  {| past := map (readState heap) (pastRefs h);
     present := readState heap (presentRefs h);
     future := map (readState heap) (futureRefs h) |}.

(** An updater may allocate or write page objects. *)
Abbreviation Updater := (Heap → Snapshot → Heap * Snapshot).

(** [setChapters(updater, recordHistory)]: both texts of the comparison are
    printed after the updater has run. *)
Definition setChapters (updater : Updater) (recordHistory : bool)
    (st : Heap * HistoryObj) : Heap * HistoryObj :=
  let currentHistory := st.2 in
  let '(heap, newPresent) := updater st.1 (presentRefs currentHistory) in
  if negb recordHistory then
    (heap, {| pastRefs := pastRefs currentHistory; presentRefs := newPresent;
              futureRefs := futureRefs currentHistory |})
  else if sameJSON (readState heap newPresent)
                   (readState heap (presentRefs currentHistory))
  then (heap, currentHistory)
  else
    let newPast := pastRefs currentHistory ++ [presentRefs currentHistory] in
    let newPast := if (50 <? length newPast)%nat then drop 1 newPast else newPast in
    (heap, {| pastRefs := newPast; presentRefs := newPresent; futureRefs := [] |}).

Definition handleUndo (st : Heap * HistoryObj) : Heap * HistoryObj :=
  let h := st.2 in
  match last (pastRefs h) with
  | None => st
  | Some previous =>
      (st.1, {| pastRefs := take (length (pastRefs h) - 1) (pastRefs h);
                presentRefs := previous;
                futureRefs := presentRefs h :: futureRefs h |})
  end.

(** [pages.map(p => ...)] where the callback returns either [p] itself
    ([None]) or a fresh object ([Some]); fresh objects go to the end of the
    heap. *)
Fixpoint mapPages (f : StitchedPageAnalysis → option StitchedPageAnalysis)
    (heap : Heap) (refs : list Ref) : Heap * list Ref :=
  match refs with
  | [] => (heap, [])
  | r :: rest =>
      let '(heap1, r') :=
        match heap !! r ≫= f with
        | Some fresh => (heap ++ [fresh], length heap)
        | None => (heap, r)
        end in
      let '(heap2, rest') := mapPages f heap1 rest in
      (heap2, r' :: rest')
  end.

(** [handleDeletePanel]: a new page object for the page it edits. *)
Fixpoint deleteIn (chapterId pageId panelId : string) (heap : Heap) (prev : Snapshot)
    : Heap * Snapshot :=
  match prev with
  | [] => (heap, [])
  | c :: rest =>
      let '(heap1, c') :=
        if decide (id (fields c) ≠ chapterId) then (heap, c) else
        let '(heap', refs) :=
          mapPages (λ p,
            if decide (stitch_id p ≠ pageId) then None else
            Some (with_panels
                    (reindex (filter (λ panelItem, panel_id panelItem ≠ panelId)
                                (panels p))) p))
            heap (pageRefs c) in
        (heap', {| fields := fields c; pageRefs := refs |}) in
      let '(heap2, rest') := deleteIn chapterId pageId panelId heap1 rest in
      (heap2, c' :: rest')
  end.

Definition handleDeletePanel (chapterId pageId panelId : string) : Updater :=
  deleteIn chapterId pageId panelId.

(** [handleSplitPanel]: the found page object is written in place and the
    returned array holds the same chapter objects as [prev]. *)
Definition handleSplitPanel (pageId panelId : string) (splitY_norm : Q)
    (now_a now_b : nat) : Updater :=
  λ heap prev,
    match list_find (λ c, Exists (λ p, stitch_id p = pageId)
                            (stitchedPages (readChapter heap c))) prev with
    | None => (heap, prev)
    | Some (_, chapter) =>
      match list_find (λ r, stitch_id <$> heap !! r = Some pageId) (pageRefs chapter) with
      | None => (heap, prev)
      | Some (_, pageRef) =>
        match heap !! pageRef with
        | None => (heap, prev)
        | Some pageForCropping =>
          match list_find (λ p, panel_id p = panelId) (panels pageForCropping) with
          | None => (heap, prev)
          | Some (panelIndex, originalPanel) =>
            let x := cx (coordinates originalPanel) in
            let y := cy (coordinates originalPanel) in
            let w := cw (coordinates originalPanel) in
            let h := ch (coordinates originalPanel) in
            if Qleb splitY_norm y || Qleb (y + h) splitY_norm then (heap, prev) else
            let topPanel := splitHalf originalPanel
              ("panel-" +:+ pageId +:+ "-" +:+ show_nat now_a +:+ "-a")
              (Coords x y w (splitY_norm - y)) in
            let bottomPanel := splitHalf originalPanel
              ("panel-" +:+ pageId +:+ "-" +:+ show_nat now_b +:+ "-b")
              (Coords x splitY_norm w ((y + h) - splitY_norm)) in
            let newPanels := splice_replace2 panelIndex topPanel bottomPanel
                               (panels pageForCropping) in
            (<[pageRef := with_panels (reindex newPanels) pageForCropping]> heap, prev)
          end
        end
      end
    end.

(** Every reference of a snapshot points to a page object, and no page
    object is referenced from two places of the snapshot. *)
Definition wellFormed (heap : Heap) (snap : Snapshot) : Prop :=
  (∀ i c a r, snap !! i = Some c → pageRefs c !! a = Some r → is_Some (heap !! r))
  ∧ (∀ i j ci cj a b r,
       snap !! i = Some ci → snap !! j = Some cj →
       pageRefs ci !! a = Some r → pageRefs cj !! b = Some r → i = j ∧ a = b).

End SharedObjects.

(** ** The interactive editor surface ([InteractiveMangaView.tsx]) *)

Module InteractiveMangaView.
Local Open Scope Q_scope.

Inductive ActionType := none | drawing | moving | resizing.

(** ['tl' | 't' | 'tr' | 'l' | 'r' | 'bl' | 'b' | 'br'] *)
Inductive ResizeHandle :=
  | h_tl | h_t | h_tr | h_l | h_r | h_bl | h_b | h_br.

(** [handle.includes(c)] for the four letters the code asks about. *)
Definition includes_l (h : ResizeHandle) : bool :=
  match h with h_tl | h_l | h_bl => true | _ => false end.
Definition includes_r (h : ResizeHandle) : bool :=
  match h with h_tr | h_r | h_br => true | _ => false end.
Definition includes_t (h : ResizeHandle) : bool :=
  match h with h_tl | h_t | h_tr => true | _ => false end.
Definition includes_b (h : ResizeHandle) : bool :=
  match h with h_bl | h_b | h_br => true | _ => false end.

Record ActionState := {
  type : ActionType;
  panelId : option string;
  handle : option ResizeHandle;
  startX : Q;
  startY : Q;
  originalCoords : option CoordinatesArray;
}.

(** The pointer event and the container's bounding rectangle. *)
Record MouseEvent := { clientX : Q; clientY : Q }.
Record DOMRect := { left : Q; top : Q; width : Q; height : Q }.

(** An optional string used as a condition: absent and empty are both
    false. *)
Definition truthy (o : option string) : option string :=
  match o with
  | Some v => if decide (v = EmptyString) then None else Some v
  | None => None
  end.

(** [getRelativeCoords(e)] *)
Definition getRelativeCoords (rect : DOMRect) (e : MouseEvent) : Q * Q :=
  (Qmax 0 (Qmin 1 ((clientX e - left rect) / width rect)),
   Qmax 0 (Qmin 1 ((clientY e - top rect) / height rect))).

(** The [moving] branch of [handleMouseMove]. *)
Definition moveCoords (originalCoords : CoordinatesArray)
    (startX startY currentX currentY : Q) : CoordinatesArray :=
  let dx := currentX - startX in
  let dy := currentY - startY in
  let x0 := cx originalCoords + dx in
  let y0 := cy originalCoords + dy in
  Coords (Qmax 0 (Qmin (1 - cw originalCoords) x0))
         (Qmax 0 (Qmin (1 - ch originalCoords) y0))
         (cw originalCoords) (ch originalCoords).

(** The [resizing] branch of [handleMouseMove]. *)
Definition resizeCoords (originalCoords : CoordinatesArray) (handle : ResizeHandle)
    (startX startY currentX currentY : Q) : CoordinatesArray :=
  let dx := currentX - startX in
  let dy := currentY - startY in
  let x := cx originalCoords in
  let y := cy originalCoords in
  let w := cw originalCoords in
  let h := ch originalCoords in
  let '(x, w) := if includes_l handle then (x + dx, w - dx) else (x, w) in
  let w := if includes_r handle then w + dx else w in
  let '(y, h) := if includes_t handle then (y + dy, h - dy) else (y, h) in
  let h := if includes_b handle then h + dy else h in
  let '(x, w) := if Qltb w 0 then (x + w, - w) else (x, w) in
  let '(y, h) := if Qltb h 0 then (y + h, - h) else (y, h) in
  Coords x y w h.

(** [handleMouseMove(e)]: the [onUpdatePanel(panelId, newCoords)] call it
    makes, if any. *)
Definition handleMouseMove (actionState : ActionState) (rect : DOMRect)
    (e : MouseEvent) : option (string * CoordinatesArray) :=
  match type actionState with
  | none => None
  | drawing => None
  | moving =>
      match originalCoords actionState, truthy (panelId actionState) with
      | Some oc, Some pid =>
          let '(currentX, currentY) := getRelativeCoords rect e in
          Some (pid, moveCoords oc (startX actionState) (startY actionState)
                       currentX currentY)
      | _, _ => None
      end
  | resizing =>
      match originalCoords actionState, truthy (panelId actionState),
            handle actionState with
      | Some oc, Some pid, Some hd =>
          let '(currentX, currentY) := getRelativeCoords rect e in
          Some (pid, resizeCoords oc hd (startX actionState) (startY actionState)
                       currentX currentY)
      | _, _, _ => None
      end
  end.


(** [handleMouseDown(e)] on a panel body or on one of its handles; the
    pointer position is stored already clamped. *)
Definition handleMouseDown (panels : list Panel) (rect : DOMRect) (e : MouseEvent)
    (targetPanelId : option string) (targetHandle : option ResizeHandle)
    : ActionState :=
  let '(x, y) := getRelativeCoords rect e in
  match truthy targetPanelId with
  | Some pid =>
      let panel := list_find (λ p, panel_id p = pid) panels in
      let oc := (λ ip : nat * Panel, coordinates ip.2) <$> panel in
      match targetHandle with
      | Some hd => {| type := resizing; panelId := Some pid; handle := Some hd;
                      startX := x; startY := y; originalCoords := oc |}
      | None => {| type := moving; panelId := Some pid; handle := None;
                   startX := x; startY := y; originalCoords := oc |}
      end
  | None => {| type := drawing; panelId := None; handle := None;
               startX := x; startY := y; originalCoords := None |}
  end.

End InteractiveMangaView.

(** ** Panel detection ([services/panelDetectorService.ts]) *)

Module PanelDetectorService.
Local Open Scope Q_scope.

(** The canvas after [loadImageToCanvas]: its size and its RGBA pixels
    ([ctx.getImageData(0, 0, width, height).data], one tuple per pixel,
    [width * height] of them, row by row). *)
Record Canvas := {
  width : nat;
  height : nat;
  data : list (Z * Z * Z * Z);
}.

(** Storing a number into a [Uint8ClampedArray]: round to the nearest
    integer, ties to even, then clamp to 0..255. *)
Definition toUint8Clamped (v : Q) : Z :=
  let f := Qfloor v in
  let d := v - inject_Z f in
  let rounded :=
    if Qltb d (1 # 2) then f
    else if Qltb (1 # 2) d then (f + 1)%Z
    else if Z.even f then f else (f + 1)%Z in
  Z.max 0 (Z.min 255 rounded).

(** [toGrayscale(ctx, width, height)] *)
Definition toGrayscale (canvas : Canvas) : list Z :=
  map (λ px : Z * Z * Z * Z,
    let '(r, g, b, _) := px in
    toUint8Clamped (inject_Z r * (299 # 1000) + inject_Z g * (587 # 1000)
                    + inject_Z b * (114 # 1000)))
    (data canvas).

(** The object literal pushed by [detectByWhitespace]
    ([Omit<Panel, 'panel_id' | 'index'>]). *)
Record GutterPanel := {
  g_coordinates : CoordinatesArray;
  g_confidence : Q;
  g_audioInfos : gmap string AudioInfo;
  g_status : PanelStatus;
  g_flags : PanelFlags;
}.

(** [Omit<Panel, 'index'>], the element type of [detectPanels]. *)
Record DetectedPanel := {
  d_panel_id : string;
  d_coordinates : CoordinatesArray;
  d_confidence : Q;
  d_audioInfos : gmap string AudioInfo;
  d_status : PanelStatus;
  d_flags : PanelFlags;
}.

Definition WHITESPACE_THRESHOLD : Q := 250.
Definition MIN_GUTTER_HEIGHT : nat := 10.
Definition MIN_PANEL_HEIGHT (height : nat) : Q :=
  inject_Z (Z.of_nat height) * (5 # 100).

Definition ofNat (n : nat) : Q := inject_Z (Z.of_nat n).

(** [horizontalProjection[y]]: the sum of the gray values of row [y]. *)
Definition horizontalProjection (grayData : list Z) (width height : nat) : list Z :=
  map (λ y, foldl (λ acc x, (acc + nth (y * width + x) grayData 0)%Z) 0%Z (seq 0 width))
      (seq 0 height).

(** [horizontalProjection[y] / width].  For [width = 0] JavaScript gives
    [NaN], for which both comparisons below are false; no row is then
    brighter than the threshold in either reading. *)
Definition rowAverage (projection : list Z) (width : nat) (y : nat) : Q :=
  inject_Z (nth y projection 0%Z) / ofNat width.

Record ScanState := { boundaries : list nat; inGutter : bool }.

(** One iteration of the row loop that collects the boundaries. *)
Definition scanRow (projection : list Z) (width height : nat)
    (st : ScanState) (y : nat) : ScanState :=
  let avgPixelValue := rowAverage projection width y in
  if Qltb WHITESPACE_THRESHOLD avgPixelValue then
    if negb (inGutter st) then
      let lookahead := (y + MIN_GUTTER_HEIGHT)%nat in
      let isConsistentGutter :=
        forallb (λ i, negb (Qltb (rowAverage projection width i) WHITESPACE_THRESHOLD))
                (seq (S y) (Nat.min lookahead height - S y)) in
      if isConsistentGutter then
        let lastBoundary := List.last (boundaries st) 0%nat in
        if Qltb (MIN_PANEL_HEIGHT height) (ofNat y - ofNat lastBoundary)
        then {| boundaries := boundaries st ++ [y]; inGutter := true |}
        else {| boundaries := boundaries st; inGutter := true |}
      else {| boundaries := boundaries st; inGutter := true |}
    else st
  else {| boundaries := boundaries st; inGutter := false |}.

Definition collectBoundaries (projection : list Z) (width height : nat) : list nat :=
  boundaries (foldl (scanRow projection width height)
                    {| boundaries := [0%nat]; inGutter := false |}
                    (seq 0 height))
  ++ [height].

(** The final loop over consecutive boundaries. *)
Fixpoint panelsOfBoundaries (height : nat) (bs : list nat) : list GutterPanel :=
  match bs with
  | y_start :: (y_end :: _) as rest =>
      let h := ofNat y_end - ofNat y_start in
      let tail := panelsOfBoundaries height rest in
      if Qltb (MIN_PANEL_HEIGHT height) h then
        {| g_coordinates := Coords 0 (ofNat y_start / ofNat height) 1 (h / ofNat height);
           g_confidence := 8 # 10;
           g_audioInfos := ∅;
           g_status := pending;
           g_flags := {| is_promotional := Some false; text_heavy := None;
                         face_cut_risk := None |} |} :: tail
      else tail
  | _ => []
  end.

(** [detectByWhitespace(grayData, width, height)] *)
Definition detectByWhitespace (grayData : list Z) (width height : nat)
    : list GutterPanel :=
  panelsOfBoundaries height
    (collectBoundaries (horizontalProjection grayData width height) width height).

Definition fallbackPanel : DetectedPanel :=
  {| d_panel_id := "fallback-0";
     d_coordinates := Coords 0 0 1 1;
     d_confidence := 3 # 10;
     d_audioInfos := ∅;
     d_status := pending;
     d_flags := {| is_promotional := None; text_heavy := None;
                   face_cut_risk := None |} |}.

(** [panelDetectorService.detectPanels(imageSrc)].  [loaded] is the outcome
    of [loadImageToCanvas(imageSrc)] ([None] when the browser cannot decode
    the image or gives no 2D context, which rejects the promise); [now] is
    the [Date.now()] reading. *)
Definition detectPanels (loaded : option Canvas) (now : nat)
    : string + list DetectedPanel :=
  match loaded with
  | None => inl "Failed to load image for panel detection."
  | Some canvas =>
      let grayData := toGrayscale canvas in
      let whitespacePanels := detectByWhitespace grayData (width canvas) (height canvas) in
      if (length whitespacePanels =? 0)%nat then inr [fallbackPanel]
      else inr (imap (λ i p,
             {| d_panel_id := "cv-" +:+ show_nat now +:+ "-" +:+ show_nat i;
                d_coordinates := g_coordinates p;
                d_confidence := g_confidence p;
                d_audioInfos := g_audioInfos p;
                d_status := g_status p;
                d_flags := g_flags p |}) whitespacePanels)
  end.


End PanelDetectorService.

(** The store update of [handleDetectPanels] for one page: detected panels
    get their list position as [index]. *)
Definition panelsOfDetection (pageStitchId : string)
    (detectedRawPanels : list PanelDetectorService.DetectedPanel) : list Panel :=
  imap (λ panelIndex p,
    {| panel_id :=
         if decide (PanelDetectorService.d_panel_id p = "")
         then "panel-" +:+ pageStitchId +:+ "-" +:+ show_nat panelIndex
         else PanelDetectorService.d_panel_id p;
       index := panelIndex;
       coordinates := PanelDetectorService.d_coordinates p;
       recap_texts := None;
       confidence := PanelDetectorService.d_confidence p;
       narration_tone := None; key_action_description := None;
       dialogue_summary := None;
       flags := Some (PanelDetectorService.d_flags p);
       croppedImageBase64 := None; audioInfos := ∅; status := pending |})
    detectedRawPanels.

(** ** The external-model boundary

    A call to [ai.models.generateContent] either rejects with a message or
    resolves to a response.  The outside world is an oracle giving the
    outcome of the [k]-th call of the session from the model name and the
    request; a session counts the calls and keeps a chronological log of
    the calls, the back-off sleeps and the status messages. *)

Inductive Part :=
  | TextPart (text : string)
  | InlineData (dataUrl : string).

Record Request := { req_parts : list Part }.

Inductive ApiOutcome (R : Type) :=
  | ApiFail (message : string)
  | ApiRespond (response : R).
Arguments ApiFail {R} message.
Arguments ApiRespond {R} response.

Definition Oracle (R : Type) : Type := nat → string → Request → ApiOutcome R.

Inductive Event :=
  | EvCall (model : string) (request : Request)
  | EvSleep (ms : nat)
  | EvStatus (message : string).

Record Session := { calls : nat; log : list Event }.

Definition newSession : Session := {| calls := 0; log := [] |}.

Definition record (ev : Event) (s : Session) : Session :=
  {| calls := calls s; log := log s ++ [ev] |}.

(** A computation that may throw: the session after it, and either the
    thrown message or the value. *)
Definition Async (T : Type) : Type := Session → Session * (string + T).

(** [ai.models.generateContent({ model, contents: [{ parts }], ... })] *)
Definition generateContent {R} (oracle : Oracle R) (model : string) (request : Request)
    : Async R :=
  λ s,
    let s' := {| calls := S (calls s); log := log s ++ [EvCall model request] |} in
    match oracle (calls s) model request with
    | ApiFail message => (s', inl message)
    | ApiRespond response => (s', inr response)
    end.

(** The models called during a session, in order. *)
Definition modelsCalled (s : Session) : list string :=
  omap (λ ev, match ev with EvCall model _ => Some model | _ => None end) (log s).

(** The back-off delays slept during a session, in order. *)
Definition sleeps (s : Session) : list nat :=
  omap (λ ev, match ev with EvSleep ms => Some ms | _ => None end) (log s).

(** [withRetries(fn, onRetry, retries = 3, delayMs = 1500)], declared with
    the same body in [geminiService.ts] and in [geminiTtsService.ts].
    [retryLoop] is the [for] loop from iteration [i] on, with [remaining]
    iterations left. *)
Fixpoint retryLoop {T} (fn : Async T) (onRetry : nat → string → Session → Session)
    (retries delayMs : nat) (remaining i : nat) (lastError : option string)
    : Async T :=
  λ s,
    match remaining with
    | 0 => (s, inl ("All " +:+ show_nat retries +:+ " attempts failed. Last error: "
                    +:+ default "undefined" lastError))
    | S remaining' =>
        match fn s with
        | (s1, inr v) => (s1, inr v)
        | (s1, inl message) =>
            let s2 :=
              if (i <? retries - 1)%nat
              then record (EvSleep (delayMs * 2 ^ i)) (onRetry (S i) message s1)
              else s1 in
            retryLoop fn onRetry retries delayMs remaining' (S i) (Some message) s2
        end
    end.

Definition withRetries {T} (fn : Async T) (onRetry : nat → string → Session → Session)
    (retries delayMs : nat) : Async T :=
  retryLoop fn onRetry retries delayMs retries 0 None.

(** [withRetriesAndFallbacks(apiCallFn, models, onAttempt, retriesPerModel = 2)];
    [onAttempt] is the status callback, recorded in the log.
    [fallbackLoop] is the [for (const model of models)] loop. *)
Fixpoint fallbackLoop {T} (apiCallFn : string → Async T) (allModels : list string)
    (retriesPerModel : nat) (models : list string) (lastError : option string)
    : Async T :=
  λ s,
    match models with
    | [] => (s, inl ("All fallback models failed. Last error on model "
                     +:+ default "undefined" (last allModels) +:+ ": "
                     +:+ default "undefined" lastError))
    | model :: rest =>
        let onRetry (attempt : nat) (message : string) :=
          record (EvStatus ("[" +:+ model +:+ "] Failed (attempt " +:+ show_nat attempt
                            +:+ "/" +:+ show_nat retriesPerModel +:+ "). Retrying...")) in
        let s0 := record (EvStatus ("Attempting with model: " +:+ model +:+ "...")) s in
        match withRetries (apiCallFn model) onRetry retriesPerModel 1500 s0 with
        | (s1, inr v) => (s1, inr v)
        | (s1, inl message) =>
            let s2 := record (EvStatus ("Model [" +:+ model
                                 +:+ "] failed permanently. Trying next model...")) s1 in
            fallbackLoop apiCallFn allModels retriesPerModel rest (Some message) s2
        end
    end.

Definition withRetriesAndFallbacks {T} (apiCallFn : string → Async T)
    (models : list string) (retriesPerModel : nat) : Async T :=
  fallbackLoop apiCallFn models retriesPerModel models None.

(** The attempt schedule of the two-level policy: every model of the list
    in priority order, each tried [retriesPerModel] times in a row. *)
Definition schedule (models : list string) (retriesPerModel : nat) : list string :=
  concat (map (λ model, replicate retriesPerModel model) models).

(** The first attempt of a schedule that the outside world answers, when the
    schedule starts at the session's [k]-th call: its position and the
    response. *)
Fixpoint firstResponse {R} (oracle : Oracle R) (request : Request) (k : nat)
    (sched : list string) : option (nat * R) :=
  match sched with
  | [] => None
  | model :: rest =>
      match oracle k model request with
      | ApiRespond r => Some (0, r)
      | ApiFail _ => (λ jr : nat * R, (S jr.1, jr.2)) <$> firstResponse oracle request (S k) rest
      end
  end.

(** The delays slept when all [retries] attempts on one model fail:
    [delayMs * 2^i] after attempt [i], except after the last one. *)
Definition backoff (delayMs retries : nat) : list nat :=
  map (λ i, delayMs * 2 ^ i) (seq 0 (retries - 1)).

(** A callback that only reports status. *)
Definition quiet (f : Session → Session) : Prop :=
  ∀ s, calls (f s) = calls s ∧ modelsCalled (f s) = modelsCalled s
       ∧ sleeps (f s) = sleeps s.

(** ** Narrative generation ([services/geminiService.ts]) *)

Module GeminiService.

Definition ALL_TEXT_MODELS : list string := ["gemini-2.5-flash"].

Record StoryGenerationResult := {
  story_panel_id : string;
  story_recap_texts : gmap string string;
  story_key_action_description : string;
  story_dialogue_summary : string;
  story_narration_tone : string;
}.

(** What [JSON.parse(response.text)] makes of a response. *)
Inductive ResponseText :=
  | NotJson (syntaxError : string)
  | JsonNotArray
  | JsonArray (parsed : list StoryGenerationResult).

(** [[...new Set(ids)]]: first occurrences, in insertion order. *)
Fixpoint setOrder (seen : list string) (ids : list string) : list string :=
  match ids with
  | [] => []
  | x :: rest =>
      if decide (x ∈ seen) then setOrder seen rest
      else x :: setOrder (x :: seen) rest
  end.

(** [missingIds] of the validation step. *)
Definition missingIds (panels : list Panel) (parsed : list StoryGenerationResult)
    : list string :=
  let sentPanelIds := setOrder [] (map panel_id panels) in
  let receivedPanelIds := map story_panel_id parsed in
  filter (λ x, x ∉ receivedPanelIds) sentPanelIds.

(** The [parts] array of the request. *)
Definition buildParts (panels : list Panel) (previousPanelContext : option string)
    (targetLanguages : list string) : list Part :=
  let contextText :=
    match previousPanelContext with
    | Some ctx => if decide (ctx = "") then ""
                  else "Context from previous chapter/page chunk: " +:+ dquote +:+ ctx +:+ dquote
    | None => ""
    end in
  let promptText :=
    "Analyze this batch of panels. For each panel, generate a story recap for the following languages: "
    +:+ join ", " targetLanguages
    +:+ ". Use the provided context and the CRITICAL character guide in the system prompt to ensure narrative flow. "
    +:+ contextText in
  TextPart promptText ::
  concat (map (λ panel,
    match croppedImageBase64 panel with
    | Some img => if decide (img = "") then []
                  else [TextPart ("--- PANEL START (ID: " +:+ panel_id panel +:+ ") ---");
                        InlineData img]
    | None => []
    end) panels).

(** [geminiService.generateStoriesForPanels(panels, characterDescriptions,
    previousPanelContext, targetLanguages, onStatusUpdate)].  The character
    notes only enter the system instruction, which is part of the call's
    [config] and not of the request modelled here. *)
Definition generateStoriesForPanels (oracle : Oracle ResponseText)
    (apiKeyConfigured : bool) (panels : list Panel)
    (previousPanelContext : option string) (targetLanguages : list string)
    : Async (list StoryGenerationResult) :=
  λ s,
    if negb apiKeyConfigured then (s, inl "API Key not configured.") else
    let parts := buildParts panels previousPanelContext targetLanguages in
    let apiCall (model : string) := generateContent oracle model {| req_parts := parts |} in
    let rethrow (message : string) : string + list StoryGenerationResult :=
      inl ("Error generating stories: " +:+ message) in
    match withRetriesAndFallbacks apiCall ALL_TEXT_MODELS 2 s with
    | (s1, inl message) => (s1, rethrow message)
    | (s1, inr response) =>
        match response with
        | NotJson syntaxError => (s1, rethrow syntaxError)
        | JsonNotArray => (s1, rethrow "AI response was not a valid JSON array.")
        | JsonArray parsed =>
            let missing := missingIds panels parsed in
            if (0 <? length missing)%nat then
              (s1, rethrow ("AI response is incomplete. Missing stories for panel IDs: "
                            +:+ join ", " missing))
            else (s1, inr parsed)
        end
    end.

End GeminiService.

(** ** Narration audio ([services/geminiTtsService.ts]) *)

Module GeminiTtsService.






End GeminiTtsService.

(** ** Story generation driven by the component ([MangaToVideoPanel.tsx])

    The component state that the batch handlers touch: the history cell,
    the session with the external model, the error banner and the stop
    flag ([stopRequestRef.current]). *)

Record AppState := {
  history : History;
  session : Session;
  globalError : option string;
  stopRequest : bool;
}.

Definition setGlobalError (e : option string) (st : AppState) : AppState :=
  {| history := history st; session := session st; globalError := e;
     stopRequest := stopRequest st |}.

Definition setSession (s : Session) (st : AppState) : AppState :=
  {| history := history st; session := s; globalError := globalError st;
     stopRequest := stopRequest st |}.

Definition updateChapters (updater : list Chapter → list Chapter) (recordHistory : bool)
    (st : AppState) : AppState :=
  {| history := setChapters updater recordHistory (history st); session := session st;
     globalError := globalError st; stopRequest := stopRequest st |}.

(** The updater with which [handleGenerateStories] writes the results back. *)
Definition applyStories (chapterId : string)
    (storyData : list GeminiService.StoryGenerationResult)
    (prev : list Chapter) : list Chapter :=
  let storyMap : gmap string GeminiService.StoryGenerationResult :=
    foldl (λ m item, <[GeminiService.story_panel_id item := item]> m) ∅ storyData in
  map (λ c,
    if decide (id c ≠ chapterId) then c else
    with_stitchedPages
      (map (λ page,
         with_panels
           (map (λ panel,
              match storyMap !! panel_id panel with
              | Some storyResult =>
                  {| panel_id := panel_id panel; index := index panel;
                     coordinates := coordinates panel;
                     recap_texts := Some (GeminiService.story_recap_texts storyResult);
                     confidence := confidence panel;
                     narration_tone := Some (GeminiService.story_narration_tone storyResult);
                     key_action_description :=
                       Some (GeminiService.story_key_action_description storyResult);
                     dialogue_summary :=
                       Some (GeminiService.story_dialogue_summary storyResult);
                     flags := flags panel;
                     croppedImageBase64 := croppedImageBase64 panel;
                     audioInfos := audioInfos panel; status := complete |}
              | None => panel
              end) (panels page)) page)
         (stitchedPages c)) c) prev.

(** [handleGenerateStories(chapterId, previousChapterContext)].  [chapters] is
    the [chapters] value the callback closed over when it was created; the
    updates go to the live history cell. *)
Definition handleGenerateStories (oracle : Oracle GeminiService.ResponseText)
    (apiKeyConfigured : bool) (chapters : list Chapter) (targetLanguages : list string)
    (chapterId : string) (previousChapterContext : option string)
    (st : AppState) : AppState * (string + unit) :=
  let st := setGlobalError None st in
  match list_find (λ c, id c = chapterId) chapters with
  | None => (setGlobalError (Some "Chapter not found.") st, inr tt)
  | Some (_, chapter) =>
      let allPanelsInChapter := concat (map panels (stitchedPages chapter)) in
      if (length allPanelsInChapter =? 0)%nat then
        (setGlobalError
           (Some "No panels detected in this chapter to generate stories for.") st,
         inr tt)
      else
        match GeminiService.generateStoriesForPanels oracle apiKeyConfigured
                allPanelsInChapter previousChapterContext targetLanguages (session st) with
        | (s1, inr storyData) =>
            (updateChapters (applyStories chapterId storyData) false (setSession s1 st),
             inr tt)
        | (s1, inl message) =>
            (setGlobalError
               (Some ("Error generating stories for Chapter " +:+ name chapter +:+ ": "
                      +:+ message)) (setSession s1 st),
             inl message)
        end
  end.

(** The context computed after a chapter of the global batch completes, read
    from [latestChapters]. *)
Definition trailingContext (latestChapters : list Chapter) (chapterId : string)
    (selectedLanguage : string) (previousChapterContext : option string)
    : option string :=
  match list_find (λ c, id c = chapterId) latestChapters with
  | Some (_, updatedChapter) =>
      match last (stitchedPages updatedChapter) with
      | Some lastPage =>
          match last (panels lastPage) with
          | Some lastPanel => recap_texts lastPanel ≫= (λ texts, texts !! selectedLanguage)
          | None => previousChapterContext
          end
      | None => previousChapterContext
      end
  | None => previousChapterContext
  end.

(** The [for] loop of [handleGenerateAllStories].  [chaptersHistory] is the
    value of the React state that the handler closed over when the component
    rendered: its [present] is both the [chapters] array the loop walks and
    the [latestChapters] read after each [await]; [setChapters] queues its
    updates on the live cell in [st] and does not change that captured value. *)
Fixpoint generateAllLoop (oracle : Oracle GeminiService.ResponseText)
    (apiKeyConfigured : bool) (chaptersHistory : History)
    (selectedLanguage : string) (targetLanguages : list string)
    (remaining : list Chapter) (previousChapterContext : option string)
    (st : AppState) : AppState :=
  match remaining with
  | [] => st
  | chapter :: rest =>
      if stopRequest st then st else
      match handleGenerateStories oracle apiKeyConfigured (present chaptersHistory)
              targetLanguages (id chapter) previousChapterContext st with
      | (st1, inr _) =>
          let latestChapters := present chaptersHistory in
          let next := trailingContext latestChapters (id chapter) selectedLanguage
                        previousChapterContext in
          generateAllLoop oracle apiKeyConfigured chaptersHistory selectedLanguage
            targetLanguages rest next st1
      | (st1, inl message) =>
          setGlobalError (Some ("Failed on Chapter " +:+ name chapter +:+ ": " +:+ message)) st1
      end
  end.

(** [handleGenerateAllStories()], invoked from the render of [st]. *)
Definition handleGenerateAllStories (oracle : Oracle GeminiService.ResponseText)
    (apiKeyConfigured : bool) (selectedLanguage : string)
    (targetLanguages : list string) (st : AppState) : AppState :=
  let chaptersHistory := history st in
  let st0 := {| history := history st; session := session st; globalError := None;
                stopRequest := false |} in
  generateAllLoop oracle apiKeyConfigured chaptersHistory selectedLanguage
    targetLanguages (present chaptersHistory) None st0.

(** The requests sent to the model during a session, in order. *)
Definition requestsSent (s : Session) : list Request :=
  omap (λ ev, match ev with EvCall _ request => Some request | _ => None end) (log s).

(** The text of the first part of a request (the prompt). *)
Definition promptOf (r : Request) : string :=
  match req_parts r with
  | TextPart text :: _ => text
  | _ => EmptyString
  end.

(** [haystack.includes(needle)] *)
Definition includes (needle haystack : string) : bool :=
  match String.index 0 needle haystack with
  | Some _ => true
  | None => false
  end.

(** * Further parts of the program *)

(** ** Views of the store used by the statements *)

(** The whole undo line of a history: the past, the present and the
    future, oldest first. *)
Definition timeline (h : History) : list (list Chapter) :=
  past h ++ [present h] ++ future h.

(** A panel with its [index] field blanked: two lists that agree under it
    hold the same panels up to numbering. *)
Definition unnumbered (ps : list Panel) : list Panel := map (with_index 0) ps.

(** What a session gained: [k] more calls, all to the one text model. *)
Definition extendedBy (k : nat) (s s' : Session) : Prop :=
  calls s' = (calls s + k)%nat
  ∧ modelsCalled s' = modelsCalled s ++ replicate k "gemini-2.5-flash".



(** ** Keyboard shortcuts ([handleGlobalKeyDown] in [MangaToVideoPanel.tsx]) *)

(** [Keybinding] and [ActionKeybindings] ([types.ts]) *)
Record Keybinding := {
  key : string;
  ctrlKey : bool;
  shiftKey : bool;
  altKey : bool;
}.

Record ActionKeybindings := {
  splitPanel : list Keybinding;
  cropTop : list Keybinding;
  cropBottom : list Keybinding;
  deletePanel : list Keybinding;
  undo : list Keybinding;
  redo : list Keybinding;
  nextPanel : list Keybinding;
  previousPanel : list Keybinding;
}.

(** The selection state of the component. *)
Record Selection := {
  selectedPageId : option string;
  selectedPanelId : option string;
}.

(** A panel of [allPanelsInOrder]: the panel with the ids of its page and
    of its chapter. *)
Record PlacedPanel := {
  placed : Panel;
  page_id : string;
  placed_chapter_id : string;
}.

(** [chapters.flatMap(chapter => chapter.stitchedPages.flatMap(page =>
    page.panels.map(panel => ({ ...panel, page_id, chapter_id }))))] *)
Definition allPanelsInOrder (chapters : list Chapter) : list PlacedPanel :=
  concat (map (λ chapter,
    concat (map (λ page,
      map (λ panel, {| placed := panel; page_id := stitch_id page;
                       placed_chapter_id := id chapter |}) (panels page))
      (stitchedPages chapter))) chapters).

Section Keyboard.

(** [String.prototype.toLowerCase] *)
Variable toLowerCase : string → string.

(** [checkBinding(action)] against the key event, given as a binding. *)
Definition checkBinding (bindings : list Keybinding) (e : Keybinding) : bool :=
  existsb (λ b,
    String.eqb (toLowerCase (key b)) (toLowerCase (key e))
    && Bool.eqb (ctrlKey b) (ctrlKey e)
    && Bool.eqb (shiftKey b) (shiftKey e)
    && Bool.eqb (altKey b) (altKey e)) bindings.

(** [handleGlobalKeyDown(e)]: the history cell and the selection after the
    key event.  [isEditingText] tells whether the focus is in a text
    field. *)
Definition handleGlobalKeyDown (keybindings : ActionKeybindings) (isEditingText : bool)
    (e : Keybinding) (h : History) (sel : Selection) : History * Selection :=
  if isEditingText then (h, sel) else
  if checkBinding (undo keybindings) e then (handleUndo h, sel) else
  if checkBinding (redo keybindings) e then (handleRedo h, sel) else
  let chapters := present h in
  let allPanelsInOrder := allPanelsInOrder chapters in
  if (length allPanelsInOrder =? 0)%nat then (h, sel) else
  let currentIndex :=
    match selectedPanelId sel with
    | Some sid =>
        if decide (sid = "") then None
        else fst <$> list_find (λ p, panel_id (placed p) = sid) allPanelsInOrder
    | None => None
    end in
  match currentIndex with
  | None => (h, sel)
  | Some currentIndex =>
      if checkBinding (deletePanel keybindings) e then
        match allPanelsInOrder !! currentIndex with
        | None => (h, sel)
        | Some currentPanel =>
            let h' := setChapters
                        (handleDeletePanel (placed_chapter_id currentPanel)
                           (page_id currentPanel) (panel_id (placed currentPanel)))
                        true h in
            let newTotal := (length allPanelsInOrder - 1)%nat in
            if (0 <? newTotal)%nat then
              let newPanelOrder :=
                filter (λ p, Some (panel_id (placed p)) ≠ selectedPanelId sel)
                       allPanelsInOrder in
              let nextIndex := Nat.min currentIndex (newTotal - 1) in
              match newPanelOrder !! nextIndex with
              | Some nextPanelToSelect =>
                  (h', {| selectedPageId := Some (page_id nextPanelToSelect);
                          selectedPanelId := Some (panel_id (placed nextPanelToSelect)) |})
              | None => (h', sel)
              end
            else (h', {| selectedPageId := None; selectedPanelId := None |})
        end
      else if checkBinding (nextPanel keybindings) e
              || checkBinding (previousPanel keybindings) e then
        let isNext := checkBinding (nextPanel keybindings) e in
        let nextIndex :=
          if isNext then Some (currentIndex + 1)%nat
          else if (currentIndex =? 0)%nat then None else Some (currentIndex - 1)%nat in
        match nextIndex ≫= (λ i, allPanelsInOrder !! i) with
        | Some nextPanel =>
            (h, {| selectedPageId := Some (page_id nextPanel);
                   selectedPanelId := Some (panel_id (placed nextPanel)) |})
        | None => (h, sel)
        end
      else (h, sel)
  end.

End Keyboard.

(** [DEFAULT_KEYBINDINGS] *)
Definition DEFAULT_KEYBINDINGS : ActionKeybindings :=
  {| splitPanel := [{| key := "b"; ctrlKey := true; shiftKey := false; altKey := false |}];
     cropTop := [{| key := "q"; ctrlKey := false; shiftKey := false; altKey := false |}];
     cropBottom := [{| key := "w"; ctrlKey := false; shiftKey := false; altKey := false |}];
     deletePanel :=
       [{| key := "Delete"; ctrlKey := false; shiftKey := false; altKey := false |}];
     undo := [{| key := "z"; ctrlKey := true; shiftKey := false; altKey := false |}];
     redo := [{| key := "y"; ctrlKey := true; shiftKey := false; altKey := false |};
              {| key := "z"; ctrlKey := true; shiftKey := true; altKey := false |}];
     nextPanel :=
       [{| key := "Enter"; ctrlKey := false; shiftKey := false; altKey := false |}];
     previousPanel :=
       [{| key := "Enter"; ctrlKey := false; shiftKey := true; altKey := false |}] |}.

(** The identity of a placed panel: its id and the id of its page. *)
Definition identOf (p : PlacedPanel) : string * string :=
  (panel_id (placed p), page_id p).

(** ** The zoomable panel editor ([components/PanelEditor.tsx]) *)

Module PanelEditor.
Local Open Scope Q_scope.


(** The [zoom] and [pan] state of the component. *)
Record View := { zoom : Q; pan_x : Q; pan_y : Q }.

(** The viewport element: its bounding rectangle's corner and its client
    size. *)
Record Viewport := {
  rect_left : Q; rect_top : Q;
  clientWidth : Q; clientHeight : Q;
}.

Record PointerEvent := { clientX : Q; clientY : Q }.


Definition imageHeight (page : StitchedPageAnalysis) : Q :=
  inject_Z (Z.of_nat (image_height page)).


(** [getRelativeCoords(e).y_norm], for a mounted viewport. *)
Definition getRelativeCoords (page : StitchedPageAnalysis) (viewport : Viewport)
    (view : View) (e : PointerEvent) : Q :=
  let mouseY := clientY e - rect_top viewport in
  let imageY := (mouseY - pan_y view) / zoom view in
  imageY / imageHeight page.




End PanelEditor.

(** ** Audio assembly ([services/audioProcessingService.ts])

    Bytes are integers 0..255.  An [AudioBuffer] is held by its sample rate
    and the samples of channel 0, the only channel this service reads or
    writes.  Typed arrays are little-endian, as on the platforms the
    application runs on. *)

Module AudioProcessingService.
Local Open Scope Q_scope.

Record AudioBuffer := { sampleRate : Q; channelData : list Q }.

(** [buffer.duration] *)
Definition duration (buffer : AudioBuffer) : Q :=
  inject_Z (Z.of_nat (length (channelData buffer))) / sampleRate buffer.

(** [audioContext.createBuffer(1, length, sampleRate)], for a sample rate
    the context supports: a silent mono buffer; the Web Audio API throws a
    [NotSupportedError] when asked for no frames. *)
Definition createBuffer (length : nat) (sampleRate : Q) : string + AudioBuffer :=
  if (length =? 0)%nat then inl "NotSupportedError"
  else inr {| sampleRate := sampleRate; channelData := replicate length 0 |}.

(** A 16-bit pattern read as a two's-complement integer. *)
Definition toInt16 (u : Z) : Z := if (u <? 32768)%Z then u else (u - 65536)%Z.

(** [new Int16Array(pcmData.buffer, pcmData.byteOffset, pcmData.length / 2)],
    for an array that starts its buffer (as the one the speech service
    builds): the bytes taken two by two, low byte first; a last odd byte is
    outside the view. *)
Fixpoint int16View (bytes : list Z) : list Z :=
  match bytes with
  | lo :: hi :: rest => toInt16 (lo + 256 * hi) :: int16View rest
  | _ => []
  end.

(** [buffer.copyToChannel(source, 0)] *)
Definition copyToChannel (source : list Q) (buffer : AudioBuffer) : AudioBuffer :=
  {| sampleRate := sampleRate buffer;
     channelData := take (length (channelData buffer)) source
                    ++ drop (length source) (channelData buffer) |}.

(** [decodePcmToAudioBuffer(pcmData)] *)
Definition decodePcmToAudioBuffer (pcmData : list Z) : string + AudioBuffer :=
  let pcm16 := int16View pcmData in
  let pcm32 := map (λ v, inject_Z v / 32768) pcm16 in
  match createBuffer (length pcm32) 24000 with
  | inl e => inl e
  | inr buffer => inr (copyToChannel pcm32 buffer)
  end.

(** [channelData.set(source, offset)] on a typed array; it throws a
    [RangeError] when the source does not fit. *)
Definition typedArraySet (target source : list Q) (offset : nat) : string + list Q :=
  if (length target <? offset + length source)%nat then inl "RangeError"
  else inr (take offset target ++ source ++ drop (offset + length source) target).

(** The copy loop of [combineAudioBuffers]. *)
Fixpoint copyBuffers (buffers : list AudioBuffer) (channelData0 : list Q) (offset : nat)
    : string + list Q :=
  match buffers with
  | [] => inr channelData0
  | buffer :: rest =>
      match typedArraySet channelData0 (channelData buffer) offset with
      | inl e => inl e
      | inr written =>
          copyBuffers rest written (offset + length (channelData buffer))
      end
  end.

(** [combineAudioBuffers(buffers)], for a context running at
    [contextSampleRate]. *)
Definition combineAudioBuffers (contextSampleRate : Q) (buffers : list AudioBuffer)
    : string + AudioBuffer :=
  if (length buffers =? 0)%nat then createBuffer 1 contextSampleRate else
  let totalLength :=
    foldl (λ sum buffer, (sum + length (channelData buffer))%nat) 0%nat buffers in
  match createBuffer totalLength contextSampleRate with
  | inl e => inl e
  | inr combinedBuffer =>
      match copyBuffers buffers (channelData combinedBuffer) 0 with
      | inl e => inl e
      | inr written =>
          inr {| sampleRate := sampleRate combinedBuffer; channelData := written |}
      end
  end.

(** The integer a [DataView] setter stores for a finite number: its
    fraction is dropped. *)
Definition truncate (v : Q) : Z := if Qltb v 0 then Qceiling v else Qfloor v.

(** [view.setUint32(offset, v, true)], [view.setUint16(offset, v, true)] and
    [view.setInt16(offset, v, true)]: the bytes written, low byte first. *)
Definition setUint32 (v : Q) : list Z :=
  let i := (truncate v mod 4294967296)%Z in
  [(i mod 256)%Z; (i / 256 mod 256)%Z; (i / 65536 mod 256)%Z; (i / 16777216)%Z].

Definition setUint16 (v : Q) : list Z :=
  let i := (truncate v mod 65536)%Z in [(i mod 256)%Z; (i / 256)%Z].

Definition setInt16 (v : Q) : list Z := setUint16 v.

(** [writeString(view, offset, string)]: one byte per character. *)
Definition writeString (s : string) : list Z :=
  map (λ c, Z.of_N (N_of_ascii c)) (list_ascii_of_string s).

(** [audioBufferToWavBlob(buffer)]: the bytes of the blob. *)
Definition audioBufferToWavBlob (buffer : AudioBuffer) : list Z :=
  let pcmData := channelData buffer in
  let n := inject_Z (Z.of_nat (length pcmData)) in
  writeString "RIFF"
  ++ setUint32 (36 + n * 2)
  ++ writeString "WAVE"
  ++ writeString "fmt "
  ++ setUint32 16
  ++ setUint16 1
  ++ setUint16 1
  ++ setUint32 (sampleRate buffer)
  ++ setUint32 (sampleRate buffer * 2)
  ++ setUint16 2
  ++ setUint16 16
  ++ writeString "data"
  ++ setUint32 (n * 2)
  ++ concat (map (λ x,
       let s := Qmax (-1) (Qmin 1 x) in
       setInt16 (if Qltb s 0 then s * 32768 else s * 32767)) pcmData).

(** A 32-bit field of a file, read low byte first. *)
Definition uint32At (offset : nat) (bytes : list Z) : Z :=
  match take 4 (drop offset bytes) with
  | [b0; b1; b2; b3] => (b0 + 256 * b1 + 65536 * b2 + 16777216 * b3)%Z
  | _ => 0%Z
  end.

Definition isByte (b : Z) : Prop := (0 ≤ b ≤ 255)%Z.

End AudioProcessingService.

(** ** Text chunking ([smartChunking] in [services/geminiService.ts])

    A JavaScript string is the list of its UTF-16 code units. *)

Module TextChunking.

(** The code units that [trim()] strips: white space and line terminators. *)
Definition isWhiteSpace (c : N) : bool :=
  ((c =? 9) || (c =? 10) || (c =? 11) || (c =? 12) || (c =? 13) || (c =? 32)
   || (c =? 160) || (c =? 5760) || ((8192 <=? c) && (c <=? 8202))
   || (c =? 8232) || (c =? 8233) || (c =? 8239) || (c =? 8287) || (c =? 12288)
   || (c =? 65279))%N.

Fixpoint trimStart (s : list N) : list N :=
  match s with
  | c :: rest => if isWhiteSpace c then trimStart rest else s
  | [] => []
  end.

(** [s.trim()] *)
Definition trim (s : list N) : list N := rev (trimStart (rev (trimStart s))).

(** [s.startsWith(p)] *)
Fixpoint startsWith (p s : list N) : bool :=
  match p, s with
  | [], _ => true
  | a :: p', b :: s' => (a =? b)%N && startsWith p' s'
  | _ :: _, [] => false
  end.

(** [s.lastIndexOf(p)]: the greatest index at which [p] occurs in [s]
    ([None] for -1). *)
Definition lastIndexOf (s p : list N) : option nat :=
  last (filter (λ i, startsWith p (drop i s) = true) (seq 0 (S (length s)))).

(** ['. '], ['? '], ['! '], two line feeds, one line feed. *)
Definition sentenceEndings : list (list N) :=
  [[46; 32]; [63; 32]; [33; 32]; [10; 10]; [10]]%N.

(** The [for (const p of sentenceEndings)] loop. *)
Definition lastSentenceEnd (chunk : list N) : option nat :=
  foldl (λ (lastSentenceEnd : option nat) p,
    match lastIndexOf chunk p with
    | Some index =>
        match lastSentenceEnd with
        | Some e => if (e <? index)%nat then Some (index + length p - 1)%nat
                    else lastSentenceEnd
        | None => Some (index + length p - 1)%nat
        end
    | None => lastSentenceEnd
    end) None sentenceEndings.

Definition splitIndex (chunk : list N) (maxLength : nat) : nat :=
  match lastSentenceEnd chunk with
  | Some e => (e + 1)%nat
  | None =>
      match lastIndexOf chunk [32%N] with
      | Some i => (i + 1)%nat
      | None => maxLength
      end
  end.

(** The [while] loop, run for at most [fuel] iterations; [None] when it has
    not left the loop by then. *)
Fixpoint chunkLoop (fuel : nat) (maxLength : nat) (remainingText : list N)
    (chunks : list (list N)) : option (list (list N)) :=
  match fuel with
  | 0%nat => None
  | S fuel' =>
      if (0 <? length remainingText)%nat then
        if (length remainingText <=? maxLength)%nat
        then Some (chunks ++ [remainingText])
        else
          let chunk := take maxLength remainingText in
          let splitIndex := splitIndex chunk maxLength in
          chunkLoop fuel' maxLength (trim (drop splitIndex remainingText))
            (chunks ++ [trim (take splitIndex remainingText)])
      else Some chunks
  end.

(** [smartChunking(text, maxLength)], for [maxLength] a non-negative
    integer. *)
Definition smartChunking (fuel : nat) (text : list N) (maxLength : nat)
    : option (list (list N)) :=
  filter (λ c, (0 < length c)%nat) <$> chunkLoop fuel maxLength (trim text) [].

(** The text without its white space. *)
Definition inked (s : list N) : list N := filter (λ c, isWhiteSpace c = false) s.

(** A string that [trim()] leaves as it is. *)
Definition trimmed (s : list N) : Prop := trim s = s.

End TextChunking.

(** [Segment] ([types.ts]) *)
Record Segment := { seg_start : Q; seg_end : Q; seg_text : string }.

(** ** Script segments ([components/LongTextToAudioPanel.tsx]) *)

Module LongTextToAudioPanel.
Local Open Scope Q_scope.

(** [mergedSegments.push(accumulator)] when there is one. *)
Definition flush (accumulator : option Segment) (mergedSegments : list Segment)
    : list Segment :=
  match accumulator with
  | Some a => mergedSegments ++ [a]
  | None => mergedSegments
  end.

(** The [for (const segment of segments)] loop of [mergeSegments] and the
    final push. *)
Fixpoint mergeLoop (targetDuration : Q) (segments : list Segment)
    (accumulator : option Segment) (mergedSegments : list Segment) : list Segment :=
  match segments with
  | [] => flush accumulator mergedSegments
  | segment :: rest =>
      if Qleb targetDuration (seg_end segment - seg_start segment) then
        mergeLoop targetDuration rest None (flush accumulator mergedSegments ++ [segment])
      else
        let accumulator' :=
          match accumulator with
          | None => segment
          | Some a => {| seg_start := seg_start a; seg_end := seg_end segment;
                         seg_text := seg_text a +:+ " " +:+ seg_text segment |}
          end in
        if Qleb targetDuration (seg_end accumulator' - seg_start accumulator')
        then mergeLoop targetDuration rest None (mergedSegments ++ [accumulator'])
        else mergeLoop targetDuration rest (Some accumulator') mergedSegments
  end.

(** [mergeSegments(segments, targetDuration)] *)
Definition mergeSegments (segments : list Segment) (targetDuration : Q) : list Segment :=
  if (length segments =? 0)%nat || Qleb targetDuration 0 then segments
  else mergeLoop targetDuration segments None [].

(** The whole script read from a list of segments: their texts joined by
    single spaces. *)
Definition scriptOf (segments : list Segment) : string :=
  join " " (map seg_text segments).






End LongTextToAudioPanel.

(** ** Batch translation ([translateBatch] in [services/geminiService.ts]) *)

Module Translation.

(** What [JSON.parse] makes of the response text: an error thrown while the
    text is read or parsed; a value that is not an array, of which the code
    prints [parsed.length] in its message ([typeError] when that read itself
    throws, as for [null]); or an array, whose items the code hands back
    without looking at them. *)
Inductive ResponseText (Item : Type) :=
  | NotJson (syntaxError : string)
  | NotArray (printedLength : string + string)
  | JsonArray (parsed : list Item).
Arguments NotJson {Item} syntaxError.
Arguments NotArray {Item} printedLength.
Arguments JsonArray {Item} parsed.

(** [translateBatch(segments, langCode, onStatusUpdate)].  [sourceTexts]
    embeds the source strings into the result type for the en-US shortcut;
    [styleGuide] is [TRANSLATION_STYLE_GUIDES[langCode]] read as a condition;
    [prompt] is the request text built from the segment texts and the style
    guide. *)
Definition translateBatch {Item} (oracle : Oracle (ResponseText Item))
    (ofText : string → Item) (prompt : list string → string)
    (apiKeyConfigured : bool) (styleGuide : bool)
    (segments : list Segment) (langCode : string) : Async (list Item) :=
  λ s,
    if negb apiKeyConfigured then (s, inl "API Key not configured.") else
    if (length segments =? 0)%nat then (s, inr []) else
    if decide (langCode = "en-US") then (s, inr (map (λ x, ofText (seg_text x)) segments))
    else
    if negb styleGuide then
      (s, inl ("No translation style guide found for language code: " +:+ langCode))
    else
    let textsToTranslate := map seg_text segments in
    let apiCall (model : string) :=
      generateContent oracle model {| req_parts := [TextPart (prompt textsToTranslate)] |} in
    let rethrow (message : string) : string + list Item :=
      inl ("Batch translation failed for " +:+ langCode +:+ ". Last error: "
           +:+ (if decide (message = "") then "Unknown error" else message)) in
    match withRetriesAndFallbacks apiCall GeminiService.ALL_TEXT_MODELS 2 s with
    | (s1, inl message) => (s1, rethrow message)
    | (s1, inr response) =>
        match response with
        | NotJson syntaxError => (s1, rethrow syntaxError)
        | NotArray (inl typeError) => (s1, rethrow typeError)
        | NotArray (inr printedLength) =>
            (s1, rethrow ("AI response was not a valid array with the correct number of segments. Expected "
                          +:+ show_nat (length segments) +:+ ", got " +:+ printedLength
                          +:+ "."))
        | JsonArray parsed =>
            if negb (length parsed =? length segments)%nat then
              (s1, rethrow ("AI response was not a valid array with the correct number of segments. Expected "
                            +:+ show_nat (length segments) +:+ ", got "
                            +:+ show_nat (length parsed) +:+ "."))
            else (s1, inr parsed)
        end
    end.

End Translation.

(** * Sample data used by the concrete checks *)

Definition samplePanel (pid : string) (i : nat) (c : CoordinatesArray) : Panel :=
  {| panel_id := pid; index := i; coordinates := c; recap_texts := None;
     confidence := 8 # 10; narration_tone := None; key_action_description := None;
     dialogue_summary := None; flags := None; croppedImageBase64 := None;
     audioInfos := ∅; status := pending |}.

Definition samplePage (sid cid : string) (ps : list Panel) : StitchedPageAnalysis :=
  {| stitch_id := sid; chapter_id := cid; image_width := 800; image_height := 1200;
     panels := ps; stitchedImageBase64 := "data:image/png;base64,AAAA";
     stitchedImageMimeType := "image/png"; stitchedFileName := "01.png" |}.

Definition sampleChapter (cid : string) (pgs : list StitchedPageAnalysis) : Chapter :=
  {| id := cid; name := cid; files := ["01.png"]; stitchedPages := pgs;
     chapter_status := ch_processed; chapter_error := None |}.

(** One chapter, one page, two stacked half-page panels. *)
Definition twoPanelState : list Chapter :=
  [sampleChapter "ch-1"
     [samplePage "page-1" "ch-1"
        [samplePanel "p-a" 0 (Coords 0 0 1 (1 # 2));
         samplePanel "p-b" 1 (Coords 0 (1 # 2) 1 (1 # 2))]]].

(** The history after the page was loaded ([twoPanelState]) and panel [p-b]
    was then deleted. *)
Definition historyAfterDelete : History :=
  setChapters (handleDeletePanel "ch-1" "page-1" "p-b") true
    {| past := []; present := twoPanelState; future := [] |}.


(** Fifty recorded edits, the [n]-th replacing the store by one chapter
    named [n]. *)
Definition fiftyEdits : list HistoryAction :=
  map (λ n, ActUpdate (λ _, [sampleChapter (show_nat n) []]) true) (seq 1 50).

Definition fiftyFirstEdit : list Chapter → list Chapter :=
  λ _, [sampleChapter (show_nat 51) []].

(** The editor's container, 1024 by 1024 pixels at the origin; a pointer
    event; and a resize session opened by pressing the mouse on the right-edge
    handle of the only panel ["p"], whose rectangle is [oc]. *)
Definition pageRect : InteractiveMangaView.DOMRect :=
  {| InteractiveMangaView.left := 0%Q; InteractiveMangaView.top := 0%Q;
     InteractiveMangaView.width := 1024%Q; InteractiveMangaView.height := 1024%Q |}.

Definition pointerAt (x y : Q) : InteractiveMangaView.MouseEvent :=
  {| InteractiveMangaView.clientX := x; InteractiveMangaView.clientY := y |}.

Definition grabRightHandle (oc : CoordinatesArray) (x y : Q)
    : InteractiveMangaView.ActionState :=
  InteractiveMangaView.handleMouseDown [samplePanel "p" 0 oc] pageRect (pointerAt x y)
    (Some "p") (Some InteractiveMangaView.h_r).

Definition smallRect : CoordinatesArray := Coords (1 # 4) (1 # 4) (1 # 4) (1 # 4).
Definition wideRect : CoordinatesArray := Coords (1 # 2) (1 # 4) (1 # 2) (1 # 2).

(** Three canvases one pixel wide: 40 rows of mid gray; 15 dark rows, 10
    white rows and 15 dark rows; and an image with no rows at all. *)
Definition grayPixel (v : Z) : Z * Z * Z * Z := (v, v, v, 255%Z).

Definition uniformGrayCanvas : PanelDetectorService.Canvas :=
  {| PanelDetectorService.width := 1; PanelDetectorService.height := 40;
     PanelDetectorService.data := replicate 40 (grayPixel 128) |}.

Definition gutterCanvas : PanelDetectorService.Canvas :=
  {| PanelDetectorService.width := 1; PanelDetectorService.height := 40;
     PanelDetectorService.data :=
       replicate 15 (grayPixel 20) ++ replicate 10 (grayPixel 255)
       ++ replicate 15 (grayPixel 20) |}.

Definition emptyCanvas : PanelDetectorService.Canvas :=
  {| PanelDetectorService.width := 0; PanelDetectorService.height := 0;
     PanelDetectorService.data := [] |}.

(** A batch of five cropped panels, a model that answers with stories for
    the first four only, and a model that always fails. *)
Definition croppedPanel (pid : string) (i : nat) : Panel :=
  with_cropped (Some "data:image/png;base64,AAAA")
    (samplePanel pid i (Coords 0 0 1 1)).

Definition fivePanels : list Panel :=
  [croppedPanel "p1" 0; croppedPanel "p2" 1; croppedPanel "p3" 2;
   croppedPanel "p4" 3; croppedPanel "p5" 4].

Definition storyFor (pid text : string) : GeminiService.StoryGenerationResult :=
  {| GeminiService.story_panel_id := pid;
     GeminiService.story_recap_texts := {[ "en-US" := text ]};
     GeminiService.story_key_action_description := "action";
     GeminiService.story_dialogue_summary := "None";
     GeminiService.story_narration_tone := "Tense" |}.

Definition fourOfFiveOracle : Oracle GeminiService.ResponseText :=
  λ _ _ _, ApiRespond (GeminiService.JsonArray
             [storyFor "p1" "a"; storyFor "p2" "b"; storyFor "p3" "c"; storyFor "p4" "d"]).

Definition unavailableOracle : Oracle GeminiService.ResponseText :=
  λ _ _ _, ApiFail "503 Service Unavailable".

(** Two chapters without stories yet, and a model whose first answer (for
    chapter 1) ends with the text ["X"] and whose later answers cover
    chapter 2. *)
Definition twoChapters : list Chapter :=
  [sampleChapter "ch-1"
     [samplePage "page-1" "ch-1" [croppedPanel "c1-p1" 0; croppedPanel "c1-p2" 1]];
   sampleChapter "ch-2"
     [samplePage "page-2" "ch-2" [croppedPanel "c2-p1" 0]]].

Definition storyOracle : Oracle GeminiService.ResponseText :=
  λ k _ _,
    match k with
    | 0 => ApiRespond (GeminiService.JsonArray
                         [storyFor "c1-p1" "It begins."; storyFor "c1-p2" "X"])
    | _ => ApiRespond (GeminiService.JsonArray [storyFor "c2-p1" "It goes on."])
    end.

Definition freshApp (chapters : list Chapter) : AppState :=
  {| history := {| past := []; present := chapters; future := [] |};
     session := newSession; globalError := None; stopRequest := false |}.

(** The prompt of a batch sent without any context. *)
Definition promptWithoutContext : string :=
  "Analyze this batch of panels. For each panel, generate a story recap for the following languages: en-US. Use the provided context and the CRITICAL character guide in the system prompt to ensure narrative flow. ".


(** Panel A reads "Hello", its successor B reads "world". *)
Definition withTexts (texts : gmap string string) (p : Panel) : Panel :=
  {| panel_id := panel_id p; index := index p; coordinates := coordinates p;
     recap_texts := Some texts; confidence := confidence p;
     narration_tone := narration_tone p;
     key_action_description := key_action_description p;
     dialogue_summary := dialogue_summary p; flags := flags p;
     croppedImageBase64 := croppedImageBase64 p; audioInfos := audioInfos p;
     status := status p |}.

Definition helloWorldPanels : list Panel :=
  [withTexts {[ "en" := "Hello" ]} (samplePanel "A" 0 (Coords 0 0 1 (1 # 2)));
   withTexts {[ "en" := "world" ]} (samplePanel "B" 1 (Coords 0 (1 # 2) 1 (1 # 2)))].

(** The two-panel page held as one page object, referenced by the only
    chapter of the present snapshot. *)
Definition twoPanelStore : SharedObjects.Heap * SharedObjects.HistoryObj :=
  ([samplePage "page-1" "ch-1"
      [samplePanel "p-a" 0 (Coords 0 0 1 (1 # 2));
       samplePanel "p-b" 1 (Coords 0 (1 # 2) 1 (1 # 2))]],
   {| SharedObjects.pastRefs := [];
      SharedObjects.presentRefs :=
        [{| SharedObjects.fields := sampleChapter "ch-1" [];
            SharedObjects.pageRefs := [0%nat] |}];
      SharedObjects.futureRefs := [] |}).

(** Two page objects under one chapter: the two-panel page and a second
    page with the single panel [p-c]. *)
Definition twoPageStore : SharedObjects.Heap * SharedObjects.HistoryObj :=
  ([samplePage "page-1" "ch-1"
      [samplePanel "p-a" 0 (Coords 0 0 1 (1 # 2));
       samplePanel "p-b" 1 (Coords 0 (1 # 2) 1 (1 # 2))];
    samplePage "page-2" "ch-1" [samplePanel "p-c" 0 (Coords 0 0 1 1)]],
   {| SharedObjects.pastRefs := [];
      SharedObjects.presentRefs :=
        [{| SharedObjects.fields := sampleChapter "ch-1" [];
            SharedObjects.pageRefs := [0%nat; 1%nat] |}];
      SharedObjects.futureRefs := [] |}).

(** A store that lies in the present of a fresh history. *)
Definition freshHistory (chapters : list Chapter) : History :=
  {| past := []; present := chapters; future := [] |}.

(** One chapter of two pages: the two stacked panels [p-a], [p-b] and the
    full-page panel [p-c]. *)
Definition twoPageState : list Chapter :=
  [sampleChapter "ch-1"
     [samplePage "page-1" "ch-1"
        [samplePanel "p-a" 0 (Coords 0 0 1 (1 # 2));
         samplePanel "p-b" 1 (Coords 0 (1 # 2) 1 (1 # 2))];
      samplePage "page-2" "ch-1" [samplePanel "p-c" 0 (Coords 0 0 1 1)]]].

(** [toLowerCase] on the letters A to Z; enough for the names of the keys
    used below. *)
Definition lowerAscii (s : string) : string :=
  string_of_list_ascii
    (map (λ c, let n := nat_of_ascii c in
               if (65 <=? n)%nat && (n <=? 90)%nat then ascii_of_nat (n + 32) else c)
         (list_ascii_of_string s)).

Definition keyPress (k : string) (shift : bool) : Keybinding :=
  {| key := k; ctrlKey := false; shiftKey := shift; altKey := false |}.

Definition selectPanel (pageId panelId : string) : Selection :=
  {| selectedPageId := Some pageId; selectedPanelId := Some panelId |}.



(** Three 16-bit samples, low byte first: 1, -1 and -32768. *)
Definition samplePcm : list Z := [1; 0; 255; 255; 0; 128]%Z.

(** The code units of ["Hi. Yo"] and of ["H"]. *)
Definition sampleText : list N := [72; 105; 46; 32; 89; 111]%N.
Definition oneLetter : list N := [72]%N.

(** * Properties *)

(** ** Numbers *)

Lemma Qltb_lt (a b : Q) : Qltb a b = true ↔ (a < b)%Q.
Proof.
  unfold Qltb. rewrite negb_true_iff. split.
  - intros H. apply Qnot_le_lt. intros Hle. apply Qle_bool_iff in Hle. congruence.
  - intros H. destruct (Qle_bool b a) eqn:E; [|reflexivity].
    apply Qle_bool_iff in E. exfalso. apply (Qlt_not_le _ _ H E).
Qed.

Lemma Qltb_ge (a b : Q) : Qltb a b = false ↔ (b <= a)%Q.
Proof.
  unfold Qltb. rewrite negb_false_iff. apply Qle_bool_iff.
Qed.


Lemma Qleb_gt (a b : Q) : Qleb a b = false ↔ (b < a)%Q.
Proof.
  unfold Qleb. split.
  - intros H. apply Qnot_le_lt. intros Hle. apply Qle_bool_iff in Hle. congruence.
  - intros H. destruct (Qle_bool a b) eqn:E; [|reflexivity].
    apply Qle_bool_iff in E. exfalso. apply (Qlt_not_le _ _ H E).
Qed.

(** ** The undo history *)

Section HistoryFacts.

Implicit Types (h : History) (edit : list Chapter → list Chapter).

(** An update that changes the printed state is recorded: the prior present
    goes on top of [past] (the oldest entry is shifted out when that makes
    more than 50), and [future] is emptied. *)
Lemma setChapters_recorded h edit :
  sameJSON (edit (present h)) (present h) = false →
  setChapters edit true h =
    {| past := if (50 <? length (past h ++ [present h]))%nat
               then drop 1 (past h ++ [present h]) else past h ++ [present h];
       present := edit (present h); future := [] |}.
Proof. intros Hne. unfold setChapters. simpl. now rewrite Hne. Qed.

(** An update that leaves the printed state as it was changes nothing. *)
Lemma setChapters_unchanged h edit :
  sameJSON (edit (present h)) (present h) = true →
  setChapters edit true h = h.
Proof. intros He. unfold setChapters. simpl. now rewrite He. Qed.

(** An update without [recordHistory] only replaces the present. *)
Lemma setChapters_silent h edit :
  setChapters edit false h =
    {| past := past h; present := edit (present h); future := future h |}.
Proof. reflexivity. Qed.

Lemma last_drop1_snoc {A} (l : list A) (x : A) :
  (1 < length (l ++ [x]))%nat → last (drop 1 (l ++ [x])) = Some x.
Proof.
  destruct l as [|a l]; simpl; [lia|]. intros _. rewrite drop_0. apply last_snoc.
Qed.


(** The snapshot on top of [past] after a recorded update is the prior
    present. *)
Lemma recorded_top h edit :
  sameJSON (edit (present h)) (present h) = false →
  last (past (setChapters edit true h)) = Some (present h).
Proof.
  intros Hne. rewrite setChapters_recorded by done. simpl.
  destruct (50 <? length (past h ++ [present h]))%nat eqn:E.
  - apply Nat.ltb_lt in E. apply last_drop1_snoc. lia.
  - apply last_snoc.
Qed.

Lemma undo_after_recorded h edit :
  sameJSON (edit (present h)) (present h) = false →
  handleUndo (setChapters edit true h) =
    {| past := take (length (past (setChapters edit true h)) - 1)
                    (past (setChapters edit true h));
       present := present h;
       future := [edit (present h)] |}.
Proof.
  intros Hne. unfold handleUndo. rewrite recorded_top by done.
  now rewrite setChapters_recorded by done.
Qed.


Lemma withinDepth_setChapters h edit recordHistory :
  withinDepth h → withinDepth (setChapters edit recordHistory h).
Proof.
  unfold withinDepth, setChapters. intros Hb.
  destruct recordHistory; simpl; [|exact Hb].
  destruct (sameJSON _ _); [exact Hb|]. simpl.
  destruct (50 <? length (past h ++ [present h]))%nat eqn:E.
  - rewrite length_drop, length_app. simpl. lia.
  - apply Nat.ltb_ge in E. lia.
Qed.

Lemma withinDepth_undo h : withinDepth h → withinDepth (handleUndo h).
Proof.
  unfold withinDepth, handleUndo. intros Hb.
  destruct (last (past h)) eqn:E; [|exact Hb]. simpl.
  rewrite length_take.
  destruct (past h); [discriminate|]. simpl in *. lia.
Qed.

Lemma withinDepth_redo h : withinDepth h → withinDepth (handleRedo h).
Proof.
  unfold withinDepth, handleRedo. intros Hb.
  destruct (future h) eqn:E; [now rewrite E|]. simpl in *.
  rewrite length_app. simpl. lia.
Qed.

Lemma withinDepth_run actions h :
  withinDepth h → withinDepth (runActions actions h).
Proof.
  revert h. induction actions as [|a actions IH]; intros h Hb; [exact Hb|].
  simpl. apply IH. destruct a; simpl.
  - now apply withinDepth_setChapters.
  - now apply withinDepth_undo.
  - now apply withinDepth_redo.
  - unfold withinDepth. simpl. lia.
Qed.


(** C10.  From the empty history, whatever updates, undos, redos and resets
    happen, [past] never holds more than 50 snapshots; a recorded edit keeps
    the 50 most recent of the old snapshots and the prior present, and when 50
    are already stored it drops exactly the oldest one. *)
Theorem past_at_most_50 (actions : list HistoryAction) edit :
  let h := runActions actions initialHistory in
  (length (past h) ≤ 50)%nat
  ∧ (sameJSON (edit (present h)) (present h) = false →
     past (setChapters edit true h)
       = drop (length (past h ++ [present h]) - 50) (past h ++ [present h])
     ∧ (length (past h) = 50%nat →
        past (setChapters edit true h) = drop 1 (past h) ++ [present h]
        ∧ length (past (setChapters edit true h)) = 50%nat)).
Proof.
  intros h.
  assert (Hb : withinDepth h).
  { apply withinDepth_run. unfold withinDepth. simpl. lia. }
  assert (Hlen : (length (past h) ≤ 50)%nat) by (unfold withinDepth in Hb; lia).
  split; [exact Hlen|]. intros Hne.
  rewrite setChapters_recorded by exact Hne. simpl.
  rewrite length_app. simpl. split.
  - destruct (50 <? length (past h) + 1)%nat eqn:E.
    + apply Nat.ltb_lt in E. now replace (length (past h) + 1 - 50)%nat with 1%nat by lia.
    + apply Nat.ltb_ge in E.
      now replace (length (past h) + 1 - 50)%nat with 0%nat by lia.
  - intros H50. rewrite H50. simpl.
    rewrite drop_app_le by lia. split; [reflexivity|].
    rewrite length_app, length_drop. simpl. lia.
Qed.

End HistoryFacts.



(** Fifty snapshots are stored after fifty recorded edits; the next one
    drops the oldest. *)
Lemma past_at_most_50_witness :
  let h := runActions fiftyEdits initialHistory in
  length (past h) = 50%nat
  ∧ past (setChapters fiftyFirstEdit true h) = drop 1 (past h) ++ [present h]
  ∧ length (past (setChapters fiftyFirstEdit true h)) = 50%nat.
Proof.
  destruct (past_at_most_50 fiftyEdits fiftyFirstEdit) as [_ H].
  destruct H as [_ H]; [vm_compute; reflexivity|].
  destruct H as [H1 H2]; [vm_compute; reflexivity|].
  split; [vm_compute; reflexivity|]. split; assumption.
Defined.

(** ** Panel indices *)

Section Indices.

Implicit Types (ps : list Panel) (chapters : list Chapter).

Lemma contiguous_reindex ps : contiguous (reindex ps).
Proof.
  unfold contiguous, reindex.
  change (map index (imap with_index ps)) with (index <$> imap with_index ps).
  rewrite fmap_imap, length_imap.
  rewrite (imap_ext _ (λ j _, j)) by done.
  rewrite imap_seq_0. apply list_fmap_id.
Qed.

Lemma length_reindex ps : length (reindex ps) = length ps.
Proof. apply length_imap. Qed.

Lemma coordinates_reindex ps : map coordinates (reindex ps) = map coordinates ps.
Proof.
  unfold reindex.
  change (map coordinates (imap with_index ps)) with (coordinates <$> imap with_index ps).
  rewrite fmap_imap. rewrite (imap_ext _ (λ _ p, coordinates p)) by done.
  apply imap_const.
Qed.

Lemma panel_id_reindex ps : map panel_id (reindex ps) = map panel_id ps.
Proof.
  unfold reindex.
  change (map panel_id (imap with_index ps)) with (panel_id <$> imap with_index ps).
  rewrite fmap_imap. rewrite (imap_ext _ (λ _ p, panel_id p)) by done.
  apply imap_const.
Qed.

Lemma recap_texts_reindex ps : map recap_texts (reindex ps) = map recap_texts ps.
Proof.
  unfold reindex.
  change (map recap_texts (imap with_index ps)) with (recap_texts <$> imap with_index ps).
  rewrite fmap_imap. rewrite (imap_ext _ (λ _ p, recap_texts p)) by done.
  apply imap_const.
Qed.

(** A handler that maps over the chapters keeps [pages_indexed] when it
    keeps it on the pages of each chapter. *)
Lemma pages_indexed_map (f : Chapter → Chapter) chapters :
  (∀ c, Forall (λ p, contiguous (panels p)) (stitchedPages c) →
        Forall (λ p, contiguous (panels p)) (stitchedPages (f c))) →
  pages_indexed chapters → pages_indexed (map f chapters).
Proof.
  intros Hf H. unfold pages_indexed in *. apply Forall_fmap.
  eapply Forall_impl; [exact H|]. intros c Hc. simpl. now apply Hf.
Qed.

Lemma Forall_contiguous_map (g : StitchedPageAnalysis → StitchedPageAnalysis)
    (pgs : list StitchedPageAnalysis) :
  (∀ p, contiguous (panels p) → contiguous (panels (g p))) →
  Forall (λ p, contiguous (panels p)) pgs →
  Forall (λ p, contiguous (panels p)) (map g pgs).
Proof.
  intros Hg H. apply Forall_fmap. eapply Forall_impl; [exact H|].
  intros p Hp. simpl. now apply Hg.
Qed.

Lemma pages_indexed_delete chapters chapterId pageId panelId :
  pages_indexed chapters →
  pages_indexed (handleDeletePanel chapterId pageId panelId chapters).
Proof.
  apply pages_indexed_map. intros c Hc. case_decide; [exact Hc|]. simpl.
  apply Forall_contiguous_map; [|exact Hc].
  intros p Hp. case_decide; [exact Hp|]. simpl. apply contiguous_reindex.
Qed.

Lemma pages_indexed_duplicate chapters chapterId pageId panelId now :
  pages_indexed chapters →
  pages_indexed (handleDuplicatePanel chapterId pageId panelId now chapters).
Proof.
  apply pages_indexed_map. intros c Hc. case_decide; [exact Hc|]. simpl.
  apply Forall_contiguous_map; [|exact Hc].
  intros p Hp. case_decide; [exact Hp|].
  destruct (list_find _ (panels p)) as [[i q]|]; [|exact Hp].
  simpl. apply contiguous_reindex.
Qed.

Lemma contiguous_mergePanels panelId ps :
  contiguous ps → contiguous (mergePanels panelId ps).
Proof.
  intros Hp. unfold mergePanels.
  destruct (list_find _ ps) as [[i q]|]; [|exact Hp].
  destruct (ps !! S i); [|exact Hp]. apply contiguous_reindex.
Qed.

Lemma pages_indexed_merge chapters chapterId pageId panelId :
  pages_indexed chapters →
  pages_indexed (mergeWithNext chapterId pageId panelId chapters).
Proof.
  apply pages_indexed_map. intros c Hc. case_decide; [exact Hc|]. simpl.
  apply Forall_contiguous_map; [|exact Hc].
  intros p Hp. case_decide; [exact Hp|]. simpl. now apply contiguous_mergePanels.
Qed.

Lemma pages_indexed_split chapters pageId panelId s now_a now_b :
  pages_indexed chapters →
  pages_indexed (handleSplitPanel pageId panelId s now_a now_b chapters).
Proof.
  intros H. unfold handleSplitPanel.
  destruct (list_find _ chapters) as [[ci c]|] eqn:Ec; [|exact H].
  destruct (list_find _ (stitchedPages c)) as [[pi p]|] eqn:Ep; [|exact H].
  destruct (list_find _ (panels p)) as [[ki k]|] eqn:Ek; [|exact H].
  destruct (_ || _); [exact H|].
  apply list_find_Some in Ec as (Hc & _ & _).
  unfold pages_indexed in *. apply Forall_insert; [exact H|]. simpl.
  apply Forall_insert.
  - eapply Forall_lookup_1 in H; [|exact Hc]. exact H.
  - simpl. apply contiguous_reindex.
Qed.

Lemma contiguous_detection sid detected : contiguous (panelsOfDetection sid detected).
Proof.
  unfold contiguous, panelsOfDetection.
  match goal with |- map index (imap ?f _) = _ =>
    change (map index (imap f detected)) with (index <$> imap f detected) end.
  rewrite fmap_imap, length_imap.
  rewrite (imap_ext _ (λ j _, j)) by done.
  rewrite imap_seq_0. apply list_fmap_id.
Qed.

(** C3.  Deleting, splitting or duplicating a panel, and merging a panel with
    the next one, each leave every page of the store with panel indices
    0, 1, ..., n-1 in list order; the page that was edited gets them whatever
    its indices were before; the panels stored after detection are numbered
    the same way. *)
Theorem indices_stay_contiguous chapters chapterId pageId panelId s now_a now_b now :
  pages_indexed chapters →
  pages_indexed (handleDeletePanel chapterId pageId panelId chapters)
  ∧ pages_indexed (handleSplitPanel pageId panelId s now_a now_b chapters)
  ∧ pages_indexed (handleDuplicatePanel chapterId pageId panelId now chapters)
  ∧ pages_indexed (mergeWithNext chapterId pageId panelId chapters)
  ∧ (∀ ps, contiguous (reindex ps))
  ∧ (∀ detected, contiguous (panelsOfDetection pageId detected)).
Proof.
  intros H. split_and!.
  - now apply pages_indexed_delete.
  - now apply pages_indexed_split.
  - now apply pages_indexed_duplicate.
  - now apply pages_indexed_merge.
  - apply contiguous_reindex.
  - intros detected. apply contiguous_detection.
Qed.

End Indices.

Lemma indices_stay_contiguous_witness :
  pages_indexed (handleDeletePanel "ch-1" "page-1" "p-a" twoPanelState)
  ∧ pages_indexed (handleSplitPanel "page-1" "p-a" (1 # 4) 1 2 twoPanelState)
  ∧ pages_indexed (handleDuplicatePanel "ch-1" "page-1" "p-a" 3 twoPanelState)
  ∧ pages_indexed (mergeWithNext "ch-1" "page-1" "p-a" twoPanelState).
Proof.
  assert (H0 : pages_indexed twoPanelState) by (repeat constructor).
  destruct (indices_stay_contiguous twoPanelState "ch-1" "page-1" "p-a" (1 # 4) 1 2 3 H0)
    as (H1 & H2 & H3 & H4 & _).
  split; [exact H1|]. split; [exact H2|]. split; [exact H3 | exact H4].
Defined.

(** The indices seen after each edit of the two-panel page. *)
Example indices_after_edits :
  map (λ p, map index (panels p)) (concat (map stitchedPages
        (handleDeletePanel "ch-1" "page-1" "p-a" twoPanelState))) = [[0]]
  ∧ map (λ p, map index (panels p)) (concat (map stitchedPages
        (handleSplitPanel "page-1" "p-a" (1 # 4) 1 2 twoPanelState))) = [[0; 1; 2]]
  ∧ map (λ p, map index (panels p)) (concat (map stitchedPages
        (handleDuplicatePanel "ch-1" "page-1" "p-a" 3 twoPanelState))) = [[0; 1; 2]]
  ∧ map (λ p, map index (panels p)) (concat (map stitchedPages
        (mergeWithNext "ch-1" "page-1" "p-a" twoPanelState))) = [[0]].
Proof. repeat split; vm_compute; reflexivity. Qed.

(** ** Splitting a panel *)

Section Split.

Local Open Scope Q_scope.





(** When the page or the panel is not there, the split changes nothing. *)
Lemma handleSplitPanel_not_found chapters pageId panelId s now_a now_b :
  (findPage pageId chapters = None
   ∨ ∃ page, findPage pageId chapters = Some page
             ∧ list_find (λ p, panel_id p = panelId) (panels page) = None) →
  handleSplitPanel pageId panelId s now_a now_b chapters = chapters.
Proof.
  unfold findPage, handleSplitPanel. intros [H | (page & H & Hk)].
  - destruct (list_find _ chapters) as [[ci c]|]; [|reflexivity].
    destruct (list_find _ (stitchedPages c)) as [[pi p]|]; [discriminate|reflexivity].
  - destruct (list_find _ chapters) as [[ci c]|]; [|reflexivity].
    destruct (list_find _ (stitchedPages c)) as [[pi p]|]; [|reflexivity].
    injection H as ->. now rewrite Hk.
Qed.


End Split.


(** ** The panel rectangle under the editing operations *)

Section Geometry.

Local Open Scope Q_scope.
Import InteractiveMangaView.

Lemma clamp01 (v : Q) : 0 <= Qmax 0 (Qmin 1 v) ∧ Qmax 0 (Qmin 1 v) <= 1.
Proof.
  destruct (Q.max_spec 0 (Qmin 1 v)) as [[H1 H2] | [H1 H2]];
  destruct (Q.min_spec 1 v) as [[H3 H4] | [H3 H4]]; split; lra.
Qed.



(** Moving: the clamp keeps a rectangle that fits the page inside it. *)
Lemma move_keeps_invariant oc sx sy currentX currentY :
  PanelInvariant oc → PanelInvariant (moveCoords oc sx sy currentX currentY).
Proof.
  unfold PanelInvariant, moveCoords. simpl.
  intros (Hx & Hy & Hxw & Hyh & Hw & Hh).
  set (x0 := cx oc + (currentX - sx)). set (y0 := cy oc + (currentY - sy)).
  destruct (Q.max_spec 0 (Qmin (1 - cw oc) x0)) as [[A1 A2] | [A1 A2]];
  destruct (Q.min_spec (1 - cw oc) x0) as [[A3 A4] | [A3 A4]];
  destruct (Q.max_spec 0 (Qmin (1 - ch oc) y0)) as [[B1 B2] | [B1 B2]];
  destruct (Q.min_spec (1 - ch oc) y0) as [[B3 B4] | [B3 B4]];
  repeat split; lra.
Qed.


(** Splitting strictly inside the panel gives two rectangles that fit. *)
Lemma split_keeps_invariant c s :
  PanelInvariant c → cy c < s → s < cy c + ch c →
  PanelInvariant (Coords (cx c) (cy c) (cw c) (s - cy c))
  ∧ PanelInvariant (Coords (cx c) s (cw c) ((cy c + ch c) - s)).
Proof.
  unfold PanelInvariant. simpl. intros (Hx & Hy & Hxw & Hyh & Hw & Hh) Hlo Hhi.
  repeat split; lra.
Qed.

(** Cropping an edge: accepted or rejected, the rectangle fits the page. *)
Lemma crop_keeps_invariant cropY direction panel :
  PanelInvariant (coordinates panel) →
  PanelInvariant (coordinates (cropPanel (Qmax 0 (Qmin 1 cropY)) direction panel)).
Proof.
  intros Hinv. destruct (clamp01 cropY) as [H0 H1].
  set (c := Qmax 0 (Qmin 1 cropY)) in *.
  unfold cropPanel. destruct direction.
  - destruct (Qltb (5 # 1000) _) eqn:E; [|exact Hinv].
    apply Qltb_lt in E. unfold PanelInvariant in *. simpl.
    destruct Hinv as (Hx & Hy & Hxw & Hyh & Hw & Hh). repeat split; lra.
  - destruct (Qltb (5 # 1000) _) eqn:E; [|exact Hinv].
    apply Qltb_lt in E. unfold PanelInvariant in *. simpl.
    destruct Hinv as (Hx & Hy & Hxw & Hyh & Hw & Hh). repeat split; lra.
Qed.

(** Duplicating copies the rectangle. *)
Lemma duplicate_keeps_coordinates panel new_id :
  coordinates (duplicateOf panel new_id) = coordinates panel.
Proof. reflexivity. Qed.

End Geometry.

(** C1 fails on the resize path, which has no clamp and flips only a strictly
    negative size.  In a 1024-pixel container, the panel (1/4, 1/4, 1/4, 1/4)
    grabbed by its right handle on its right edge (pixel 512) and dragged onto
    its left edge (pixel 256) gets width 0; the panel (1/2, 1/4, 1/2, 1/2)
    grabbed by its right handle 4 pixels inside its edge (pixel 1020) and
    dragged past the right border of the container gets x + w = 1 + 1/256. *)
Theorem resize_breaks_invariant :
  (PanelInvariant smallRect
   ∧ ∃ c, InteractiveMangaView.handleMouseMove
            (grabRightHandle smallRect 512 384) pageRect (pointerAt 256 384)
          = Some ("p", c)
          ∧ (cx c == 1 # 4)%Q ∧ (cw c == 0)%Q ∧ ¬ PanelInvariant c)
  ∧ (PanelInvariant wideRect
     ∧ ∃ c, InteractiveMangaView.handleMouseMove
              (grabRightHandle wideRect 1020 512) pageRect (pointerAt 1100 512)
            = Some ("p", c)
            ∧ (cx c == 1 # 2)%Q ∧ (cw c == (1 # 2) + (1 # 256))%Q
            ∧ ¬ PanelInvariant c).
Proof.
  split; (split; [unfold PanelInvariant; simpl; repeat split; reflexivity || discriminate|]).
  - eexists. split; [vm_compute; reflexivity|]. split; [reflexivity|].
    split; [reflexivity|].
    unfold PanelInvariant. intros (_ & _ & _ & _ & Hw & _).
    revert Hw. vm_compute. discriminate.
  - eexists. split; [vm_compute; reflexivity|]. split; [reflexivity|].
    split; [reflexivity|].
    unfold PanelInvariant. intros (_ & _ & Hxw & _).
    revert Hxw. vm_compute. intros H. apply H. reflexivity.
Qed.

(** ** Panel detection *)

Section Detection.

Import PanelDetectorService.






(** A page that fails to decode rejects instead. *)
Lemma detectPanels_undecoded now :
  detectPanels None now = inl "Failed to load image for panel detection.".
Proof. reflexivity. Qed.

End Detection.

(** Detection on three small pages: uniform gray gives the whole page as one
    scanned panel, a white band gives the part above it and the part from it
    on, and an image without rows gives the fallback panel. *)
Example detectPanels_samples :
  (PanelDetectorService.d_coordinates <$>
     default [] (match PanelDetectorService.detectPanels (Some uniformGrayCanvas) 5 with
                 | inr ps => Some ps | inl _ => None end))
    = [Coords 0 (0 / 40) 1 ((40 - 0) / 40)]
  ∧ (PanelDetectorService.d_coordinates <$>
       default [] (match PanelDetectorService.detectPanels (Some gutterCanvas) 5 with
                   | inr ps => Some ps | inl _ => None end))
    = [Coords 0 (0 / 40) 1 ((15 - 0) / 40); Coords 0 (15 / 40) 1 ((40 - 15) / 40)]
  ∧ PanelDetectorService.detectPanels (Some emptyCanvas) 5
    = inr [PanelDetectorService.fallbackPanel].
Proof. split_and!; vm_compute; reflexivity. Qed.

(** ** Retry and fallback *)

Section RetryFallback.

Context {R : Type} (oracle : Oracle R) (request : Request).

Lemma record_status_quiet (message : string) : quiet (record (EvStatus message)).
Proof.
  intros s. unfold record, modelsCalled, sleeps. simpl.
  rewrite !omap_app. simpl. now rewrite !app_nil_r.
Qed.

Lemma record_sleep (ms : nat) (s : Session) :
  calls (record (EvSleep ms) s) = calls s
  ∧ modelsCalled (record (EvSleep ms) s) = modelsCalled s
  ∧ sleeps (record (EvSleep ms) s) = sleeps s ++ [ms].
Proof.
  unfold record, modelsCalled, sleeps. simpl.
  rewrite !omap_app. simpl. now rewrite !app_nil_r.
Qed.

Lemma call_session (model : string) (s : Session) :
  let s1 := {| calls := S (calls s); log := log s ++ [EvCall model request] |} in
  calls s1 = S (calls s)
  ∧ modelsCalled s1 = modelsCalled s ++ [model]
  ∧ sleeps s1 = sleeps s.
Proof.
  unfold modelsCalled, sleeps. simpl.
  rewrite !omap_app. simpl. now rewrite !app_nil_r.
Qed.

Lemma generateContent_eq (model : string) (s : Session) :
  generateContent oracle model request s =
    ({| calls := S (calls s); log := log s ++ [EvCall model request] |},
     match oracle (calls s) model request with
     | ApiFail message => inl message
     | ApiRespond response => inr response
     end).
Proof. unfold generateContent. now destruct (oracle (calls s) model request). Qed.

(** The retry loop against one model: it stops at the first attempt that is
    answered, makes at most the remaining attempts, and sleeps
    [delayMs * 2^i] after each failed attempt [i] but the last. *)
Lemma retryLoop_spec (model : string) (onRetry : nat → string → Session → Session)
    (retries delayMs : nat) :
  (∀ attempt message, quiet (onRetry attempt message)) →
  ∀ remaining i lastError s,
    (i + remaining = retries)%nat →
    let run := retryLoop (generateContent oracle model request) onRetry retries delayMs
                 remaining i lastError s in
    match firstResponse oracle request (calls s) (replicate remaining model) with
    | Some (j, r) =>
        run.2 = inr r
        ∧ calls run.1 = (calls s + S j)%nat
        ∧ modelsCalled run.1 = modelsCalled s ++ replicate (S j) model
        ∧ sleeps run.1 = sleeps s ++ map (λ k, delayMs * 2 ^ k) (seq i j)
    | None =>
        (∃ message, run.2 = inl message)
        ∧ calls run.1 = (calls s + remaining)%nat
        ∧ modelsCalled run.1 = modelsCalled s ++ replicate remaining model
        ∧ sleeps run.1 = sleeps s ++ map (λ k, delayMs * 2 ^ k) (seq i (remaining - 1))
    end.
Proof.
  intros Hquiet. induction remaining as [|rem IH]; intros i lastError s Hsum.
  - simpl. split_and!; [eauto | lia | now rewrite app_nil_r | now rewrite app_nil_r].
  - cbn [retryLoop replicate firstResponse]. rewrite generateContent_eq.
    destruct (call_session model s) as (Hc & Hm & Hs).
    set (s1 := {| calls := S (calls s); log := log s ++ [EvCall model request] |}) in *.
    destruct (oracle (calls s) model request) as [message | response] eqn:Eo.
    + set (s2 := if (i <? retries - 1)%nat
                 then record (EvSleep (delayMs * 2 ^ i)) (onRetry (S i) message s1)
                 else s1).
      assert (H2 : calls s2 = S (calls s)
                   ∧ modelsCalled s2 = modelsCalled s ++ [model]
                   ∧ sleeps s2 = sleeps s
                        ++ (if (i <? retries - 1)%nat then [delayMs * 2 ^ i] else [])).
      { unfold s2. destruct (i <? retries - 1)%nat.
        - destruct (record_sleep (delayMs * 2 ^ i) (onRetry (S i) message s1))
            as (A & B & C).
          destruct (Hquiet (S i) message s1) as (A' & B' & C').
          rewrite A, B, C, A', B', C'. split_and!; congruence.
        - rewrite app_nil_r. split_and!; assumption. }
      destruct H2 as (Hc2 & Hm2 & Hs2).
      specialize (IH (S i) (Some message) s2 ltac:(lia)). cbv zeta in IH.
      rewrite Hc2 in IH.
      destruct (firstResponse oracle request (S (calls s)) (replicate rem model))
        as [[j r]|] eqn:Ef; cbn [fmap option_fmap option_map fst snd].
      * destruct IH as (I1 & I2 & I3 & I4). split_and!.
        -- exact I1.
        -- rewrite I2. lia.
        -- rewrite I3, Hm2, <- app_assoc. reflexivity.
        -- rewrite I4, Hs2.
           assert (Hrem : (0 < rem)%nat).
           { destruct rem; [discriminate|lia]. }
           replace (i <? retries - 1)%nat with true
             by (symmetry; apply Nat.ltb_lt; lia).
           now rewrite <- app_assoc.
      * destruct IH as (I1 & I2 & I3 & I4). split_and!.
        -- exact I1.
        -- rewrite I2. lia.
        -- rewrite I3, Hm2, <- app_assoc. reflexivity.
        -- rewrite I4, Hs2. rewrite <- app_assoc. f_equal.
           destruct rem as [|rem'].
           ++ replace (i <? retries - 1)%nat with false
                by (symmetry; apply Nat.ltb_ge; lia).
              reflexivity.
           ++ replace (i <? retries - 1)%nat with true
                by (symmetry; apply Nat.ltb_lt; lia).
              simpl. now rewrite Nat.sub_0_r.
    + cbn [fst snd].
      split_and!; [reflexivity | rewrite Hc; lia | exact Hm | now rewrite app_nil_r].
Qed.

Lemma firstResponse_bound (k : nat) (sched : list string) (j : nat) (r : R) :
  firstResponse oracle request k sched = Some (j, r) → (j < length sched)%nat.
Proof.
  revert k j. induction sched as [|m rest IH]; intros k j; simpl; [discriminate|].
  destruct (oracle k m request).
  - destruct (firstResponse oracle request (S k) rest) as [[j' r']|] eqn:E;
      simpl; [|discriminate].
    intros [= <- <-]. apply IH in E. lia.
  - intros [= <- <-]. lia.
Qed.

Lemma firstResponse_app (k : nat) (a b : list string) :
  firstResponse oracle request k (a ++ b) =
    match firstResponse oracle request k a with
    | Some jr => Some jr
    | None => (λ jr : nat * R, ((length a + jr.1)%nat, jr.2))
                <$> firstResponse oracle request (k + length a) b
    end.
Proof.
  revert k. induction a as [|m a IH]; intros k; simpl.
  - rewrite Nat.add_0_r. destruct (firstResponse oracle request k b) as [[j r]|]; reflexivity.
  - destruct (oracle k m request); [|reflexivity].
    rewrite IH. replace (S k + length a)%nat with (k + S (length a))%nat by lia.
    destruct (firstResponse oracle request (S k) a) as [[j r]|]; [reflexivity|].
    destruct (firstResponse oracle request (k + S (length a)) b) as [[j r]|]; reflexivity.
Qed.

Lemma schedule_cons (model : string) (rest : list string) (retries : nat) :
  schedule (model :: rest) retries = replicate retries model ++ schedule rest retries.
Proof. reflexivity. Qed.

Lemma schedule_length (models : list string) (retries : nat) :
  length (schedule models retries) = (length models * retries)%nat.
Proof.
  induction models as [|m rest IH]; [reflexivity|].
  rewrite schedule_cons, length_app, length_replicate, IH. simpl. lia.
Qed.

(** The loop over the fallback list: the attempts follow the schedule, stop
    at the first one that is answered, and the call fails for good only
    after the whole schedule has failed. *)
Lemma fallbackLoop_spec (allModels : list string) (retriesPerModel : nat) :
  ∀ models lastError s,
    let run := fallbackLoop (λ model, generateContent oracle model request) allModels
                 retriesPerModel models lastError s in
    match firstResponse oracle request (calls s) (schedule models retriesPerModel) with
    | Some (j, r) =>
        run.2 = inr r
        ∧ calls run.1 = (calls s + S j)%nat
        ∧ modelsCalled run.1
          = modelsCalled s ++ take (S j) (schedule models retriesPerModel)
        ∧ sleeps run.1
          = sleeps s
            ++ concat (replicate (j / retriesPerModel) (backoff 1500 retriesPerModel))
            ++ map (λ k, 1500 * 2 ^ k) (seq 0 (j mod retriesPerModel))
    | None =>
        (∃ message, run.2 = inl message)
        ∧ calls run.1 = (calls s + length (schedule models retriesPerModel))%nat
        ∧ modelsCalled run.1 = modelsCalled s ++ schedule models retriesPerModel
        ∧ sleeps run.1
          = sleeps s ++ concat (replicate (length models) (backoff 1500 retriesPerModel))
    end.
Proof.
  induction models as [|model rest IH]; intros lastError s.
  - simpl. split_and!; [eauto | lia | now rewrite app_nil_r | now rewrite app_nil_r].
  - cbn [fallbackLoop]. unfold withRetries.
    set (s0 := record (EvStatus _) s).
    destruct (record_status_quiet ("Attempting with model: " +:+ model +:+ "...") s)
      as (Hc0 & Hm0 & Hs0). fold s0 in Hc0, Hm0, Hs0.
    match goal with |- context [retryLoop ?fn ?onR ?n ?d ?rem ?i ?le ?st] =>
      pose proof (retryLoop_spec model onR n d
                    (λ attempt message, record_status_quiet _) rem i le st eq_refl) as Hr
    end.
    cbv zeta in Hr. rewrite Hc0 in Hr.
    rewrite schedule_cons, firstResponse_app, length_replicate.
    destruct (firstResponse oracle request (calls s) (replicate retriesPerModel model))
      as [[j r]|] eqn:Ef.
    + destruct Hr as (H1 & H2 & H3 & H4).
      apply firstResponse_bound in Ef. rewrite length_replicate in Ef.
      match goal with |- context [retryLoop ?fn ?onR ?n ?d ?rem ?i ?le ?st] =>
        destruct (retryLoop fn onR n d rem i le st) as [s1 res] end.
      cbn [fst snd] in H1, H2, H3, H4. subst res. cbn [fst snd].
      split_and!.
      * reflexivity.
      * exact H2.
      * rewrite H3, Hm0. f_equal.
        rewrite take_app_le by (rewrite length_replicate; lia).
        rewrite take_replicate. f_equal. lia.
      * rewrite H4, Hs0. f_equal.
        rewrite Nat.div_small by lia. rewrite Nat.mod_small by lia. reflexivity.
    + destruct Hr as ((message & H1) & H2 & H3 & H4).
      match goal with |- context [retryLoop ?fn ?onR ?n ?d ?rem ?i ?le ?st] =>
        destruct (retryLoop fn onR n d rem i le st) as [s1 res] end.
      cbn [fst snd] in H1, H2, H3, H4. subst res. cbn iota beta.
      set (s2 := record (EvStatus _) s1).
      match goal with s2 := record (EvStatus ?msg) s1 |- _ =>
        destruct (record_status_quiet msg s1) as (Hc2 & Hm2 & Hs2) end.
      fold s2 in Hc2, Hm2, Hs2.
      specialize (IH (Some message) s2). cbv zeta in IH.
      rewrite Hc2, H2 in IH.
      destruct (firstResponse oracle request (calls s + retriesPerModel)
                  (schedule rest retriesPerModel)) as [[j r]|] eqn:Ef2;
        cbn [fmap option_fmap option_map fst snd].
      * destruct IH as (I1 & I2 & I3 & I4).
        apply firstResponse_bound in Ef2. rewrite schedule_length in Ef2.
        assert (Hpos : retriesPerModel ≠ 0%nat) by (intros ->; lia).
        split_and!.
        -- exact I1.
        -- rewrite I2. lia.
        -- rewrite I3, Hm2, H3, Hm0, <- app_assoc. f_equal.
           replace (S (retriesPerModel + j))
             with (length (replicate retriesPerModel model) + S j)%nat
             by (rewrite length_replicate; lia).
           now rewrite take_app_add.
        -- rewrite I4, Hs2, H4, Hs0, <- app_assoc. f_equal.
           replace ((retriesPerModel + j) / retriesPerModel)%nat
             with (S (j / retriesPerModel)).
           2:{ replace (retriesPerModel + j)%nat with (1 * retriesPerModel + j)%nat by lia.
               rewrite Nat.div_add_l by exact Hpos. lia. }
           replace ((retriesPerModel + j) mod retriesPerModel)%nat
             with (j mod retriesPerModel)%nat.
           2:{ replace (retriesPerModel + j)%nat with (j + 1 * retriesPerModel)%nat by lia.
               now rewrite Nat.Div0.mod_add. }
           cbn [replicate concat]. now rewrite <- app_assoc.
      * destruct IH as (I1 & I2 & I3 & I4). split_and!.
        -- exact I1.
        -- rewrite I2, length_app, length_replicate. lia.
        -- rewrite I3, Hm2, H3, Hm0, <- app_assoc. reflexivity.
        -- rewrite I4, Hs2, H4, Hs0, <- app_assoc. reflexivity.
Qed.

(** The two-level policy of [withRetriesAndFallbacks]: attempts follow the
    schedule (each model in list order, [retriesPerModel] times in a row),
    with [1500 * 2^i] ms slept after failed attempt [i] on a model except its
    last; the first answered attempt is the result, and the call fails only
    when every attempt of the schedule has failed. *)
Lemma withRetriesAndFallbacks_spec (models : list string) (retriesPerModel : nat)
    (s : Session) :
  let run := withRetriesAndFallbacks (λ model, generateContent oracle model request)
               models retriesPerModel s in
  match firstResponse oracle request (calls s) (schedule models retriesPerModel) with
  | Some (j, r) =>
      run.2 = inr r
      ∧ calls run.1 = (calls s + S j)%nat
      ∧ modelsCalled run.1
        = modelsCalled s ++ take (S j) (schedule models retriesPerModel)
      ∧ sleeps run.1
        = sleeps s
          ++ concat (replicate (j / retriesPerModel) (backoff 1500 retriesPerModel))
          ++ map (λ k, 1500 * 2 ^ k) (seq 0 (j mod retriesPerModel))
  | None =>
      (∃ message, run.2 = inl message)
      ∧ calls run.1 = (calls s + length (schedule models retriesPerModel))%nat
      ∧ modelsCalled run.1 = modelsCalled s ++ schedule models retriesPerModel
      ∧ sleeps run.1
        = sleeps s ++ concat (replicate (length models) (backoff 1500 retriesPerModel))
  end.
Proof. apply fallbackLoop_spec. Qed.


End RetryFallback.

(** ** The narrative batch contract *)

Section BatchContract.

Import GeminiService.

Lemma elem_of_setOrder (seen ids : list string) (x : string) :
  x ∈ setOrder seen ids ↔ x ∈ ids ∧ x ∉ seen.
Proof.
  revert seen. induction ids as [|y ids IH]; intros seen; simpl.
  - rewrite elem_of_nil. tauto.
  - case_decide as Hy.
    + rewrite IH, elem_of_cons. split; [tauto|].
      intros [[-> | H] Hn]; [contradiction | tauto].
    + rewrite elem_of_cons, IH, not_elem_of_cons, elem_of_cons.
      destruct (decide (x = y)) as [-> | Hne]; [|tauto].
      split; [intros _ | intros _; left]; auto.
Qed.

(** The missing ids are exactly the submitted ids that the response does
    not name. *)
Lemma elem_of_missingIds (panels : list Panel) (parsed : list StoryGenerationResult)
    (x : string) :
  x ∈ missingIds panels parsed
  ↔ x ∈ map panel_id panels ∧ x ∉ map story_panel_id parsed.
Proof.
  unfold missingIds. rewrite list_elem_of_filter, elem_of_setOrder.
  split; [tauto|]. intros [H1 H2]. split_and!; [exact H2 | exact H1 |].
  intros H. inversion H.
Qed.

(** C5, as amended.  When the model's answer omits a submitted panel id,
    [generateStoriesForPanels] rejects the whole batch with an error that
    names exactly the missing ids, and it resolves only when every submitted
    id is named.  The check runs after the retry and fallback wrapper has
    returned: the session is left as that wrapper left it, so a violation is
    surfaced at once, without another attempt or another model. *)
Theorem incomplete_response_rejected (oracle : Oracle ResponseText)
    (panels : list Panel) (previousPanelContext : option string)
    (targetLanguages : list string) (s : Session) :
  let request := {| req_parts := buildParts panels previousPanelContext targetLanguages |} in
  let called := withRetriesAndFallbacks (λ model, generateContent oracle model request)
                  ALL_TEXT_MODELS 2 s in
  let run := generateStoriesForPanels oracle true panels previousPanelContext
               targetLanguages s in
  (∀ parsed, called.2 = inr (JsonArray parsed) → missingIds panels parsed ≠ [] →
     run = (called.1,
            inl ("Error generating stories: AI response is incomplete. Missing stories for panel IDs: "
                 +:+ join ", " (missingIds panels parsed))))
  ∧ (∀ parsed x, x ∈ missingIds panels parsed
                 ↔ x ∈ map panel_id panels ∧ x ∉ map story_panel_id parsed)
  ∧ (∀ result, run.2 = inr result →
       ∀ p, p ∈ panels → panel_id p ∈ map story_panel_id result)
  ∧ run.1 = called.1.
Proof.
  intros request called run.
  assert (Hrun : run = match called with
                       | (s1, inl message) => (s1, inl ("Error generating stories: " +:+ message))
                       | (s1, inr response) =>
                           match response with
                           | NotJson syntaxError =>
                               (s1, inl ("Error generating stories: " +:+ syntaxError))
                           | JsonNotArray =>
                               (s1, inl ("Error generating stories: "
                                         +:+ "AI response was not a valid JSON array."))
                           | JsonArray parsed =>
                               if (0 <? length (missingIds panels parsed))%nat then
                                 (s1, inl ("Error generating stories: "
                                     +:+ ("AI response is incomplete. Missing stories for panel IDs: "
                                          +:+ join ", " (missingIds panels parsed))))
                               else (s1, inr parsed)
                           end
                       end) by reflexivity.
  clearbody run called. destruct called as [s1 [message | response]]; subst run.
  - split_and!; try done. intros parsed x. apply elem_of_missingIds.
  - split_and!.
    + intros parsed [= ->] Hne. cbn [fst snd].
      destruct (missingIds panels parsed) eqn:E; [contradiction|]. reflexivity.
    + intros parsed x. apply elem_of_missingIds.
    + destruct response as [e | | parsed]; cbn [snd]; try discriminate.
      destruct (missingIds panels parsed) as [|m ms] eqn:E; cbn [length Nat.ltb Nat.leb snd];
        [|discriminate].
      intros result [= <-] p Hp.
      destruct (decide (panel_id p ∈ map story_panel_id parsed)) as [Hin | Hout];
        [exact Hin|].
      assert (Hm : panel_id p ∈ missingIds panels parsed).
      { apply elem_of_missingIds. split; [|exact Hout].
        change (panel_id p ∈ panel_id <$> panels). now apply list_elem_of_fmap_2. }
      rewrite E in Hm. inversion Hm.
    + destruct response as [e | | parsed]; try reflexivity.
      now destruct (0 <? length (missingIds panels parsed))%nat.
Qed.

End BatchContract.

(** Four stories for five panels: the batch is rejected, naming [p5]. *)
Lemma incomplete_response_rejected_witness :
  GeminiService.generateStoriesForPanels fourOfFiveOracle true fivePanels None ["en-US"]
    newSession
  = ((withRetriesAndFallbacks
        (λ model, generateContent fourOfFiveOracle model
                    {| req_parts := GeminiService.buildParts fivePanels None ["en-US"] |})
        GeminiService.ALL_TEXT_MODELS 2 newSession).1,
     inl ("Error generating stories: AI response is incomplete. Missing stories for panel IDs: "
          +:+ join ", " (GeminiService.missingIds fivePanels
                [storyFor "p1" "a"; storyFor "p2" "b"; storyFor "p3" "c"; storyFor "p4" "d"]))).
Proof.
  destruct (incomplete_response_rejected fourOfFiveOracle fivePanels None ["en-US"]
              newSession) as [H _].
  apply H.
  - vm_compute. reflexivity.
  - vm_compute. discriminate.
Defined.

(** C5 as stated fails in its last part: the violation is not treated like a
    transient failure.  With four stories returned for five panels the batch
    is rejected after a single call, with no retry, no back-off and no other
    model; a transient failure of the same batch is retried (two calls, one
    back-off of 1500 ms). *)
Lemma missing_id_not_retried :
  let rejected := GeminiService.generateStoriesForPanels fourOfFiveOracle true fivePanels
                    None ["en-US"] newSession in
  let transient := GeminiService.generateStoriesForPanels unavailableOracle true fivePanels
                     None ["en-US"] newSession in
  rejected.2 = inl "Error generating stories: AI response is incomplete. Missing stories for panel IDs: p5"
  ∧ modelsCalled rejected.1 = ["gemini-2.5-flash"]
  ∧ sleeps rejected.1 = []
  ∧ modelsCalled transient.1 = ["gemini-2.5-flash"; "gemini-2.5-flash"]
  ∧ sleeps transient.1 = [1500 * 2 ^ 0].
Proof. split_and!; vm_compute; reflexivity. Qed.

(** ** The recovery policy of the external-model calls *)

Section RecoveryPolicy.

Import GeminiService GeminiTtsService.

(** The session that [generateStoriesForPanels] leaves is the one its
    retry-and-fallback wrapper left. *)
Lemma generateStoriesForPanels_session (oracle : Oracle ResponseText)
    (panels : list Panel) (ctx : option string) (langs : list string) (s : Session) :
  (generateStoriesForPanels oracle true panels ctx langs s).1
  = (withRetriesAndFallbacks
       (λ model, generateContent oracle model {| req_parts := buildParts panels ctx langs |})
       ALL_TEXT_MODELS 2 s).1.
Proof.
  unfold generateStoriesForPanels. cbn [negb].
  destruct (withRetriesAndFallbacks _ _ _ _) as [s1 [message | response]]; [reflexivity|].
  destruct response as [e | | parsed]; try reflexivity.
  now destruct (0 <? length (missingIds panels parsed))%nat.
Qed.



End RecoveryPolicy.


(** ** Context threading between chapters *)

(** C6 fails on the code.  A global story batch over two chapters without
    earlier stories: the model's answer for chapter 1 ends with the text "X",
    and the store holds "X" for the last panel of chapter 1 once that call
    has completed; yet the request sent for chapter 2 carries the prompt of a
    batch without context and does not contain "X", because the loop reads
    the last panel's text from the state captured when the handler was
    created, not from the updated store.  A request built with "X" as
    context would contain it. *)
Theorem chapter_context_is_stale :
  let st := handleGenerateAllStories storyOracle true "en-US" ["en-US"]
              (freshApp twoChapters) in
  globalError st = None
  ∧ trailingContext (present (history st)) "ch-1" "en-US" None = Some "X"
  ∧ trailingContext twoChapters "ch-1" "en-US" None = None
  ∧ map promptOf (requestsSent (session st)) = [promptWithoutContext; promptWithoutContext]
  ∧ map (λ r, includes "X" (promptOf r)) (requestsSent (session st)) = [false; false]
  ∧ includes "X"
      (promptOf {| req_parts := GeminiService.buildParts
                                  [croppedPanel "c2-p1" 0] (Some "X") ["en-US"] |}) = true.
Proof. split_and!; vm_compute; reflexivity. Qed.

(** The context handed to the next chapter is always computed from the
    captured state: the live store does not enter it. *)
Lemma generateAllLoop_reads_captured_state (oracle : Oracle GeminiService.ResponseText)
    (chaptersHistory : History) (selectedLanguage : string) (langs : list string)
    (chapter : Chapter) (rest : list Chapter) (ctx : option string) (st st1 : AppState) :
  stopRequest st = false →
  handleGenerateStories oracle true (present chaptersHistory) langs (id chapter) ctx st
    = (st1, inr tt) →
  generateAllLoop oracle true chaptersHistory selectedLanguage langs (chapter :: rest) ctx st
  = generateAllLoop oracle true chaptersHistory selectedLanguage langs rest
      (trailingContext (present chaptersHistory) (id chapter) selectedLanguage ctx) st1.
Proof. intros Hstop Hgen. cbn [generateAllLoop]. now rewrite Hstop, Hgen. Qed.

(** ** Merge with Next *)

Section Merge.

Implicit Types (ps : list Panel).

(** The texts of the merged panel, language by language: both texts joined
    by a space where both panels have one, else the one there is. *)
Lemma mergeTexts_lookup (a b : option (gmap string string)) (lang : string) :
  default ∅ (mergeTexts a b) !! lang
  = union_with (λ s1 s2, Some (s1 +:+ " " +:+ s2))
      (default ∅ a !! lang) (default ∅ b !! lang).
Proof. unfold mergeTexts. simpl. apply lookup_union_with. Qed.

(** C8.  Merging panel [panelId] with its immediate successor leaves one
    panel fewer, numbered 0, 1, ..., n-2; the merged panel stands where the
    panel stood, with the panel's own rectangle and, in every language, its
    text followed by a space and the successor's text; the successor is gone
    and every other rectangle is as before. *)
Theorem merge_with_next_law ps (panelId : string) (i : nat) (a b : Panel) :
  list_find (λ p, panel_id p = panelId) ps = Some (i, a) →
  ps !! S i = Some b →
  let ps' := mergePanels panelId ps in
  S (length ps') = length ps
  ∧ contiguous ps'
  ∧ map coordinates ps'
    = take i (map coordinates ps) ++ [coordinates a] ++ drop (S (S i)) (map coordinates ps)
  ∧ map panel_id ps'
    = take i (map panel_id ps) ++ [panelId] ++ drop (S (S i)) (map panel_id ps)
  ∧ ∃ merged,
      ps' !! i = Some merged
      ∧ coordinates merged = coordinates a
      ∧ (∀ lang ta tb,
           default ∅ (recap_texts a) !! lang = Some ta →
           default ∅ (recap_texts b) !! lang = Some tb →
           default ∅ (recap_texts merged) !! lang = Some (ta +:+ " " +:+ tb))
      ∧ (∀ lang,
           default ∅ (recap_texts merged) !! lang
           = union_with (λ s1 s2, Some (s1 +:+ " " +:+ s2))
               (default ∅ (recap_texts a) !! lang) (default ∅ (recap_texts b) !! lang)).
Proof.
  intros Hfind Hsucc ps'. unfold ps', mergePanels. rewrite Hfind, Hsucc.
  apply list_find_Some in Hfind as (Ha & Hid & _).
  assert (Hlen : (S i < length ps)%nat) by (eapply lookup_lt_Some; exact Hsucc).
  set (merged := take i ps ++ [mergedPanel a b] ++ drop (S (S i)) ps).
  assert (Hi : length (take i ps) = i) by (rewrite length_take; lia).
  split_and!.
  - rewrite length_reindex. unfold merged.
    rewrite !length_app, Hi, length_drop. simpl. lia.
  - apply contiguous_reindex.
  - rewrite coordinates_reindex. unfold merged.
    change map with (@fmap list _) in *.
    now rewrite !fmap_app, fmap_take, fmap_drop.
  - rewrite panel_id_reindex. unfold merged.
    change map with (@fmap list _) in *.
    rewrite !fmap_app, fmap_take, fmap_drop. simpl. now rewrite Hid.
  - exists (with_index i (mergedPanel a b)). split_and!.
    + unfold reindex. rewrite list_lookup_imap. unfold merged.
      rewrite lookup_app_r by lia. rewrite Hi, Nat.sub_diag. reflexivity.
    + reflexivity.
    + intros lang ta tb Hta Htb. simpl. rewrite lookup_union_with.
      cbn in Hta, Htb. rewrite Hta, Htb. reflexivity.
    + intros lang. simpl. apply lookup_union_with.
Qed.

(** At the level of the store, the addressed page gets [mergePanels]. *)
Lemma mergeWithNext_page (chapterId pageId panelId : string) (c : Chapter)
    (p : StitchedPageAnalysis) :
  id c = chapterId → stitch_id p = pageId →
  mergeWithNext chapterId pageId panelId [with_stitchedPages [p] c]
  = [with_stitchedPages [with_panels (mergePanels panelId (panels p)) p] c].
Proof.
  intros Hc Hp. unfold mergeWithNext. simpl.
  destruct (decide (id c ≠ chapterId)); [contradiction|].
  destruct (decide (stitch_id p ≠ pageId)); [contradiction|]. reflexivity.
Qed.

End Merge.

(** The scenario of the specification: "Hello" merged with "world". *)
Lemma merge_with_next_law_witness :
  length (mergePanels "A" helloWorldPanels) = 1%nat
  ∧ map coordinates (mergePanels "A" helloWorldPanels) = [Coords 0 0 1 (1 # 2)]
  ∧ map panel_id (mergePanels "A" helloWorldPanels) = ["A"]
  ∧ map index (mergePanels "A" helloWorldPanels) = [0%nat]
  ∧ map recap_texts (mergePanels "A" helloWorldPanels) = [Some {[ "en" := "Hello world" ]}].
Proof.
  assert (Hfind : list_find (λ p, panel_id p = "A") helloWorldPanels
                  = Some (0%nat, withTexts {[ "en" := "Hello" ]}
                                   (samplePanel "A" 0 (Coords 0 0 1 (1 # 2)))))
    by (vm_compute; reflexivity).
  assert (Hsucc : helloWorldPanels !! 1%nat
                  = Some (withTexts {[ "en" := "world" ]}
                            (samplePanel "B" 1 (Coords 0 (1 # 2) 1 (1 # 2)))))
    by reflexivity.
  destruct (merge_with_next_law helloWorldPanels "A" 0 _ _ Hfind Hsucc)
    as (H1 & H2 & H3 & H4 & _).
  split; [exact (eq_add_S _ _ H1)|].
  split; [exact H3|]. split; [exact H4|].
  split; [exact H2|]. vm_compute. reflexivity.
Defined.

(** ** The in-place write of the split and the history *)

Section SharedPages.

Lemma Qeq_bool_refl (q : Q) : Qeq_bool q q = true.
Proof. apply Qeq_bool_iff. reflexivity. Qed.

Lemma option_eqb_refl {A} (eqb : A → A → bool) (o : option A) :
  (∀ x, eqb x x = true) → option_eqb eqb o o = true.
Proof. intros H. destruct o; simpl; auto. Qed.

Lemma list_eqb_refl {A} (eqb : A → A → bool) (l : list A) :
  (∀ x, eqb x x = true) → list_eqb eqb l l = true.
Proof. intros H. induction l as [|x l IH]; simpl; [reflexivity|]. now rewrite H, IH. Qed.

Lemma map_eqb_refl {V} (eqb : V → V → bool) (m : gmap string V) :
  (∀ x, eqb x x = true) → map_eqb eqb m m = true.
Proof.
  intros H. unfold map_eqb. apply list_eqb_refl.
  intros [k v]. simpl. now rewrite String.eqb_refl, H.
Qed.

Lemma panel_eqb_refl (p : Panel) : panel_eqb p p = true.
Proof.
  unfold panel_eqb, coords_eqb.
  rewrite !String.eqb_refl, Nat.eqb_refl, !Qeq_bool_refl.
  rewrite !(option_eqb_refl String.eqb) by apply String.eqb_refl.
  rewrite (option_eqb_refl (map_eqb String.eqb))
    by (intros m; apply map_eqb_refl, String.eqb_refl).
  rewrite (option_eqb_refl flags_eqb).
  2:{ intros f. unfold flags_eqb.
      rewrite !(option_eqb_refl Bool.eqb) by (intros []; reflexivity). reflexivity. }
  rewrite (map_eqb_refl audio_eqb).
  2:{ intros a. unfold audio_eqb.
      rewrite String.eqb_refl, Qeq_bool_refl.
      now rewrite (option_eqb_refl String.eqb) by apply String.eqb_refl. }
  now destruct (status p).
Qed.

(** A state prints the same JSON text as itself. *)
Lemma sameJSON_refl (chapters : list Chapter) : sameJSON chapters chapters = true.
Proof.
  unfold sameJSON. apply list_eqb_refl. intros c. unfold chapter_eqb.
  rewrite !String.eqb_refl, Nat.eqb_refl.
  rewrite (option_eqb_refl String.eqb) by apply String.eqb_refl.
  rewrite (list_eqb_refl page_eqb).
  2:{ intros pg. unfold page_eqb.
      rewrite !String.eqb_refl, !Nat.eqb_refl.
      now rewrite (list_eqb_refl panel_eqb) by apply panel_eqb_refl. }
  now destruct (chapter_status c).
Qed.

(** The updater of the split returns the array it was given. *)
Lemma split_returns_prev pageId panelId s now_a now_b heap prev :
  (SharedObjects.handleSplitPanel pageId panelId s now_a now_b heap prev).2 = prev.
Proof.
  unfold SharedObjects.handleSplitPanel.
  destruct (list_find _ prev) as [[ci c]|]; [|reflexivity].
  destruct (list_find _ (SharedObjects.pageRefs c)) as [[pi r]|]; [|reflexivity].
  destruct (heap !! r) as [pg|]; [|reflexivity].
  destruct (list_find _ (panels pg)) as [[ki k]|]; [|reflexivity].
  now destruct (_ || _).
Qed.

(** Whatever it is asked to split, [handleSplitPanel] leaves the history
    cell as it was: no snapshot is pushed and the redo stack is kept, because
    the state it returns and the present state are the same objects. *)
Lemma split_is_never_recorded pageId panelId s now_a now_b
    (st : SharedObjects.Heap * SharedObjects.HistoryObj) :
  (SharedObjects.setChapters
     (SharedObjects.handleSplitPanel pageId panelId s now_a now_b) true st).2 = st.2.
Proof.
  unfold SharedObjects.setChapters.
  pose proof (split_returns_prev pageId panelId s now_a now_b st.1
                (SharedObjects.presentRefs st.2)) as Hprev.
  destruct (SharedObjects.handleSplitPanel _ _ _ _ _ _ _) as [heap newPresent].
  simpl in Hprev. subst newPresent. simpl. now rewrite sameJSON_refl.
Qed.

(** *** The value written by the split *)

Implicit Types (heap : list StitchedPageAnalysis) (refs : list nat).

Lemma omap_lookup_valid heap refs :
  (∀ a r, refs !! a = Some r → is_Some (heap !! r)) →
  ∀ a, omap (λ r, heap !! r) refs !! a = refs !! a ≫= (λ r, heap !! r).
Proof.
  induction refs as [|r refs IH]; intros Hv a; [reflexivity|].
  destruct (Hv 0%nat r eq_refl) as [p Hp]. csimpl. rewrite Hp.
  destruct a as [|a]; simpl; [now rewrite Hp|].
  apply IH. intros a' r' H. apply (Hv (S a') r' H).
Qed.

Lemma find_page_refs heap refs pageId :
  (∀ a r, refs !! a = Some r → is_Some (heap !! r)) →
  list_find (λ p, stitch_id p = pageId) (omap (λ r, heap !! r) refs)
  = list_find (λ r, stitch_id <$> heap !! r = Some pageId) refs
      ≫= (λ ir, (λ p, (ir.1, p)) <$> heap !! ir.2).
Proof.
  induction refs as [|r refs IH]; intros Hv; [reflexivity|].
  destruct (Hv 0%nat r eq_refl) as [p Hp]. csimpl. rewrite Hp. csimpl.
  destruct (decide (stitch_id p = pageId)) as [E | E].
  - rewrite decide_True by (now rewrite E). csimpl. now rewrite Hp.
  - rewrite decide_False by (intros [= H]; contradiction). csimpl.
    rewrite IH by (intros a' r' H; apply (Hv (S a') r' H)).
    destruct (list_find _ refs) as [[i r']|]; simpl; [|reflexivity].
    destruct (heap !! r'); reflexivity.
Qed.

Lemma omap_insert_at heap refs r p' pi :
  (∀ a x, refs !! a = Some x → is_Some (heap !! x)) →
  (∀ a, refs !! a = Some r → a = pi) →
  refs !! pi = Some r →
  omap (λ x, <[r:=p']> heap !! x) refs = <[pi:=p']> (omap (λ x, heap !! x) refs).
Proof.
  intros Hv Huniq Hpi. apply list_eq. intros a.
  assert (Hv' : ∀ a x, refs !! a = Some x → is_Some (<[r:=p']> heap !! x)).
  { intros a' x Hx. apply list_lookup_insert_is_Some. eauto. }
  rewrite (omap_lookup_valid (<[r:=p']> heap) refs Hv' a).
  rewrite list_lookup_insert, (omap_lookup_valid heap refs Hv a).
  destruct (Hv pi r Hpi) as [p Hp].
  assert (Hlen : (pi < length (omap (λ x, heap !! x) refs))%nat).
  { apply lookup_lt_is_Some. rewrite (omap_lookup_valid heap refs Hv pi), Hpi.
    simpl. eauto. }
  destruct (decide (pi = a ∧ _)) as [[-> _] | Hn].
  - rewrite Hpi. simpl. apply list_lookup_insert_eq. eapply lookup_lt_Some. exact Hp.
  - destruct (refs !! a) as [x|] eqn:Ex; [|reflexivity]. simpl.
    apply list_lookup_insert_ne. intros ->.
    apply Hn. split; [|exact Hlen]. symmetry. now apply Huniq.
Qed.

Lemma omap_insert_other heap refs r p' :
  (∀ a, refs !! a ≠ Some r) →
  omap (λ x, <[r:=p']> heap !! x) refs = omap (λ x, heap !! x) refs.
Proof.
  induction refs as [|x refs IH]; intros Hn; [reflexivity|]. csimpl.
  rewrite list_lookup_insert_ne by (intros ->; now apply (Hn 0%nat)).
  rewrite IH by (intros a H; now apply (Hn (S a))). reflexivity.
Qed.

(** The state read after the split's write is the state the pure handler
    returns. *)
Lemma split_value pageId panelId s now_a now_b heap prev :
  SharedObjects.wellFormed heap prev →
  SharedObjects.readState (SharedObjects.handleSplitPanel pageId panelId s now_a now_b heap prev).1
               (SharedObjects.handleSplitPanel pageId panelId s now_a now_b heap prev).2
  = handleSplitPanel pageId panelId s now_a now_b (SharedObjects.readState heap prev).
Proof.
  intros [Hvalid Huniq].
  unfold SharedObjects.handleSplitPanel, handleSplitPanel, SharedObjects.readState.
  change (map (SharedObjects.readChapter heap) prev) with (SharedObjects.readChapter heap <$> prev).
  rewrite list_find_fmap.
  destruct (list_find _ prev) as [[ci c]|] eqn:Ec; [|reflexivity].
  cbn [fmap option_fmap option_map prod_map fst snd].
  apply list_find_Some in Ec as (Hc & _ & _).
  assert (Hvc : ∀ a r, SharedObjects.pageRefs c !! a = Some r → is_Some (heap !! r))
    by (intros a r; apply (Hvalid ci c a r Hc)).
  unfold SharedObjects.readChapter at 2. cbn [stitchedPages with_stitchedPages].
  rewrite (find_page_refs heap (SharedObjects.pageRefs c) pageId Hvc).
  destruct (list_find _ (SharedObjects.pageRefs c)) as [[pi r]|] eqn:Er; [|reflexivity].
  cbn [mbind option_bind fst snd].
  apply list_find_Some in Er as (Hr & _ & _).
  destruct (heap !! r) as [page|] eqn:Hpage; [|reflexivity].
  cbn [fmap option_fmap option_map].
  destruct (list_find _ (panels page)) as [[ki k]|]; [|reflexivity].
  destruct (_ || _); [reflexivity|].
  cbn [fst snd].
  match goal with |- context [<[r := ?pg]> heap] => set (page' := pg) end.
  apply list_eq. intros i.
  rewrite list_lookup_insert.
  change (map (SharedObjects.readChapter (<[r:=page']> heap)) prev)
    with (SharedObjects.readChapter (<[r:=page']> heap) <$> prev).
  rewrite !list_lookup_fmap.
  assert (Hci : (ci < length (SharedObjects.readChapter heap <$> prev))%nat)
    by (rewrite length_fmap; eapply lookup_lt_Some; exact Hc).
  destruct (decide (ci = i)) as [<- | Hne].
  - rewrite decide_True by (split; [reflexivity | exact Hci]).
    rewrite Hc. simpl. f_equal. unfold SharedObjects.readChapter, with_stitchedPages. simpl.
    f_equal. apply omap_insert_at; [exact Hvc | | exact Hr].
    intros a Ha. now destruct (Huniq ci ci c c a pi r Hc Hc Ha Hr).
  - rewrite decide_False by (intros [? _]; contradiction).
    destruct (prev !! i) as [c'|] eqn:Ec'; [|reflexivity]. simpl. f_equal.
    unfold SharedObjects.readChapter. f_equal.
    apply omap_insert_other. intros a Ha.
    destruct (Huniq i ci c' c a pi r Ec' Hc Ha Hr) as [-> _]. contradiction.
Qed.

End SharedPages.

(** Delete [p-b], then split [p-a] at 1/4.  The deletion is recorded and the
    split is not: after it the page shows the two halves, the history cell is
    the one the deletion left, and undo brings back the two-panel page, the
    state before the deletion, where the state before the split had the one
    remaining panel. *)
Example split_then_undo :
  let afterDelete := SharedObjects.setChapters
                       (SharedObjects.handleDeletePanel "ch-1" "page-1" "p-b") true
                       twoPanelStore in
  let afterSplit := SharedObjects.setChapters
                      (SharedObjects.handleSplitPanel "page-1" "p-a" (1 # 4) 1 2) true
                      afterDelete in
  SharedObjects.readHistory afterDelete.1 afterDelete.2 = historyAfterDelete
  ∧ afterSplit.2 = afterDelete.2
  ∧ present (SharedObjects.readHistory afterSplit.1 afterSplit.2)
    = handleSplitPanel "page-1" "p-a" (1 # 4) 1 2 (present historyAfterDelete)
  ∧ map (λ p, map panel_id (panels p))
        (concat (map stitchedPages
           (present (SharedObjects.readHistory afterSplit.1 afterSplit.2))))
    = [["panel-page-1-1-a"; "panel-page-1-2-b"]]
  ∧ present (SharedObjects.readHistory (SharedObjects.handleUndo afterSplit).1
               (SharedObjects.handleUndo afterSplit).2) = twoPanelState.
Proof. split_and!; vm_compute; reflexivity. Qed.

(** Delete [p-b] on page 1, then split [p-c] on page 2, whose page object
    the snapshot in [past] shares with the present: undo brings back page 1
    with both panels, and page 2 still split. *)
Example split_reaches_past_snapshots :
  let afterDelete := SharedObjects.setChapters
                       (SharedObjects.handleDeletePanel "ch-1" "page-1" "p-b") true
                       twoPageStore in
  let afterSplit := SharedObjects.setChapters
                      (SharedObjects.handleSplitPanel "page-2" "p-c" (1 # 2) 1 2) true
                      afterDelete in
  let undone := SharedObjects.handleUndo afterSplit in
  map (λ p, map panel_id (panels p))
      (concat (map stitchedPages
         (present (SharedObjects.readHistory twoPageStore.1 twoPageStore.2))))
    = [["p-a"; "p-b"]; ["p-c"]]
  ∧ map (λ p, map panel_id (panels p))
        (concat (map stitchedPages (present (SharedObjects.readHistory undone.1 undone.2))))
    = [["p-a"; "p-b"]; ["panel-page-2-1-a"; "panel-page-2-2-b"]].
Proof. split_and!; vm_compute; reflexivity. Qed.

Section HistoryCursor.

Implicit Types (h : History).

Lemma handleUndo_snoc h l x :
  past h = l ++ [x] →
  handleUndo h = {| past := l; present := x; future := present h :: future h |}.
Proof.
  intros E. unfold handleUndo. rewrite E, last_snoc, length_app. simpl.
  replace (length l + 1 - 1)%nat with (length l) by lia.
  now rewrite take_app_length.
Qed.

Lemma handleUndo_nil h : past h = [] → handleUndo h = h.
Proof. intros E. unfold handleUndo. now rewrite E. Qed.

(** X1.  Undo and redo only move a cursor along one line of snapshots: the
    list past, present, future is the same before and after either of them.
    Undo shortens the past by one and redo shortens the future by one (by
    nothing when it is empty), redo cancels an undo whenever there was
    something to undo, and undo cancels a redo whenever there was something
    to redo. *)
Theorem undo_redo_keep_timeline h :
  timeline (handleUndo h) = timeline h
  ∧ timeline (handleRedo h) = timeline h
  ∧ length (past (handleUndo h)) = (length (past h) - 1)%nat
  ∧ length (future (handleRedo h)) = (length (future h) - 1)%nat
  ∧ (past h ≠ [] → handleRedo (handleUndo h) = h)
  ∧ (future h ≠ [] → handleUndo (handleRedo h) = h).
Proof.
  destruct h as [p c f]. split_and!.
  - destruct p as [|x l _] using rev_ind; [reflexivity|].
    rewrite (handleUndo_snoc _ l x) by reflexivity.
    unfold timeline. simpl. now rewrite <- app_assoc.
  - destruct f as [|n f]; [reflexivity|].
    unfold timeline, handleRedo. simpl. now rewrite <- app_assoc.
  - destruct p as [|x l _] using rev_ind; [reflexivity|].
    rewrite (handleUndo_snoc _ l x) by reflexivity. simpl.
    rewrite length_app. simpl. lia.
  - destruct f as [|n f]; [reflexivity|]. unfold handleRedo. simpl. lia.
  - intros Hp. destruct p as [|x l _] using rev_ind; [done|].
    rewrite (handleUndo_snoc _ l x) by reflexivity. reflexivity.
  - intros Hf. destruct f as [|n f]; [done|].
    unfold handleRedo. simpl.
    rewrite (handleUndo_snoc _ p c) by reflexivity. reflexivity.
Qed.

End HistoryCursor.

Section DeletePanel.

Lemma with_index_same (p : Panel) : with_index (index p) p = p.
Proof. now destruct p. Qed.

Lemma with_panels_same (p : StitchedPageAnalysis) : with_panels (panels p) p = p.
Proof. now destruct p. Qed.

Lemma with_stitchedPages_same (c : Chapter) : with_stitchedPages (stitchedPages c) c = c.
Proof. now destruct c. Qed.

Lemma reindex_contiguous (ps : list Panel) : contiguous ps → reindex ps = ps.
Proof.
  unfold contiguous, reindex. intros H.
  apply list_eq. intros i. rewrite list_lookup_imap.
  destruct (ps !! i) as [p|] eqn:E; [|reflexivity]. simpl. f_equal.
  assert (Hi : map index ps !! i = Some (index p)) by (rewrite list_lookup_fmap, E; done).
  rewrite H in Hi. apply lookup_seq in Hi as [Hi _]. simpl in Hi.
  rewrite <- Hi. apply with_index_same.
Qed.

Lemma unnumbered_reindex (ps : list Panel) : unnumbered (reindex ps) = unnumbered ps.
Proof.
  unfold unnumbered, reindex. apply list_eq. intros i.
  rewrite !list_lookup_fmap, list_lookup_imap.
  now destruct (ps !! i).
Qed.

Lemma map_id_ext {A} (f : A → A) (l : list A) :
  Forall (λ x, f x = x) l → map f l = l.
Proof. induction 1; simpl; congruence. Qed.

(** X2.  [handleDeletePanel] keeps the chapters and pages of the store in
    place.  On a page with the given id in a chapter with the given id no
    panel with the given id is left, the other panels stay in their order
    with their contents, only renumbered 0, 1, ...; every other page is
    returned as it was. *)
Theorem delete_panel_effect (chapterId pageId panelId : string) (prev : list Chapter) :
  Forall2 (λ c c',
    id c' = id c ∧ name c' = name c ∧ chapter_status c' = chapter_status c
    ∧ Forall2 (λ p p',
        if decide (id c = chapterId ∧ stitch_id p = pageId) then
          stitch_id p' = stitch_id p
          ∧ stitchedImageBase64 p' = stitchedImageBase64 p
          ∧ (panelId ∉ map panel_id (panels p'))
          ∧ unnumbered (panels p')
            = unnumbered (filter (λ q, panel_id q ≠ panelId) (panels p))
          ∧ contiguous (panels p')
        else p' = p)
      (stitchedPages c) (stitchedPages c'))
    prev (handleDeletePanel chapterId pageId panelId prev).
Proof.
  unfold handleDeletePanel. apply Forall2_fmap_r, Forall_Forall2_diag, Forall_forall.
  intros c _. unfold compose. cbv beta.
  destruct (decide (id c = chapterId)) as [Hc | Hc].
  - rewrite (decide_False (P := id c ≠ chapterId)) by (intros H; now apply H).
    split_and!; try reflexivity. simpl.
    apply Forall2_fmap_r, Forall_Forall2_diag, Forall_forall. intros p _.
    unfold compose. cbv beta. destruct (decide (stitch_id p = pageId)) as [Hp | Hp].
    + rewrite (decide_False (P := stitch_id p ≠ pageId)) by (intros H; now apply H).
      rewrite decide_True by done. simpl.
      split_and!; try reflexivity.
      * rewrite panel_id_reindex. intros Hin.
        apply list_elem_of_fmap in Hin as (q & Hq & Hin).
        apply list_elem_of_filter in Hin as [Hne _]. congruence.
      * apply unnumbered_reindex.
      * apply contiguous_reindex.
    + rewrite (decide_True (P := stitch_id p ≠ pageId)) by done.
      rewrite decide_False by tauto. reflexivity.
  - rewrite (decide_True (P := id c ≠ chapterId)) by done.
    split_and!; try reflexivity.
    apply Forall_Forall2_diag, Forall_forall. intros p _.
    rewrite decide_False by tauto. reflexivity.
Qed.

Lemma filter_all {A} (P : A → Prop) `{!∀ x, Decision (P x)} (l : list A) :
  Forall P l → filter P l = l.
Proof.
  induction 1 as [|x l Hx _ IH]; [reflexivity|].
  rewrite filter_cons_True by done. now rewrite IH.
Qed.

Lemma elem_of_concat {A} (x : A) (ls : list (list A)) :
  x ∈ concat ls ↔ ∃ l, x ∈ l ∧ l ∈ ls.
Proof.
  induction ls as [|l ls IH]; simpl.
  - split; [intros H; inversion H | intros (l & _ & H); inversion H].
  - rewrite elem_of_app, IH. split.
    + intros [H | (l' & H1 & H2)]; [exists l | exists l'];
        (split; [done|]); [left | now right].
    + intros (l' & H1 & H2). apply elem_of_cons in H2 as [-> | H2]; [now left|].
      right. eauto.
Qed.

Lemma elem_of_allPanels (chapters : list Chapter) (q : Panel) :
  q ∈ allPanels chapters
  ↔ ∃ c p, c ∈ chapters ∧ p ∈ stitchedPages c ∧ q ∈ panels p.
Proof.
  unfold allPanels. rewrite elem_of_concat. split.
  - intros (l & Hq & Hl). apply list_elem_of_fmap in Hl as (c & -> & Hc).
    apply elem_of_concat in Hq as (l' & Hq & Hl').
    apply list_elem_of_fmap in Hl' as (p & -> & Hp). eauto.
  - intros (c & p & Hc & Hp & Hq).
    exists (concat (map panels (stitchedPages c))). split.
    + apply elem_of_concat. exists (panels p). split; [done|].
      apply list_elem_of_fmap. eauto.
    + apply (list_elem_of_fmap_2 (λ c, concat (map panels (stitchedPages c)))). done.
Qed.

(** X3.  On a store whose pages are numbered 0, 1, ..., deleting a panel id
    that no panel carries returns the store as it was, and the history
    records nothing: no undo step is added and the redo stack is kept. *)
Theorem delete_absent_panel (chapterId pageId panelId : string) (h : History) :
  pages_indexed (present h) →
  panelId ∉ map panel_id (allPanels (present h)) →
  handleDeletePanel chapterId pageId panelId (present h) = present h
  ∧ setChapters (handleDeletePanel chapterId pageId panelId) true h = h.
Proof.
  intros Hidx Habs.
  assert (Hsame : handleDeletePanel chapterId pageId panelId (present h) = present h).
  { unfold handleDeletePanel. apply map_id_ext, Forall_forall. intros c Hc.
    destruct (decide (id c = chapterId)) as [Ec | Ec];
      [rewrite decide_False by (intros H; now apply H) | now rewrite decide_True].
    transitivity (with_stitchedPages (stitchedPages c) c);
      [f_equal | apply with_stitchedPages_same].
    apply map_id_ext, Forall_forall. intros p Hp.
    destruct (decide (stitch_id p = pageId)) as [Ep | Ep];
      [rewrite decide_False by (intros H; now apply H) | now rewrite decide_True].
    transitivity (with_panels (panels p) p); [f_equal | apply with_panels_same].
    assert (Hf : filter (λ q, panel_id q ≠ panelId) (panels p) = panels p).
    { apply filter_all, Forall_forall. intros q Hq Heq. apply Habs.
      apply list_elem_of_fmap. exists q. split; [done|].
      apply elem_of_allPanels. eauto. }
    rewrite Hf. apply reindex_contiguous.
    unfold pages_indexed in Hidx. rewrite Forall_forall in Hidx.
    specialize (Hidx c Hc). rewrite Forall_forall in Hidx. now apply Hidx. }
  split; [exact Hsame|].
  apply setChapters_unchanged. rewrite Hsame. apply sameJSON_refl.
Qed.

End DeletePanel.

(** Deleting the unknown id [p-z] from the two-panel page. *)
Lemma delete_absent_panel_witness :
  handleDeletePanel "ch-1" "page-1" "p-z" twoPanelState = twoPanelState
  ∧ setChapters (handleDeletePanel "ch-1" "page-1" "p-z") true (freshHistory twoPanelState)
    = freshHistory twoPanelState.
Proof.
  apply (delete_absent_panel "ch-1" "page-1" "p-z" (freshHistory twoPanelState)).
  - unfold pages_indexed, contiguous. simpl. repeat constructor.
  - intros H. vm_compute in H. repeat (apply elem_of_cons in H as [H | H]; [discriminate|]).
    inversion H.
Defined.

Section DuplicateDelete.

Lemma reindex_unnumbered (a b : list Panel) :
  unnumbered a = unnumbered b → reindex a = reindex b.
Proof.
  intros Hab. unfold reindex. apply list_eq. intros i.
  rewrite !list_lookup_imap.
  apply (f_equal (λ l, l !! i)) in Hab. unfold unnumbered in Hab.
  rewrite !list_lookup_fmap in Hab.
  destruct (a !! i) as [p|], (b !! i) as [q|]; try discriminate; [|reflexivity].
  cbn [fmap option_fmap option_map] in *.
  assert (Hpq : with_index 0 p = with_index 0 q) by congruence. f_equal.
  transitivity (with_index i (with_index 0 p)); [now destruct p|].
  rewrite Hpq. now destruct q.
Qed.

Lemma unnumbered_filter (x : string) (l : list Panel) :
  unnumbered (filter (λ q, panel_id q ≠ x) l)
  = filter (λ q, panel_id q ≠ x) (unnumbered l).
Proof.
  unfold unnumbered. induction l as [|q l IH]; [reflexivity|].
  cbn [map]. destruct (decide (panel_id q = x)) as [E | E].
  - rewrite filter_cons_False by (intros H; now apply H).
    rewrite filter_cons_False by (intros H; apply H; now destruct q). exact IH.
  - rewrite filter_cons_True by exact E.
    rewrite (filter_cons_True (λ q, panel_id q ≠ x)) by (now destruct q).
    cbn [map]. now rewrite IH.
Qed.

Lemma reindex_filter_reindex (x : string) (l : list Panel) :
  reindex (filter (λ q, panel_id q ≠ x) (reindex l))
  = reindex (filter (λ q, panel_id q ≠ x) l).
Proof.
  apply reindex_unnumbered.
  now rewrite !unnumbered_filter, unnumbered_reindex.
Qed.

Lemma filter_spliced (x : string) (i : nat) (a : Panel) (ps : list Panel) :
  panel_id a = x → Forall (λ q, panel_id q ≠ x) ps →
  filter (λ q, panel_id q ≠ x) (splice_insert_after i a ps) = ps.
Proof.
  intros Ha Hps. unfold splice_insert_after.
  rewrite !filter_app.
  rewrite (filter_all _ (take (S i) ps)) by (now apply Forall_take).
  rewrite (filter_all _ (drop (S i) ps)) by (now apply Forall_drop).
  rewrite filter_cons_False by (intros H; now apply H).
  rewrite filter_nil. cbn [app]. apply take_drop.
Qed.

(** X28.  On a store whose pages are numbered 0, 1, ..., duplicating a
    panel and then deleting the copy gives back the store exactly as it
    was, provided no panel already carries the id the copy gets
    ([panel-<pageId>-<now>]); this holds as well when there was nothing to
    duplicate. *)
Theorem duplicate_then_delete (chapterId pageId panelId : string) (now : nat)
    (prev : list Chapter) :
  let new_id := "panel-" +:+ pageId +:+ "-" +:+ show_nat now in
  pages_indexed prev →
  new_id ∉ map panel_id (allPanels prev) →
  handleDeletePanel chapterId pageId new_id
    (handleDuplicatePanel chapterId pageId panelId now prev) = prev.
Proof.
  intros new_id Hidx Hfresh.
  unfold handleDeletePanel, handleDuplicatePanel. rewrite map_map.
  apply map_id_ext, Forall_forall. intros c Hc.
  destruct (decide (id c = chapterId)) as [Ec | Ec].
  2: { rewrite (decide_True (P := id c ≠ chapterId)) by done.
       now rewrite decide_True by done. }
  rewrite (decide_False (P := id c ≠ chapterId)) by (intros H; now apply H).
  rewrite decide_False by (intros H; apply H; now destruct c).
  transitivity (with_stitchedPages (stitchedPages c) c);
    [|apply with_stitchedPages_same].
  destruct c as [cid cname cfiles pages cstatus cerr]. unfold with_stitchedPages.
  cbn [id name files stitchedPages chapter_status chapter_error] in *.
  f_equal. rewrite map_map. apply map_id_ext, Forall_forall. intros p Hp.
  assert (Hcont : contiguous (panels p)).
  { unfold pages_indexed in Hidx. rewrite Forall_forall in Hidx.
    specialize (Hidx _ Hc). rewrite Forall_forall in Hidx. now apply Hidx. }
  assert (Hnone : Forall (λ q, panel_id q ≠ new_id) (panels p)).
  { apply Forall_forall. intros q Hq Heq. apply Hfresh.
    apply list_elem_of_fmap. exists q. split; [done|].
    apply elem_of_allPanels. eexists _, p. split; [exact Hc|]. split; [exact Hp | exact Hq]. }
  destruct (decide (stitch_id p = pageId)) as [Ep | Ep].
  2: { rewrite (decide_True (P := stitch_id p ≠ pageId)) by done.
       now rewrite decide_True by done. }
  rewrite (decide_False (P := stitch_id p ≠ pageId)) by (intros H; now apply H).
  transitivity (with_panels (panels p) p); [|apply with_panels_same].
  destruct (list_find _ (panels p)) as [[i x]|] eqn:Hfind.
  - rewrite decide_False by (intros H; apply H; now destruct p).
    destruct p as [sid pcid w h ps img mime fname]. unfold with_panels.
    cbn [panels stitch_id chapter_id image_width image_height stitchedImageBase64
         stitchedImageMimeType stitchedFileName] in *.
    f_equal. fold new_id. rewrite reindex_filter_reindex.
    rewrite filter_spliced by (done || exact Hnone).
    now apply reindex_contiguous.
  - rewrite decide_False by (intros H; now apply H).
    f_equal. rewrite (filter_all _ (panels p)) by exact Hnone.
    now apply reindex_contiguous.
Qed.

End DuplicateDelete.

(** Duplicating [p-a] at time 7 and deleting the copy. *)
Lemma duplicate_then_delete_witness :
  handleDeletePanel "ch-1" "page-1" ("panel-" +:+ "page-1" +:+ "-" +:+ show_nat 7)
    (handleDuplicatePanel "ch-1" "page-1" "p-a" 7 twoPanelState) = twoPanelState.
Proof.
  apply (duplicate_then_delete "ch-1" "page-1" "p-a" 7 twoPanelState).
  - unfold pages_indexed, contiguous. simpl. repeat constructor.
  - apply (bool_decide_unpack _). vm_compute. exact I.
Defined.

Section CropEdge.
Local Open Scope Q_scope.

Lemma allPanels_map_pages (f : StitchedPageAnalysis → StitchedPageAnalysis)
    {B} (g : Panel → B) (chapters : list Chapter) :
  (∀ p, map g (panels (f p)) = map g (panels p)) →
  map g (allPanels (map (λ c, with_stitchedPages (map f (stitchedPages c)) c) chapters))
  = map g (allPanels chapters).
Proof.
  intros Hf. unfold allPanels. induction chapters as [|c cs IH]; [reflexivity|].
  simpl. rewrite !map_app, IH. f_equal.
  induction (stitchedPages c) as [|p ps IHp]; [reflexivity|].
  simpl. rewrite !map_app, IHp, Hf. reflexivity.
Qed.

(** What [cropPanel] never touches: the identity, the number, the left
    edge and the width of the panel. *)
Lemma cropPanel_frame (c : Q) (direction : CropDirection) (panel : Panel) :
  panel_id (cropPanel c direction panel) = panel_id panel
  ∧ index (cropPanel c direction panel) = index panel
  ∧ cx (coordinates (cropPanel c direction panel)) = cx (coordinates panel)
  ∧ cw (coordinates (cropPanel c direction panel)) = cw (coordinates panel).
Proof.
  unfold cropPanel. destruct direction; destruct (Qltb (5 # 1000) _); simpl; done.
Qed.


(** X5.  [handleCropPanel] never adds, removes, reorders or renumbers
    anything: the panel ids and indices in reading order, each panel's left
    edge and width, the chapter ids and the page ids of every chapter are
    the same after as before. *)
Theorem crop_keeps_panel_list (pageId panelId : string) (cropY_norm : Q)
    (direction : CropDirection) (prev : list Chapter) :
  let next := handleCropPanel pageId panelId cropY_norm direction prev in
  map panel_id (allPanels next) = map panel_id (allPanels prev)
  ∧ map index (allPanels next) = map index (allPanels prev)
  ∧ map (λ p, (cx (coordinates p), cw (coordinates p))) (allPanels next)
    = map (λ p, (cx (coordinates p), cw (coordinates p))) (allPanels prev)
  ∧ map id next = map id prev
  ∧ map (λ c, map stitch_id (stitchedPages c)) next
    = map (λ c, map stitch_id (stitchedPages c)) prev.
Proof.
  intros next. subst next. unfold handleCropPanel.
  set (c := Qmax 0 (Qmin 1 cropY_norm)).
  assert (Hpage : ∀ {B} (g : Panel → B),
            (∀ q, g (cropPanel c direction q) = g q) →
            ∀ p, map g (panels (if decide (stitch_id p ≠ pageId) then p else
                   with_panels (map (λ panel, if decide (panel_id panel ≠ panelId)
                      then panel else cropPanel c direction panel) (panels p)) p))
                 = map g (panels p)).
  { intros B g Hg p. destruct (decide (stitch_id p ≠ pageId)); [reflexivity|].
    simpl. rewrite map_map. apply map_ext. intros q.
    destruct (decide (panel_id q ≠ panelId)); [reflexivity | apply Hg]. }
  split_and!.
  - apply allPanels_map_pages, Hpage. intros q. apply (cropPanel_frame c direction q).
  - apply allPanels_map_pages, Hpage. intros q. apply (cropPanel_frame c direction q).
  - apply allPanels_map_pages, Hpage. intros q.
    destruct (cropPanel_frame c direction q) as (_ & _ & Hx & Hw).
    now rewrite Hx, Hw.
  - rewrite map_map. reflexivity.
  - rewrite map_map. apply map_ext. intros ch. simpl. rewrite map_map.
    apply map_ext. intros p. now destruct (decide (stitch_id p ≠ pageId)).
Qed.

End CropEdge.

Section StoryWriteBack.

Import GeminiService.

Implicit Types (oracle : Oracle ResponseText) (st : AppState).

(** The [Map] built from the results holds an entry for every id they name,
    and every entry is one of the results, filed under its own id. *)
Lemma storyMap_lookup (storyData : list StoryGenerationResult)
    (m : gmap string StoryGenerationResult) (k : string) :
  k ∈ map story_panel_id storyData ∨ is_Some (m !! k) →
  is_Some (foldl (λ m item, <[story_panel_id item := item]> m) m storyData !! k).
Proof.
  revert m. induction storyData as [|item rest IH]; intros m; simpl.
  - intros [H | H]; [inversion H | exact H].
  - intros [H | H]; apply IH.
    + apply elem_of_cons in H as [-> | H]; [right | now left].
      rewrite lookup_insert_eq. eauto.
    + right. destruct (decide (story_panel_id item = k)) as [-> | Hne].
      * rewrite lookup_insert_eq. eauto.
      * now rewrite lookup_insert_ne.
Qed.

Lemma storyMap_sound (storyData : list StoryGenerationResult)
    (m : gmap string StoryGenerationResult) (k : string) (r : StoryGenerationResult) :
  foldl (λ m item, <[story_panel_id item := item]> m) m storyData !! k = Some r →
  (r ∈ storyData ∧ story_panel_id r = k) ∨ m !! k = Some r.
Proof.
  revert m. induction storyData as [|item rest IH]; intros m; simpl.
  - now right.
  - intros H. apply IH in H as [[H1 H2] | H].
    + left. split; [now right | exact H2].
    + destruct (decide (story_panel_id item = k)) as [E | Hne].
      * rewrite <- E, lookup_insert_eq in H. injection H as <-. left.
        split; [now left | exact E].
      * rewrite lookup_insert_ne in H by done. now right.
Qed.

Lemma generateStoriesForPanels_complete oracle panels ctx langs s s1 storyData :
  generateStoriesForPanels oracle true panels ctx langs s = (s1, inr storyData) →
  ∀ p, p ∈ panels → panel_id p ∈ map story_panel_id storyData.
Proof.
  unfold generateStoriesForPanels. simpl negb. cbv iota.
  destruct (withRetriesAndFallbacks _ _ _ _) as [s' [message | response]];
    [discriminate|].
  destruct response as [e | | parsed]; try discriminate.
  destruct (0 <? length (missingIds panels parsed))%nat eqn:E; [discriminate|].
  intros [= _ <-] p Hp. apply Nat.ltb_ge in E.
  destruct (decide (panel_id p ∈ map story_panel_id parsed)) as [|Hno]; [done|].
  exfalso. assert (Hin : panel_id p ∈ missingIds panels parsed).
  { apply elem_of_missingIds. split; [|exact Hno]. now apply list_elem_of_fmap_2. }
  destruct (missingIds panels parsed); [inversion Hin | simpl in E; lia].
Qed.

Lemma Forall2_impl_l {A B} (P Q : A → B → Prop) (R : A → Prop) (l : list A) (k : list B) :
  Forall R l → Forall2 P l k → (∀ x y, R x → P x y → Q x y) → Forall2 Q l k.
Proof.
  intros HR HP Himp. induction HP as [|x y l k Hxy _ IH]; [constructor|].
  inversion HR; subst. constructor; [now apply Himp | now apply IH].
Qed.

(** The panels of a chapter after [applyStories], page by page. *)
Lemma applyStories_chapter (chapterId : string) (storyData : list StoryGenerationResult)
    (c : Chapter) :
  id c = chapterId →
  let storyMap : gmap string StoryGenerationResult :=
    foldl (λ m item, <[story_panel_id item := item]> m) ∅ storyData in
  ∀ c', [c'] = applyStories chapterId storyData [c] →
  Forall2 (λ p p',
      (∀ r, storyMap !! panel_id p = Some r →
            panel_id p' = panel_id p ∧ index p' = index p
            ∧ coordinates p' = coordinates p
            ∧ status p' = complete
            ∧ recap_texts p' = Some (story_recap_texts r)
            ∧ narration_tone p' = Some (story_narration_tone r))
      ∧ (storyMap !! panel_id p = None → p' = p))
    (concat (map panels (stitchedPages c)))
    (concat (map panels (stitchedPages c'))).
Proof.
  intros Hid storyMap c' Hc'. unfold applyStories in Hc'. simpl in Hc'.
  rewrite decide_False in Hc' by (intros H; now apply H).
  injection Hc' as ->. simpl. fold storyMap.
  induction (stitchedPages c) as [|pg pgs IH]; simpl; [constructor|].
  apply Forall2_app; [|exact IH]. clear IH.
  apply Forall2_fmap_r, Forall_Forall2_diag, Forall_forall. intros p _.
  unfold compose. destruct (storyMap !! panel_id p) as [r|]; simpl.
  - split; [|discriminate]. intros r' [= <-]. done.
  - split; [discriminate | reflexivity].
Qed.

Lemma applyStories_lookup (chapterId : string) (storyData : list StoryGenerationResult)
    (prev : list Chapter) (i : nat) (c : Chapter) :
  prev !! i = Some c →
  ∃ c', applyStories chapterId storyData prev !! i = Some c'
        ∧ [c'] = applyStories chapterId storyData [c].
Proof.
  intros Hi. unfold applyStories. rewrite list_lookup_fmap, Hi. simpl. eauto.
Qed.

(** X6.  When [handleGenerateStories], with the API key set, finds the
    chapter and ends without an error message, the undo and redo stacks are
    as before, and every panel of
    that chapter keeps its id, number and rectangle, has status [complete],
    and carries the recap texts and the narration tone of a story of the
    model's answer that names this panel. *)
Theorem stories_complete_the_chapter oracle (langs : list string) (chapterId : string)
    (ctx : option string) st st' (i : nat) (chapter : Chapter) :
  list_find (λ c, id c = chapterId) (present (history st)) = Some (i, chapter) →
  handleGenerateStories oracle true (present (history st)) langs chapterId ctx st
    = (st', inr tt) →
  globalError st' = None →
  past (history st') = past (history st)
  ∧ future (history st') = future (history st)
  ∧ ∃ chapter' s1 storyData,
      present (history st') !! i = Some chapter'
      ∧ generateStoriesForPanels oracle true (concat (map panels (stitchedPages chapter)))
          ctx langs (session st) = (s1, inr storyData)
      ∧ Forall2 (λ p p',
            panel_id p' = panel_id p ∧ index p' = index p
            ∧ coordinates p' = coordinates p
            ∧ status p' = complete
            ∧ ∃ r, r ∈ storyData ∧ story_panel_id r = panel_id p
                   ∧ recap_texts p' = Some (story_recap_texts r)
                   ∧ narration_tone p' = Some (story_narration_tone r))
          (concat (map panels (stitchedPages chapter)))
          (concat (map panels (stitchedPages chapter'))).
Proof.
  intros Hfind Hrun Hok. unfold handleGenerateStories in Hrun.
  rewrite Hfind in Hrun.
  set (sent := concat (map panels (stitchedPages chapter))) in *.
  destruct (length sent =? 0)%nat.
  { injection Hrun as <-. discriminate Hok. }
  cbn [session setGlobalError] in Hrun.
  destruct (generateStoriesForPanels oracle true sent ctx langs (session st))
    as [s1 [message | storyData]] eqn:Hcall; [discriminate|].
  injection Hrun as <-. cbn. split; [reflexivity|]. split; [reflexivity|].
  apply list_find_Some in Hfind as (Hi & Hid & _).
  destruct (applyStories_lookup chapterId storyData _ i chapter Hi) as (c' & Hc' & Hone).
  exists c', s1, storyData. split; [exact Hc'|]. split; [reflexivity|].
  pose proof (applyStories_chapter chapterId storyData chapter Hid c' Hone) as Hall.
  cbv zeta in Hall. fold sent in Hall.
  assert (Hnamed : Forall (λ p, panel_id p ∈ map story_panel_id storyData) sent).
  { apply Forall_forall. intros p Hp.
    eapply generateStoriesForPanels_complete; [exact Hcall | exact Hp]. }
  eapply Forall2_impl_l; [exact Hnamed | exact Hall |].
  intros p p' Hp [Hsome Hnone].
  destruct (storyMap_lookup storyData ∅ (panel_id p) (or_introl Hp)) as [r Hr].
  destruct (Hsome r Hr) as (H1 & H2 & H3 & H4 & H5 & H6).
  split_and!; try done. exists r.
  apply storyMap_sound in Hr as [[Hin Hk] | Hr]; [|now rewrite lookup_empty in Hr].
  done.
Qed.

(** X7.  When the story service fails, [handleGenerateStories] rethrows the
    message, leaves the whole history as it was and shows
    "Error generating stories for Chapter <name>: <message>".  An unknown
    chapter id gives "Chapter not found." without an exception.  Whenever an
    error message is shown afterwards, the history is unchanged. *)
Theorem failed_stories_leave_the_store oracle (apiKeyConfigured : bool)
    (chapters : list Chapter) (langs : list string) (chapterId : string)
    (ctx : option string) st :
  let run := handleGenerateStories oracle apiKeyConfigured chapters langs chapterId ctx st in
  (∀ message, run.2 = inl message →
     history run.1 = history st
     ∧ ∃ i chapter,
         list_find (λ c, id c = chapterId) chapters = Some (i, chapter)
         ∧ globalError run.1
           = Some ("Error generating stories for Chapter " +:+ name chapter +:+ ": "
                   +:+ message))
  ∧ (list_find (λ c, id c = chapterId) chapters = None →
     run = (setGlobalError (Some "Chapter not found.") st, inr tt))
  ∧ (globalError run.1 ≠ None → history run.1 = history st).
Proof.
  intros run. subst run. unfold handleGenerateStories.
  destruct (list_find _ chapters) as [[i chapter]|] eqn:Hfind.
  2: { split_and!; [discriminate | reflexivity | reflexivity]. }
  destruct (length _ =? 0)%nat.
  { split_and!; [discriminate | discriminate | reflexivity]. }
  cbn [session setGlobalError].
  destruct (generateStoriesForPanels _ _ _ _ _ _) as [s1 [message | storyData]].
  - split_and!; [|discriminate | reflexivity].
    intros m [= <-]. split; [reflexivity|]. exists i, chapter. done.
  - split_and!; [discriminate | discriminate |].
    cbn. intros H. now contradict H.
Qed.

End StoryWriteBack.

(** Stories for chapter 1 of the two sample chapters. *)
Lemma stories_complete_the_chapter_witness :
  let st' := (handleGenerateStories storyOracle true twoChapters ["en-US"] "ch-1" None
                (freshApp twoChapters)).1 in
  past (history st') = [] ∧ future (history st') = []
  ∧ is_Some (present (history st') !! 0%nat).
Proof.
  intros st'.
  destruct (stories_complete_the_chapter storyOracle ["en-US"] "ch-1" None
              (freshApp twoChapters) st' 0
              (sampleChapter "ch-1"
                 [samplePage "page-1" "ch-1"
                    [croppedPanel "c1-p1" 0; croppedPanel "c1-p2" 1]]))
    as (Hp & Hf & chapter' & s1 & storyData & Hc & _ & Hall).
  - vm_compute. reflexivity.
  - vm_compute. reflexivity.
  - vm_compute. reflexivity.
  - split; [exact Hp|]. split; [exact Hf|]. exists chapter'. exact Hc.
Defined.

Section BatchCost.

Import GeminiService.

Implicit Types (oracle : Oracle ResponseText) (st : AppState).

Lemma generateStoriesForPanels_cost oracle (apiKeyConfigured : bool) panels ctx langs s :
  ∃ k, (k ≤ 2)%nat
       ∧ extendedBy k s
           (generateStoriesForPanels oracle apiKeyConfigured panels ctx langs s).1.
Proof.
  destruct apiKeyConfigured.
  2: { exists 0%nat. split; [lia|]. unfold extendedBy. simpl.
       rewrite app_nil_r. split; [lia | reflexivity]. }
  rewrite generateStoriesForPanels_session.
  pose proof (withRetriesAndFallbacks_spec oracle
                {| req_parts := buildParts panels ctx langs |} ALL_TEXT_MODELS 2 s) as H.
  cbv zeta in H.
  destruct (firstResponse _ _ _ _) as [[j r]|] eqn:E.
  - apply firstResponse_bound in E. change (length _) with 2%nat in E.
    destruct H as (_ & Hc & Hm & _). exists (S j). split; [lia|].
    split; [exact Hc|]. rewrite Hm. f_equal.
    destruct j as [|[|j]]; [reflexivity | reflexivity | lia].
  - destruct H as (_ & Hc & Hm & _). exists 2%nat. split; [lia|].
    split; [exact Hc | exact Hm].
Qed.

Lemma handleGenerateStories_cost oracle (apiKeyConfigured : bool) chapters langs
    chapterId ctx st :
  ∃ k, (k ≤ 2)%nat
       ∧ extendedBy k (session st)
           (session (handleGenerateStories oracle apiKeyConfigured chapters langs
                       chapterId ctx st).1).
Proof.
  assert (H0 : ∃ k, (k ≤ 2)%nat ∧ extendedBy k (session st) (session st)).
  { exists 0%nat. split; [lia|]. unfold extendedBy. rewrite app_nil_r.
    split; [lia | reflexivity]. }
  unfold handleGenerateStories.
  destruct (list_find _ chapters) as [[i chapter]|]; [|exact H0].
  destruct (length _ =? 0)%nat; [exact H0|].
  cbn [session setGlobalError].
  pose proof (generateStoriesForPanels_cost oracle apiKeyConfigured
                (concat (map panels (stitchedPages chapter))) ctx langs (session st)) as H.
  destruct (generateStoriesForPanels _ _ _ _ _ _) as [s1 [message | storyData]];
    exact H.
Qed.

Lemma extendedBy_trans (a b : nat) (s1 s2 s3 : Session) :
  extendedBy a s1 s2 → extendedBy b s2 s3 → extendedBy (a + b) s1 s3.
Proof.
  intros [H1 H2] [H3 H4]. split; [lia|].
  rewrite H4, H2, <- app_assoc. f_equal. symmetry. apply replicate_add.
Qed.

Lemma generateAllLoop_cost oracle (apiKeyConfigured : bool) (chaptersHistory : History)
    (selectedLanguage : string) (langs : list string) (remaining : list Chapter) :
  ∀ ctx st,
    ∃ k, (k ≤ 2 * length remaining)%nat
         ∧ extendedBy k (session st)
             (session (generateAllLoop oracle apiKeyConfigured chaptersHistory
                         selectedLanguage langs remaining ctx st)).
Proof.
  induction remaining as [|chapter rest IH]; intros ctx st.
  - exists 0%nat. split; [simpl; lia|]. unfold extendedBy. simpl.
    rewrite app_nil_r. split; [lia | reflexivity].
  - cbn [generateAllLoop].
    destruct (stopRequest st).
    { exists 0%nat. split; [simpl; lia|]. unfold extendedBy.
      rewrite app_nil_r. split; [lia | reflexivity]. }
    destruct (handleGenerateStories_cost oracle apiKeyConfigured
                (present chaptersHistory) langs (id chapter) ctx st) as (a & Ha & Hext).
    destruct (handleGenerateStories _ _ _ _ _ _ _) as [st1 [message | []]].
    + exists a. split; [simpl; lia|]. exact Hext.
    + destruct (IH (trailingContext (present chaptersHistory) (id chapter)
                      selectedLanguage ctx) st1) as (b & Hb & Hext').
      exists (a + b)%nat. split; [simpl; lia|].
      eapply extendedBy_trans; [exact Hext | exact Hext'].
Qed.

Lemma handleGenerateStories_frame oracle (apiKeyConfigured : bool) chapters langs
    chapterId ctx st :
  let st' := (handleGenerateStories oracle apiKeyConfigured chapters langs
                chapterId ctx st).1 in
  past (history st') = past (history st) ∧ future (history st') = future (history st)
  ∧ stopRequest st' = stopRequest st.
Proof.
  unfold handleGenerateStories.
  destruct (list_find _ chapters) as [[i chapter]|]; [|done].
  destruct (length _ =? 0)%nat; [done|].
  destruct (generateStoriesForPanels _ _ _ _ _ _) as [s1 [message | storyData]]; done.
Qed.

Lemma generateAllLoop_frame oracle (apiKeyConfigured : bool) (chaptersHistory : History)
    (selectedLanguage : string) (langs : list string) (remaining : list Chapter) :
  ∀ ctx st,
    let st' := generateAllLoop oracle apiKeyConfigured chaptersHistory
                 selectedLanguage langs remaining ctx st in
    past (history st') = past (history st) ∧ future (history st') = future (history st).
Proof.
  induction remaining as [|chapter rest IH]; intros ctx st; [done|].
  cbn [generateAllLoop]. destruct (stopRequest st); [done|].
  pose proof (handleGenerateStories_frame oracle apiKeyConfigured
                (present chaptersHistory) langs (id chapter) ctx st) as (Hp & Hf & _).
  destruct (handleGenerateStories _ _ _ _ _ _ _) as [st1 [message | []]].
  - simpl in *. done.
  - cbn [fst] in Hp, Hf. cbv zeta.
    destruct (IH (trailingContext (present chaptersHistory) (id chapter)
                    selectedLanguage ctx) st1) as [Hp' Hf'].
    split; congruence.
Qed.

(** X8.  A global story run calls the model at most twice per chapter of the
    store, always the model [gemini-2.5-flash], and it adds no undo step and
    keeps the redo stack, whatever it writes into the present. *)
Theorem global_stories_cost oracle (apiKeyConfigured : bool)
    (selectedLanguage : string) (langs : list string) st :
  let st' := handleGenerateAllStories oracle apiKeyConfigured selectedLanguage langs st in
  (∃ k, (k ≤ 2 * length (present (history st)))%nat
        ∧ calls (session st') = (calls (session st) + k)%nat
        ∧ modelsCalled (session st')
          = modelsCalled (session st) ++ replicate k "gemini-2.5-flash")
  ∧ past (history st') = past (history st)
  ∧ future (history st') = future (history st).
Proof.
  intros st'. subst st'. unfold handleGenerateAllStories. split.
  - destruct (generateAllLoop_cost oracle apiKeyConfigured (history st) selectedLanguage
                langs (present (history st)) None
                {| history := history st; session := session st; globalError := None;
                   stopRequest := false |}) as (k & Hk & Hc & Hm).
    exists k. split; [exact Hk|]. split; [exact Hc | exact Hm].
  - apply (generateAllLoop_frame oracle apiKeyConfigured (history st) selectedLanguage
             langs (present (history st)) None
             {| history := history st; session := session st; globalError := None;
                stopRequest := false |}).
Qed.

End BatchCost.

Section DetectedGeometry.

Import PanelDetectorService.
Local Open Scope Q_scope.



















End DetectedGeometry.

Section Grayscale.

Import PanelDetectorService.
Local Open Scope Q_scope.




End Grayscale.

Section Gestures.

Import InteractiveMangaView.
Local Open Scope Q_scope.





(** X14.  Whenever a mouse move reports an update, it is for the panel the
    gesture started on, this panel is in the list, and the rectangle
    reported is the resize (with a handle) or the move (without) of the
    rectangle the panel had at the start of the gesture. *)
Theorem updates_name_a_listed_panel (panels : list Panel) (rect : DOMRect)
    (down e : MouseEvent) (targetPanelId : option string)
    (targetHandle : option ResizeHandle) (pid : string) (c : CoordinatesArray) :
  handleMouseMove (handleMouseDown panels rect down targetPanelId targetHandle) rect e
    = Some (pid, c) →
  targetPanelId = Some pid
  ∧ ∃ i p, list_find (λ p, panel_id p = pid) panels = Some (i, p)
           ∧ c = match targetHandle with
                 | Some hd =>
                     resizeCoords (coordinates p) hd (getRelativeCoords rect down).1
                       (getRelativeCoords rect down).2 (getRelativeCoords rect e).1
                       (getRelativeCoords rect e).2
                 | None =>
                     moveCoords (coordinates p) (getRelativeCoords rect down).1
                       (getRelativeCoords rect down).2 (getRelativeCoords rect e).1
                       (getRelativeCoords rect e).2
                 end.
Proof.
  unfold handleMouseMove, handleMouseDown.
  destruct (getRelativeCoords rect down) as [sx sy].
  destruct (getRelativeCoords rect e) as [ex ey].
  destruct targetPanelId as [tp|]; cbn [truthy]; [|discriminate].
  destruct (decide (tp = EmptyString)) as [-> | Hne]; [discriminate|].
  destruct (list_find _ panels) as [[i p]|] eqn:Hfind;
    destruct targetHandle as [hd|]; cbn; try discriminate;
    rewrite decide_False by done; intros [= <- <-];
    (split; [reflexivity|]); exists i, p; (split; [exact Hfind | reflexivity]).
Qed.

End Gestures.

(** Dragging the right-edge handle of the sample panel to the left. *)
Lemma updates_name_a_listed_panel_witness :
  let moved := InteractiveMangaView.handleMouseMove (grabRightHandle smallRect 512 384)
                 pageRect (pointerAt 256 384) in
  ∃ i p, list_find (λ p, panel_id p = "p") [samplePanel "p" 0 smallRect] = Some (i, p)
         ∧ (default ("", smallRect) moved).2
           = InteractiveMangaView.resizeCoords (coordinates p) InteractiveMangaView.h_r
               (InteractiveMangaView.getRelativeCoords pageRect (pointerAt 512 384)).1
               (InteractiveMangaView.getRelativeCoords pageRect (pointerAt 512 384)).2
               (InteractiveMangaView.getRelativeCoords pageRect (pointerAt 256 384)).1
               (InteractiveMangaView.getRelativeCoords pageRect (pointerAt 256 384)).2.
Proof.
  intros moved.
  destruct (updates_name_a_listed_panel [samplePanel "p" 0 smallRect] pageRect
              (pointerAt 512 384) (pointerAt 256 384) (Some "p")
              (Some InteractiveMangaView.h_r) "p" (default ("", smallRect) moved).2)
    as [_ H].
  - vm_compute. reflexivity.
  - exact H.
Defined.

Section EditorView.

Import PanelEditor.
Local Open Scope Q_scope.






End EditorView.


Section AudioAssembly.

Import AudioProcessingService.
Local Open Scope Q_scope.

Lemma Qfloor_unique (v : Q) (z : Z) :
  inject_Z z <= v → v < inject_Z (z + 1) → Qfloor v = z.
Proof.
  intros Hlo Hhi.
  pose proof (Qfloor_le v) as H1. pose proof (Qlt_floor v) as H2.
  assert (A : (Qfloor v < z + 1)%Z) by (rewrite Zlt_Qlt; lra).
  assert (B : (z < Qfloor v + 1)%Z) by (rewrite Zlt_Qlt; lra).
  lia.
Qed.

Lemma Qceiling_unique (v : Q) (z : Z) :
  inject_Z (z - 1) < v → v <= inject_Z z → Qceiling v = z.
Proof.
  intros Hlo Hhi. unfold Qceiling.
  assert (E : Qfloor (- v) = (- z)%Z).
  { apply Qfloor_unique.
    - rewrite inject_Z_opp. lra.
    - replace (- z + 1)%Z with (- (z - 1))%Z by lia. rewrite inject_Z_opp. lra. }
  rewrite E. lia.
Qed.

Lemma truncate_integer (v : Q) (z : Z) : v == inject_Z z → truncate v = z.
Proof.
  intros Hv. unfold truncate.
  assert (Hm : inject_Z (z - 1) == inject_Z z - 1)
    by (unfold Z.sub; rewrite inject_Z_plus; reflexivity).
  assert (Hp : inject_Z (z + 1) == inject_Z z + 1)
    by (rewrite inject_Z_plus; reflexivity).
  destruct (Qltb v 0).
  - apply Qceiling_unique; lra.
  - apply Qfloor_unique; lra.
Qed.

Lemma toInt16_range (lo hi : Z) :
  isByte lo → isByte hi → (-32768 ≤ toInt16 (lo + 256 * hi) ≤ 32767)%Z.
Proof.
  unfold isByte, toInt16. intros Hlo Hhi.
  destruct (lo + 256 * hi <? 32768)%Z eqn:E;
    [apply Z.ltb_lt in E | apply Z.ltb_ge in E]; lia.
Qed.

Lemma list_pair_ind {A} (P : list A → Prop) :
  P [] → (∀ x, P [x]) → (∀ x y l, P l → P (x :: y :: l)) → ∀ l, P l.
Proof.
  intros H0 H1 H2 l. cut (P l ∧ ∀ x, P (x :: l)); [tauto|].
  induction l as [|a l [IH1 IH2]]; split; auto.
Qed.

Lemma int16View_length (bytes : list Z) :
  length (int16View bytes) = (length bytes / 2)%nat.
Proof.
  induction bytes as [|lo|lo hi rest IH] using list_pair_ind;
    [reflexivity | reflexivity|].
  cbn [int16View length]. rewrite IH.
  change (S (S (length rest))) with (2 + length rest)%nat.
  replace (2 + length rest)%nat with (length rest + 1 * 2)%nat by lia.
  rewrite Nat.div_add by lia. lia.
Qed.

Lemma int16View_range (bytes : list Z) :
  Forall isByte bytes → Forall (λ k, (-32768 ≤ k ≤ 32767)%Z) (int16View bytes).
Proof.
  induction bytes as [|lo|lo hi rest IH] using list_pair_ind;
    [constructor | constructor|].
  intros Hb. inversion Hb as [|? ? Hlo Hb']; subst.
  inversion Hb' as [|? ? Hhi Hrest]; subst.
  cbn [int16View]. constructor; [now apply toInt16_range|].
  apply IH. exact Hrest.
Qed.

Lemma decode_samples (pcmData : list Z) (buffer : AudioBuffer) :
  decodePcmToAudioBuffer pcmData = inr buffer →
  sampleRate buffer = 24000
  ∧ channelData buffer = map (λ v, inject_Z v / 32768) (int16View pcmData).
Proof.
  unfold decodePcmToAudioBuffer, createBuffer.
  set (pcm32 := map _ (int16View pcmData)).
  destruct (length pcm32 =? 0)%nat; [discriminate|].
  intros [= <-]. unfold copyToChannel. cbn [sampleRate channelData].
  split; [reflexivity|].
  rewrite length_replicate, firstn_all, drop_replicate.
  replace (length pcm32 - length pcm32)%nat with 0%nat by lia.
  simpl. apply app_nil_r.
Qed.

(** X18.  [decodePcmToAudioBuffer] fails with the audio context's
    [NotSupportedError] on fewer than two bytes.  Otherwise it returns a
    buffer at 24000 Hz with one sample per two bytes (a last odd byte is
    dropped), every sample in [-1, 1), lasting (number of samples) / 24000
    seconds. *)
Theorem decoded_pcm_samples (pcmData : list Z) :
  ((length pcmData < 2)%nat → decodePcmToAudioBuffer pcmData = inl "NotSupportedError")
  ∧ ((2 ≤ length pcmData)%nat → Forall isByte pcmData →
     ∃ buffer, decodePcmToAudioBuffer pcmData = inr buffer
               ∧ sampleRate buffer = 24000
               ∧ length (channelData buffer) = (length pcmData / 2)%nat
               ∧ Forall (λ v, -1 <= v ∧ v < 1) (channelData buffer)
               ∧ duration buffer
                 == inject_Z (Z.of_nat (length pcmData / 2)) / 24000).
Proof.
  split.
  - intros Hlen. destruct pcmData as [|lo [|hi rest]]; [reflexivity | reflexivity|].
    simpl in Hlen. lia.
  - intros Hlen Hbytes.
    assert (Hn : length (int16View pcmData) ≠ 0%nat).
    { rewrite int16View_length.
      assert (1 ≤ length pcmData / 2)%nat by (apply Nat.div_le_lower_bound; lia). lia. }
    destruct (decodePcmToAudioBuffer pcmData) as [e | buffer] eqn:E.
    { exfalso. revert E. unfold decodePcmToAudioBuffer, createBuffer.
      rewrite length_map. apply Nat.eqb_neq in Hn. rewrite Hn. discriminate. }
    destruct (decode_samples _ _ E) as [Hrate Hdata].
    exists buffer. split; [reflexivity|]. split; [exact Hrate|].
    assert (Hl : length (channelData buffer) = (length pcmData / 2)%nat)
      by (rewrite Hdata, length_map; apply int16View_length).
    split; [exact Hl|]. split.
    + rewrite Hdata. apply Forall_forall. intros v Hv.
      apply list_elem_of_fmap in Hv as (k & -> & Hk).
      pose proof (int16View_range pcmData Hbytes) as Hr.
      rewrite Forall_forall in Hr. specialize (Hr k Hk).
      assert (A : inject_Z (-32768) <= inject_Z k) by (rewrite <- Zle_Qle; lia).
      assert (B : inject_Z k <= inject_Z 32767) by (rewrite <- Zle_Qle; lia).
      change (inject_Z (-32768)) with (-32768) in A.
      change (inject_Z 32767) with 32767 in B.
      split.
      * apply Qle_shift_div_l; lra.
      * apply Qlt_shift_div_r; lra.
    + unfold duration. rewrite Hl, Hrate. reflexivity.
Qed.


Lemma setUint16_bytes (v : Q) : Forall isByte (setUint16 v) ∧ length (setUint16 v) = 2%nat.
Proof.
  unfold setUint16, isByte. cbv zeta. set (i := (truncate v mod 65536)%Z).
  assert (0 ≤ i < 65536)%Z by (apply Z.mod_pos_bound; lia).
  split; [|reflexivity].
  assert (i / 256 < 256)%Z by (apply Z.div_lt_upper_bound; lia).
  assert (0 ≤ i / 256)%Z by (apply Z.div_pos; lia).
  pose proof (Z.mod_pos_bound i 256 ltac:(lia)).
  apply Forall_cons; split; [lia|]. apply Forall_cons; split; [lia|]. now apply Forall_nil.
Qed.

Lemma setUint32_bytes (v : Q) : Forall isByte (setUint32 v) ∧ length (setUint32 v) = 4%nat.
Proof.
  unfold setUint32, isByte. cbv zeta. set (i := (truncate v mod 4294967296)%Z).
  assert (0 ≤ i < 4294967296)%Z by (apply Z.mod_pos_bound; lia).
  split; [|reflexivity].
  assert (i / 16777216 < 256)%Z by (apply Z.div_lt_upper_bound; lia).
  assert (0 ≤ i / 16777216)%Z by (apply Z.div_pos; lia).
  pose proof (Z.mod_pos_bound i 256 ltac:(lia)).
  pose proof (Z.mod_pos_bound (i / 256) 256 ltac:(lia)).
  pose proof (Z.mod_pos_bound (i / 65536) 256 ltac:(lia)).
  apply Forall_cons; split; [lia|]. apply Forall_cons; split; [lia|].
  apply Forall_cons; split; [lia|]. apply Forall_cons; split; [lia|]. now apply Forall_nil.
Qed.

Lemma setUint32_value (v : Q) (z : Z) :
  v == inject_Z z → (0 ≤ z < 4294967296)%Z → uint32At 0 (setUint32 v ++ []) = z.
Proof.
  intros Hv Hz. unfold setUint32, uint32At. rewrite (truncate_integer v z Hv).
  rewrite (Z.mod_small z 4294967296) by lia. cbn [app drop take].
  pose proof (Z.div_mod z 256 ltac:(lia)).
  pose proof (Z.div_mod (z / 256) 256 ltac:(lia)).
  pose proof (Z.div_mod (z / 256 / 256) 256 ltac:(lia)).
  replace (z / 65536)%Z with (z / 256 / 256)%Z by (rewrite Z.div_div by lia; reflexivity).
  replace (z / 16777216)%Z with (z / 256 / 256 / 256)%Z
    by (rewrite !Z.div_div by lia; reflexivity).
  lia.
Qed.

Lemma samples_bytes (pcmData : list Q) :
  let payload := concat (map (λ x,
       let s := Qmax (-1) (Qmin 1 x) in
       setInt16 (if Qltb s 0 then s * 32768 else s * 32767)) pcmData) in
  length payload = (2 * length pcmData)%nat ∧ Forall isByte payload.
Proof.
  cbv zeta. induction pcmData as [|x rest [IH1 IH2]]; [split; [reflexivity | constructor]|].
  cbn [map concat]. rewrite length_app, IH1. unfold setInt16.
  destruct (setUint16_bytes (if Qltb (Qmax (-1) (Qmin 1 x)) 0
                             then Qmax (-1) (Qmin 1 x) * 32768
                             else Qmax (-1) (Qmin 1 x) * 32767)) as [Hb Hl].
  rewrite Hl. split; [simpl; lia|]. apply Forall_app. split; assumption.
Qed.

(** X19.  The file [audioBufferToWavBlob] writes has 44 + 2n bytes for n
    samples, each a byte.  It starts with "RIFF", has "WAVEfmt " at offset 8
    and "data" at offset 36, and the format chunk size is 16.  As long as the
    file is shorter than 2^32 bytes, the RIFF size field is the file length
    less 8 and the data size field is the file length less 44. *)
Theorem wav_header_layout (buffer : AudioBuffer) :
  let blob := audioBufferToWavBlob buffer in
  let n := length (channelData buffer) in
  length blob = (44 + 2 * n)%nat
  ∧ Forall isByte blob
  ∧ take 4 blob = writeString "RIFF"
  ∧ take 8 (drop 8 blob) = writeString "WAVEfmt "
  ∧ take 4 (drop 36 blob) = writeString "data"
  ∧ ((44 + 2 * Z.of_nat n < 4294967296)%Z →
     uint32At 4 blob = (Z.of_nat (length blob) - 8)%Z
     ∧ uint32At 40 blob = (Z.of_nat (length blob) - 44)%Z)
  ∧ uint32At 16 blob = 16%Z.
Proof.
  cbv zeta. unfold audioBufferToWavBlob. cbv zeta.
  set (n := inject_Z (Z.of_nat (length (channelData buffer)))).
  destruct (samples_bytes (channelData buffer)) as [Hpl Hpb]. cbv zeta in Hpl, Hpb.
  set (payload := concat _) in *.
  destruct (setUint32_bytes (36 + n * 2)) as [B1 L1].
  destruct (setUint32_bytes 16) as [B2 L2].
  destruct (setUint32_bytes (sampleRate buffer)) as [B3 L3].
  destruct (setUint32_bytes (sampleRate buffer * 2)) as [B4 L4].
  destruct (setUint32_bytes (n * 2)) as [B5 L5].
  destruct (setUint16_bytes 1) as [B6 L6].
  destruct (setUint16_bytes 2) as [B7 L7].
  destruct (setUint16_bytes 16) as [B8 L8].
  assert (Hlen : length (writeString "RIFF" ++ setUint32 (36 + n * 2) ++ writeString "WAVE"
            ++ writeString "fmt " ++ setUint32 16 ++ setUint16 1 ++ setUint16 1
            ++ setUint32 (sampleRate buffer) ++ setUint32 (sampleRate buffer * 2)
            ++ setUint16 2 ++ setUint16 16 ++ writeString "data" ++ setUint32 (n * 2)
            ++ payload) = (44 + 2 * length (channelData buffer))%nat).
  { rewrite !length_app, L1, L2, L3, L4, L5, L6, L7, L8, Hpl. simpl. lia. }
  split; [exact Hlen|]. split.
  { assert (Hs : ∀ s, Forall isByte (writeString s)).
    { intros s. unfold writeString. apply Forall_forall. intros b Hb.
      apply list_elem_of_fmap in Hb as (c & -> & _). unfold isByte.
      pose proof (N_ascii_bounded c). lia. }
    repeat (apply Forall_app; split); try assumption; apply Hs. }
  set (f1 := setUint32 (36 + n * 2)) in *.
  set (f3 := setUint32 (sampleRate buffer)) in *.
  set (f4 := setUint32 (sampleRate buffer * 2)) in *.
  set (f5 := setUint32 (n * 2)) in *.
  destruct f1 as [|a0 [|a1 [|a2 [|a3 [|]]]]] eqn:E1; try discriminate L1.
  destruct f3 as [|c0 [|c1 [|c2 [|c3 [|]]]]] eqn:E3; try discriminate L3.
  destruct f4 as [|d0 [|d1 [|d2 [|d3 [|]]]]] eqn:E4; try discriminate L4.
  destruct f5 as [|e0 [|e1 [|e2 [|e3 [|]]]]] eqn:E5; try discriminate L5.
  split; [reflexivity|]. split; [reflexivity|]. split; [reflexivity|].
  split; [|reflexivity].
  intros Hsmall. rewrite Hlen.
  assert (H4 : uint32At 0 (setUint32 (36 + n * 2) ++ [])
               = (36 + 2 * Z.of_nat (length (channelData buffer)))%Z).
  { apply setUint32_value; [|lia]. unfold n.
    rewrite inject_Z_plus, inject_Z_mult. simpl inject_Z at 1 2. ring. }
  assert (H40 : uint32At 0 (setUint32 (n * 2) ++ [])
                = (2 * Z.of_nat (length (channelData buffer)))%Z).
  { apply setUint32_value; [|lia]. unfold n.
    rewrite inject_Z_mult. simpl inject_Z at 1. ring. }
  fold f1 in H4. fold f5 in H40. rewrite E1 in H4. rewrite E5 in H40.
  split.
  - transitivity (36 + 2 * Z.of_nat (length (channelData buffer)))%Z; [exact H4 | lia].
  - transitivity (2 * Z.of_nat (length (channelData buffer)))%Z; [exact H40 | lia].
Qed.


Lemma toInt16_wrap (k : Z) :
  (-32768 ≤ k ≤ 32767)%Z →
  let i := (k mod 65536)%Z in toInt16 (i mod 256 + 256 * (i / 256)) = k.
Proof.
  intros Hk i. pose proof (Z.div_mod i 256 ltac:(lia)) as Hi.
  replace (i mod 256 + 256 * (i / 256))%Z with i by lia.
  unfold toInt16, i. destruct (Z_lt_dec k 0) as [Hneg | Hpos].
  - assert (E : (k mod 65536 = k + 65536)%Z).
    { symmetry. apply Z.mod_unique with (q := (-1)%Z); lia. }
    rewrite E. destruct (k + 65536 <? 32768)%Z eqn:C;
      [apply Z.ltb_lt in C | apply Z.ltb_ge in C]; lia.
  - rewrite Z.mod_small by lia. destruct (k <? 32768)%Z eqn:C;
      [apply Z.ltb_lt in C | apply Z.ltb_ge in C]; lia.
Qed.

(** One decoded sample written back: a negative or zero sample keeps its
    16-bit value, a positive one comes out one lower. *)
Lemma encode_decoded_sample (k : Z) (rest : list Z) :
  (-32768 ≤ k ≤ 32767)%Z →
  let x := inject_Z k / 32768 in
  let s := Qmax (-1) (Qmin 1 x) in
  int16View (setInt16 (if Qltb s 0 then s * 32768 else s * 32767) ++ rest)
  = (if (0 <? k)%Z then (k - 1)%Z else k) :: int16View rest.
Proof.
  intros Hk x s.
  assert (A : inject_Z (-32768) <= inject_Z k) by (rewrite <- Zle_Qle; lia).
  assert (B : inject_Z k <= inject_Z 32767) by (rewrite <- Zle_Qle; lia).
  change (inject_Z (-32768)) with (-32768) in A.
  change (inject_Z 32767) with 32767 in B.
  assert (Hx : x * 32768 == inject_Z k) by (unfold x; field).
  assert (Hs : s == x).
  { unfold s. destruct (Q.max_spec (-1) (Qmin 1 x)) as [[H1 H2] | [H1 H2]];
    destruct (Q.min_spec 1 x) as [[H3 H4] | [H3 H4]]; lra. }
  assert (Hout : ∀ v z, truncate v = z → (-32768 ≤ z ≤ 32767)%Z →
            int16View (setInt16 v ++ rest) = z :: int16View rest).
  { intros v z Hv Hz. unfold setInt16, setUint16. rewrite Hv.
    cbn [app int16View]. f_equal. now apply toInt16_wrap. }
  destruct (Qltb s 0) eqn:E; [apply Qltb_lt in E | apply Qltb_ge in E].
  - assert (Hneg : (k < 0)%Z).
    { rewrite Zlt_Qlt. change (inject_Z 0) with 0. lra. }
    replace (0 <? k)%Z with false by (symmetry; apply Z.ltb_ge; lia).
    apply Hout; [|lia]. apply truncate_integer. rewrite Hs. exact Hx.
  - assert (Hpos : (0 ≤ k)%Z).
    { rewrite Zle_Qle. change (inject_Z 0) with 0. lra. }
    destruct (0 <? k)%Z eqn:C; [apply Z.ltb_lt in C | apply Z.ltb_ge in C].
    + apply Hout; [|lia]. unfold truncate.
      assert (Hm : inject_Z (k - 1) == inject_Z k - 1)
        by (unfold Z.sub; rewrite inject_Z_plus; reflexivity).
      assert (Hp : inject_Z (k - 1 + 1) == inject_Z k)
        by (replace (k - 1 + 1)%Z with k by lia; reflexivity).
      assert (C' : 1 <= inject_Z k).
      { change 1 with (inject_Z 1). rewrite <- Zle_Qle. lia. }
      assert (Qltb (s * 32767) 0 = false) as -> by (apply Qltb_ge; lra).
      apply Qfloor_unique; lra.
    + assert (k = 0%Z) by lia. subst k.
      apply Hout; [|lia]. apply truncate_integer.
      change (inject_Z 0) with 0 in *. lra.
Qed.

(** X20.  Decoding 16-bit PCM and writing the buffer as WAV does not give the
    samples back: in the data of the file every positive sample is one
    lower, and the samples that are zero or negative are as they were. *)
Theorem wav_of_decoded_pcm (pcmData : list Z) (buffer : AudioBuffer) :
  Forall isByte pcmData →
  decodePcmToAudioBuffer pcmData = inr buffer →
  int16View (drop 44 (audioBufferToWavBlob buffer))
  = map (λ k, if (0 <? k)%Z then (k - 1)%Z else k) (int16View pcmData).
Proof.
  intros Hbytes Hdec. destruct (decode_samples _ _ Hdec) as [_ Hdata].
  pose proof (int16View_range pcmData Hbytes) as Hr.
  unfold audioBufferToWavBlob. cbv zeta. rewrite Hdata.
  set (n := inject_Z _).
  destruct (setUint32_bytes (36 + n * 2)) as [_ L1].
  destruct (setUint32_bytes 16) as [_ L2].
  destruct (setUint32_bytes (sampleRate buffer)) as [_ L3].
  destruct (setUint32_bytes (sampleRate buffer * 2)) as [_ L4].
  destruct (setUint32_bytes (n * 2)) as [_ L5].
  set (f1 := setUint32 (36 + n * 2)) in *.
  set (f3 := setUint32 (sampleRate buffer)) in *.
  set (f4 := setUint32 (sampleRate buffer * 2)) in *.
  set (f5 := setUint32 (n * 2)) in *.
  destruct f1 as [|a0 [|a1 [|a2 [|a3 [|]]]]]; try discriminate L1.
  destruct f3 as [|c0 [|c1 [|c2 [|c3 [|]]]]]; try discriminate L3.
  destruct f4 as [|d0 [|d1 [|d2 [|d3 [|]]]]]; try discriminate L4.
  destruct f5 as [|e0 [|e1 [|e2 [|e3 [|]]]]]; try discriminate L5.
  change (drop 44 _) with
    (concat (map (λ x, let s := Qmax (-1) (Qmin 1 x) in
                       setInt16 (if Qltb s 0 then s * 32768 else s * 32767))
               (map (λ v, inject_Z v / 32768) (int16View pcmData)))).
  clear -Hr. induction Hr as [|k ks Hk _ IH]; [reflexivity|].
  cbn [map concat]. rewrite <- IH.
  apply (encode_decoded_sample k _ Hk).
Qed.

Lemma copyBuffers_concat (buffers : list AudioBuffer) :
  ∀ (done : list Q) (room : nat),
    room = length (concat (map channelData buffers)) →
    copyBuffers buffers (done ++ replicate room 0) (length done)
    = inr (done ++ concat (map channelData buffers)).
Proof.
  induction buffers as [|b rest IH]; intros done room Hroom.
  - simpl in *. subst room. reflexivity.
  - cbn [copyBuffers map concat] in *. rewrite length_app in Hroom.
    unfold typedArraySet. rewrite length_app, length_replicate.
    assert (C : (length done + room <? length done + length (channelData b))%nat = false)
      by (apply Nat.ltb_ge; lia).
    rewrite C. rewrite take_app_length.
    rewrite drop_app_ge by lia. rewrite drop_replicate.
    replace (length done + length (channelData b) - length done)%nat
      with (length (channelData b)) by lia.
    specialize (IH (done ++ channelData b)
                   (room - length (channelData b))%nat ltac:(lia)).
    rewrite length_app, <- !app_assoc in IH. exact IH.
Qed.

(** X21.  [combineAudioBuffers] of no buffer is one sample of silence at the
    context's rate.  Of buffers that hold at least one sample in all, it is
    the samples of the buffers one after the other in list order, at the
    context's rate, as long as the lengths together. *)
Theorem combined_audio_is_the_concatenation (contextSampleRate : Q)
    (buffers : list AudioBuffer) :
  combineAudioBuffers contextSampleRate [] =
    inr {| sampleRate := contextSampleRate; channelData := [0] |}
  ∧ (concat (map channelData buffers) ≠ [] →
     ∃ combined,
       combineAudioBuffers contextSampleRate buffers = inr combined
       ∧ sampleRate combined = contextSampleRate
       ∧ channelData combined = concat (map channelData buffers)
       ∧ length (channelData combined)
         = foldr (λ b total, (length (channelData b) + total)%nat) 0%nat buffers).
Proof.
  split; [reflexivity|]. intros Hne.
  unfold combineAudioBuffers.
  destruct buffers as [|b0 rest]; [done|].
  set (buffers := b0 :: rest) in *. cbn [length Nat.eqb].
  assert (Htotal : ∀ bs acc,
            foldl (λ sum buffer, (sum + length (channelData buffer))%nat) acc bs
            = (acc + length (concat (map channelData bs)))%nat).
  { induction bs as [|b bs IHb]; intros acc; simpl; [lia|].
    rewrite IHb, length_app. lia. }
  rewrite Htotal. cbn [Nat.add]. unfold createBuffer.
  destruct (length (concat (map channelData buffers))) as [|m] eqn:El.
  { destruct (concat (map channelData buffers)); [done | discriminate]. }
  cbn [Nat.eqb sampleRate channelData].
  pose proof (copyBuffers_concat buffers [] (S m) (eq_sym El)) as Hcopy.
  cbn [app length] in Hcopy. rewrite Hcopy.
  eexists. split; [reflexivity|]. cbn [sampleRate channelData].
  split; [reflexivity|]. split; [reflexivity|].
  clear. induction buffers as [|b bs IHb]; [reflexivity|].
  cbn [map concat foldr]. rewrite length_app, IHb. reflexivity.
Qed.

End AudioAssembly.

(** Three samples through decoding and the WAV writer: the positive one
    comes out one lower. *)
Lemma wav_of_decoded_pcm_witness :
  ∃ buffer,
    AudioProcessingService.decodePcmToAudioBuffer samplePcm = inr buffer
    ∧ AudioProcessingService.int16View
        (drop 44 (AudioProcessingService.audioBufferToWavBlob buffer))
      = [0; -1; -32768]%Z.
Proof.
  destruct (AudioProcessingService.decodePcmToAudioBuffer samplePcm) as [e | buffer] eqn:E;
    [vm_compute in E; discriminate|].
  exists buffer. split; [reflexivity|].
  rewrite (wav_of_decoded_pcm samplePcm buffer).
  - reflexivity.
  - unfold samplePcm, AudioProcessingService.isByte. repeat constructor; lia.
  - exact E.
Defined.

Section Chunking.

Import TextChunking.

Lemma trimStart_split (s : list N) :
  ∃ ws, s = ws ++ trimStart s ∧ Forall (λ c, isWhiteSpace c = true) ws.
Proof.
  induction s as [|c s (ws & Hs & Hws)]; [exists []; split; [reflexivity | constructor]|].
  simpl. destruct (isWhiteSpace c) eqn:E.
  - exists (c :: ws). split; [simpl; now f_equal | now constructor].
  - exists []. split; [reflexivity | constructor].
Qed.

Lemma trimStart_head (s : list N) (c : N) (rest : list N) :
  trimStart s = c :: rest → isWhiteSpace c = false.
Proof.
  induction s as [|a s IH]; [discriminate|]. simpl.
  destruct (isWhiteSpace a) eqn:E; [exact IH|]. now intros [= <- _].
Qed.

Lemma trimStart_fixed (s : list N) :
  (∀ c rest, s = c :: rest → isWhiteSpace c = false) → trimStart s = s.
Proof.
  destruct s as [|c rest]; [reflexivity|]. intros H. simpl.
  now rewrite (H c rest eq_refl).
Qed.

Lemma length_trimStart (s : list N) : (length (trimStart s) ≤ length s)%nat.
Proof.
  destruct (trimStart_split s) as (ws & Hs & _).
  rewrite Hs at 2. rewrite length_app. lia.
Qed.

Lemma length_trim (s : list N) : (length (trim s) ≤ length s)%nat.
Proof.
  unfold trim. rewrite length_rev.
  pose proof (length_trimStart (rev (trimStart s))) as H1.
  rewrite length_rev in H1. pose proof (length_trimStart s). lia.
Qed.

Lemma inked_app (a b : list N) : inked (a ++ b) = inked a ++ inked b.
Proof. apply filter_app. Qed.

Lemma inked_rev (s : list N) : inked (rev s) = rev (inked s).
Proof.
  induction s as [|c s IH]; [reflexivity|].
  cbn [rev]. change (inked (c :: s)) with (inked ([c] ++ s)).
  rewrite !inked_app, rev_app_distr, IH. f_equal.
  unfold inked. destruct (decide (isWhiteSpace c = false)) as [E | E].
  - now rewrite filter_cons_True.
  - now rewrite filter_cons_False.
Qed.

Lemma inked_whitespace (ws : list N) :
  Forall (λ c, isWhiteSpace c = true) ws → inked ws = [].
Proof.
  induction 1 as [|c ws Hc _ IH]; [reflexivity|].
  unfold inked. rewrite filter_cons_False by congruence. exact IH.
Qed.

Lemma inked_trimStart (s : list N) : inked (trimStart s) = inked s.
Proof.
  destruct (trimStart_split s) as (ws & Hs & Hws).
  transitivity (inked (ws ++ trimStart s)); [|now rewrite <- Hs].
  rewrite inked_app, (inked_whitespace ws Hws). reflexivity.
Qed.

Lemma inked_trim (s : list N) : inked (trim s) = inked s.
Proof.
  unfold trim. rewrite inked_rev, inked_trimStart, inked_rev, rev_involutive.
  apply inked_trimStart.
Qed.

Lemma trim_idem (s : list N) : trimmed (trim s).
Proof.
  unfold trimmed, trim. set (t := trimStart s). set (u := trimStart (rev t)).
  assert (A : trimStart (rev u) = rev u).
  { apply trimStart_fixed. intros c rest Hc.
    destruct (trimStart_split (rev t)) as (ws & Ht & _). fold u in Ht.
    assert (Ht' : t = rev u ++ rev ws).
    { rewrite <- (rev_involutive t), Ht, rev_app_distr. reflexivity. }
    rewrite Hc in Ht'. simpl in Ht'. exact (trimStart_head s c _ Ht'). }
  rewrite A, rev_involutive. f_equal.
  apply trimStart_fixed. intros c rest Hc. exact (trimStart_head (rev t) c rest Hc).
Qed.

Lemma trim_nil : trim [] = [].
Proof. reflexivity. Qed.

Lemma startsWith_length (p s : list N) :
  startsWith p s = true → (length p ≤ length s)%nat.
Proof.
  revert s. induction p as [|a p IH]; intros s; [simpl; lia|].
  destruct s as [|b s]; [discriminate|]. simpl.
  intros H. apply andb_true_iff in H as [_ H]. apply IH in H. lia.
Qed.

Lemma lastIndexOf_bound (s p : list N) (i : nat) :
  lastIndexOf s p = Some i → (i + length p ≤ length s)%nat.
Proof.
  unfold lastIndexOf. intros H. apply last_Some in H as [l' H].
  assert (Hi : i ∈ filter (λ i, startsWith p (drop i s) = true) (seq 0 (S (length s)))).
  { rewrite H. apply elem_of_app. right. now left. }
  apply list_elem_of_filter in Hi as [Hp Hi].
  apply startsWith_length in Hp. rewrite length_drop in Hp.
  apply elem_of_seq in Hi. lia.
Qed.

Lemma lastIndexOf_nil (p : list N) : p ≠ [] → lastIndexOf [] p = None.
Proof. destruct p; [done|]. reflexivity. Qed.

Lemma lastSentenceEnd_bound (chunk : list N) (e : nat) :
  lastSentenceEnd chunk = Some e → (e + 1 ≤ length chunk)%nat.
Proof.
  unfold lastSentenceEnd.
  assert (Hinv : ∀ ps o,
            Forall (λ p, (1 ≤ length p)%nat) ps →
            (∀ e, o = Some e → (e + 1 ≤ length chunk)%nat) →
            ∀ e, foldl (λ (lastSentenceEnd : option nat) p,
                   match lastIndexOf chunk p with
                   | Some index =>
                       match lastSentenceEnd with
                       | Some e => if (e <? index)%nat
                                   then Some (index + length p - 1)%nat
                                   else lastSentenceEnd
                       | None => Some (index + length p - 1)%nat
                       end
                   | None => lastSentenceEnd
                   end) o ps = Some e → (e + 1 ≤ length chunk)%nat).
  { induction ps as [|p ps IH]; intros o Hps Ho; [exact Ho|].
    inversion Hps as [|? ? Hp Hps']; subst. simpl. apply IH; [exact Hps'|].
    intros e'. destruct (lastIndexOf chunk p) as [index|] eqn:Ei; [|apply Ho].
    apply lastIndexOf_bound in Ei.
    destruct o as [e0|].
    - destruct (e0 <? index)%nat; [|apply Ho]. intros [= <-]. lia.
    - intros [= <-]. lia. }
  apply Hinv; [|discriminate].
  unfold sentenceEndings. repeat constructor.
Qed.

Lemma splitIndex_bounds (chunk : list N) (maxLength : nat) :
  (1 ≤ maxLength)%nat → (length chunk ≤ maxLength)%nat →
  (1 ≤ splitIndex chunk maxLength ≤ maxLength)%nat.
Proof.
  intros Hm Hc. unfold splitIndex.
  destruct (lastSentenceEnd chunk) as [e|] eqn:E.
  - apply lastSentenceEnd_bound in E. lia.
  - destruct (lastIndexOf chunk [32%N]) as [i|] eqn:Ei; [|lia].
    apply lastIndexOf_bound in Ei. simpl in Ei. lia.
Qed.

Lemma chunkLoop_more_fuel (maxLength : nat) (fuel : nat) :
  ∀ remainingText chunks out,
    chunkLoop fuel maxLength remainingText chunks = Some out →
    ∀ fuel', (fuel ≤ fuel')%nat →
      chunkLoop fuel' maxLength remainingText chunks = Some out.
Proof.
  induction fuel as [|fuel IH]; intros r chunks out H fuel' Hle; [discriminate|].
  destruct fuel' as [|fuel']; [lia|]. simpl in *.
  destruct (0 <? length r)%nat; [|exact H].
  destruct (length r <=? maxLength)%nat; [exact H|].
  eapply IH; [exact H | lia].
Qed.

(** The loop leaves with pieces that are trimmed, no longer than
    [maxLength], and hold the ink of the text in order. *)
Lemma chunkLoop_spec (maxLength : nat) :
  (1 ≤ maxLength)%nat →
  ∀ fuel remainingText chunks,
    (length remainingText < fuel)%nat → trimmed remainingText →
    ∃ out, chunkLoop fuel maxLength remainingText chunks = Some (chunks ++ out)
           ∧ Forall (λ c, (length c ≤ maxLength)%nat ∧ trimmed c) out
           ∧ inked (concat out) = inked remainingText.
Proof.
  intros Hm. induction fuel as [|fuel IH]; intros r chunks Hfuel Htrim; [lia|].
  simpl. destruct (0 <? length r)%nat eqn:E0.
  2: { apply Nat.ltb_ge in E0. destruct r; [|simpl in E0; lia].
       exists []. rewrite app_nil_r. split; [reflexivity|].
       split; [constructor | reflexivity]. }
  destruct (length r <=? maxLength)%nat eqn:E1.
  { apply Nat.leb_le in E1. exists [r]. split; [reflexivity|]. split.
    - constructor; [split; assumption | constructor].
    - simpl. now rewrite app_nil_r. }
  apply Nat.leb_gt in E1.
  set (k := splitIndex (take maxLength r) maxLength).
  assert (Hk : (1 ≤ k ≤ maxLength)%nat).
  { apply splitIndex_bounds; [exact Hm|]. rewrite length_take. lia. }
  destruct (IH (trim (drop k r)) (chunks ++ [trim (take k r)])) as (out & Hrun & Hall & Hink).
  { pose proof (length_trim (drop k r)) as H. rewrite length_drop in H. lia. }
  { apply trim_idem. }
  exists (trim (take k r) :: out). split.
  - rewrite Hrun, <- app_assoc. reflexivity.
  - split.
    + constructor; [|exact Hall]. split; [|apply trim_idem].
      pose proof (length_trim (take k r)) as H. rewrite length_take in H. lia.
    + simpl. rewrite inked_app, Hink, !inked_trim, <- inked_app, take_drop.
      reflexivity.
Qed.

(** X22.  For a maximum length of at least 1, [smartChunking] returns, its
    loop ending within (length of the text) + 1 turns.  Every chunk has between
    1 and [maxLength] code units and neither starts nor ends with white
    space; the chunks read one after the other hold the characters of the
    text other than white space, in order, nothing lost or added.  A text
    that fits after trimming is returned as one chunk, a blank one as no
    chunk. *)
Theorem smartChunking_pieces (text : list N) (maxLength : nat) :
  (1 ≤ maxLength)%nat →
  ∃ chunks,
    (∀ fuel, (length text < fuel)%nat → smartChunking fuel text maxLength = Some chunks)
    ∧ Forall (λ c, (1 ≤ length c ≤ maxLength)%nat ∧ trimmed c) chunks
    ∧ inked (concat chunks) = inked text
    ∧ ((length (trim text) ≤ maxLength)%nat →
       chunks = if (0 <? length (trim text))%nat then [trim text] else []).
Proof.
  intros Hm.
  destruct (chunkLoop_spec maxLength Hm (S (length text)) (trim text) [])
    as (out & Hrun & Hall & Hink).
  { pose proof (length_trim text). lia. }
  { apply trim_idem. }
  cbn [app] in Hrun.
  exists (filter (λ c, (0 < length c)%nat) out). split_and!.
  - intros fuel Hfuel. unfold smartChunking.
    rewrite (chunkLoop_more_fuel maxLength _ _ _ _ Hrun fuel) by lia. reflexivity.
  - apply Forall_forall. intros c Hc. apply list_elem_of_filter in Hc as [Hpos Hc].
    rewrite Forall_forall in Hall. destruct (Hall c Hc) as [Hle Ht].
    split; [lia | exact Ht].
  - rewrite <- (inked_trim text), <- Hink. clear.
    induction out as [|c out IH]; [reflexivity|].
    destruct (decide (0 < length c)%nat) as [Hc | Hc].
    + rewrite filter_cons_True by exact Hc. simpl. rewrite !inked_app. now f_equal.
    + rewrite filter_cons_False by exact Hc. simpl. rewrite inked_app, IH.
      destruct c; [reflexivity | simpl in Hc; lia].
  - intros Hshort. revert Hrun. simpl.
    destruct (0 <? length (trim text))%nat eqn:E0.
    + apply Nat.leb_le in Hshort. rewrite Hshort. intros [= <-].
      rewrite filter_cons_True by (apply Nat.ltb_lt in E0; exact E0). reflexivity.
    + intros [= <-]. reflexivity.
Qed.

Lemma chunkLoop_zero_stuck (r : list N) :
  r ≠ [] → trimmed r → ∀ fuel chunks, chunkLoop fuel 0 r chunks = None.
Proof.
  intros Hne Htrim. induction fuel as [|fuel IH]; intros chunks; [reflexivity|].
  destruct r as [|c rest]; [done|].
  cbn [chunkLoop length Nat.ltb Nat.leb take].
  change (splitIndex [] 0) with 0%nat. cbn [drop].
  unfold trimmed in Htrim. rewrite Htrim. apply IH.
Qed.

(** X23.  With a maximum length of 0, [smartChunking] never leaves its loop on
    a text that is not blank: no number of turns gives a result. *)
Theorem smartChunking_zero_never_returns (text : list N) :
  inked text ≠ [] → ∀ fuel, smartChunking fuel text 0 = None.
Proof.
  intros Hink fuel. unfold smartChunking.
  assert (Hne : trim text ≠ []).
  { intros E. apply Hink. rewrite <- inked_trim, E. reflexivity. }
  now rewrite (chunkLoop_zero_stuck (trim text) Hne (trim_idem text)).
Qed.

End Chunking.

(** ["Hi. Yo"] in pieces of at most four code units: ["Hi."] and ["Yo"]. *)
Lemma smartChunking_pieces_witness :
  ∃ chunks,
    TextChunking.smartChunking 7 sampleText 4 = Some chunks
    ∧ Forall (λ c, (1 ≤ length c ≤ 4)%nat ∧ TextChunking.trimmed c) chunks
    ∧ TextChunking.inked (concat chunks) = TextChunking.inked sampleText.
Proof.
  destruct (smartChunking_pieces sampleText 4) as (chunks & Hrun & Hall & Hink & _);
    [lia|].
  exists chunks. split; [|split; [exact Hall | exact Hink]].
  apply Hrun. simpl. lia.
Defined.

(** One letter and a maximum length of 0: no result after five turns of
    the loop. *)
Lemma smartChunking_zero_never_returns_witness :
  TextChunking.smartChunking 5 oneLetter 0 = None.
Proof.
  apply (smartChunking_zero_never_returns oneLetter).
  intros H. vm_compute in H. discriminate.
Defined.

Section TranslationContract.

Import Translation.

Context {Item : Type} (oracle : Oracle (ResponseText Item))
        (ofText : string → Item) (prompt : list string → string).

(** X24.  With the API key set, [translateBatch] returns the empty list for no
    segment, and for en-US the segment texts as they are, both without a
    call; for another language without a style guide it fails without a call.
    Whatever it returns has one item per segment, and a run makes at most two
    calls, all to [gemini-2.5-flash]. *)
Theorem translateBatch_contract (styleGuide : bool) (segments : list Segment)
    (langCode : string) (s : Session) :
  let run := translateBatch oracle ofText prompt true styleGuide segments langCode s in
  (segments = [] → run = (s, inr []))
  ∧ (segments ≠ [] → langCode = "en-US" →
     run = (s, inr (map (λ x, ofText (seg_text x)) segments)))
  ∧ (segments ≠ [] → langCode ≠ "en-US" → styleGuide = false →
     run = (s, inl ("No translation style guide found for language code: " +:+ langCode)))
  ∧ (∀ result, run.2 = inr result → length result = length segments)
  ∧ (∃ k, (k ≤ 2)%nat ∧ calls run.1 = (calls s + k)%nat
          ∧ modelsCalled run.1 = modelsCalled s ++ replicate k "gemini-2.5-flash").
Proof.
  intros run. subst run. unfold translateBatch. cbn [negb].
  assert (H0 : ∃ k, (k ≤ 2)%nat ∧ calls s = (calls s + k)%nat
                    ∧ modelsCalled s = modelsCalled s ++ replicate k "gemini-2.5-flash").
  { exists 0%nat. rewrite app_nil_r. split; [lia|]. split; [lia | reflexivity]. }
  destruct segments as [|seg rest].
  { cbn [length Nat.eqb]. split_and!; [done | done | done | | exact H0].
    cbn [snd]. intros result [= <-]. reflexivity. }
  cbn [length Nat.eqb].
  destruct (decide (langCode = "en-US")) as [Hen | Hen].
  { split_and!; [done | done | done | | exact H0].
    cbn [snd]. intros result [= <-]. cbn [length]. f_equal. apply length_map. }
  destruct styleGuide; cbn [negb].
  2: { split_and!; [done | done | done | discriminate | exact H0]. }
  set (request := {| req_parts := [TextPart (prompt (map seg_text (seg :: rest)))] |}).
  pose proof (withRetriesAndFallbacks_spec oracle request
                GeminiService.ALL_TEXT_MODELS 2 s) as Hspec.
  cbv zeta in Hspec.
  assert (Hcost : ∃ k, (k ≤ 2)%nat
            ∧ calls (withRetriesAndFallbacks
                       (λ model, generateContent oracle model request)
                       GeminiService.ALL_TEXT_MODELS 2 s).1 = (calls s + k)%nat
            ∧ modelsCalled (withRetriesAndFallbacks
                       (λ model, generateContent oracle model request)
                       GeminiService.ALL_TEXT_MODELS 2 s).1
              = modelsCalled s ++ replicate k "gemini-2.5-flash").
  { destruct (firstResponse _ _ _ _) as [[j r]|] eqn:E.
    - apply firstResponse_bound in E. change (length _) with 2%nat in E.
      destruct Hspec as (_ & Hc & Hm & _). exists (S j). split; [lia|].
      split; [exact Hc|]. rewrite Hm. f_equal.
      destruct j as [|[|j]]; [reflexivity | reflexivity | lia].
    - destruct Hspec as (_ & Hc & Hm & _). exists 2%nat. split; [lia|].
      split; [exact Hc | exact Hm]. }
  clear Hspec.
  destruct (withRetriesAndFallbacks _ _ _ _) as [s1 [message | response]];
    cbn [fst] in Hcost.
  { split_and!; [done | done | done | discriminate | exact Hcost]. }
  destruct response as [e | [te | pl] | parsed].
  - split_and!; [done | done | done | discriminate | exact Hcost].
  - split_and!; [done | done | done | discriminate | exact Hcost].
  - split_and!; [done | done | done | discriminate | exact Hcost].
  - destruct (length parsed =? S (length rest))%nat eqn:El; cbn [negb fst snd].
    + split_and!; [done | done | done | | exact Hcost].
      intros result [= <-]. now apply Nat.eqb_eq in El.
    + split_and!; [done | done | done | discriminate | exact Hcost].
Qed.

End TranslationContract.

Section MergedSegments.

Import LongTextToAudioPanel.
Local Open Scope Q_scope.

Lemma append_assoc (a b c : string) : (a +:+ b) +:+ c = a +:+ (b +:+ c).
Proof.
  induction a as [|ch a IH]; [reflexivity|].
  change (String ch ((a +:+ b) +:+ c) = String ch (a +:+ b +:+ c)). now rewrite IH.
Qed.

Lemma join_cons2 (sep x y : string) (l : list string) :
  join sep (x :: y :: l) = x +:+ sep +:+ join sep (y :: l).
Proof. reflexivity. Qed.

(** Joining is blind to two neighbours having been glued with the
    separator. *)
Lemma join_glue (sep : string) (l1 : list string) (x y : string) (l2 : list string) :
  join sep (l1 ++ (x +:+ sep +:+ y) :: l2) = join sep (l1 ++ x :: y :: l2).
Proof.
  induction l1 as [|a l1 IH].
  - cbn [app]. rewrite join_cons2. destruct l2 as [|z l2].
    + reflexivity.
    + rewrite !join_cons2, !append_assoc. reflexivity.
  - destruct l1 as [|b l1].
    + cbn [app] in *. rewrite !join_cons2. now rewrite IH.
    + cbn [app] in *. rewrite !join_cons2. now rewrite IH.
Qed.

Lemma scriptOf_glue (l1 : list Segment) (a s : Segment) (l2 : list Segment) :
  scriptOf (l1 ++ {| seg_start := seg_start a; seg_end := seg_end s;
                     seg_text := seg_text a +:+ " " +:+ seg_text s |} :: l2)
  = scriptOf (l1 ++ a :: s :: l2).
Proof.
  unfold scriptOf. rewrite !map_app. cbn [map seg_text]. apply join_glue.
Qed.

(** What the loop has in hand: the merged segments, the accumulator, and
    the segments still to come. *)
Lemma mergeLoop_spec (targetDuration : Q) (segments : list Segment) :
  ∀ accumulator mergedSegments,
    let pending := flush accumulator mergedSegments ++ segments in
    let result := mergeLoop targetDuration segments accumulator mergedSegments in
    scriptOf result = scriptOf pending
    ∧ (length result ≤ length pending)%nat
    ∧ seg_start <$> head result = seg_start <$> head pending
    ∧ seg_end <$> last result = seg_end <$> last pending.
Proof.
  induction segments as [|segment rest IH]; intros accumulator mergedSegments.
  - cbn [mergeLoop]. rewrite app_nil_r. done.
  - cbn [mergeLoop]. cbv zeta.
    destruct (Qleb targetDuration (seg_end segment - seg_start segment)).
    { specialize (IH None (flush accumulator mergedSegments ++ [segment])).
      cbv zeta in IH. cbn [flush] in IH. rewrite <- !app_assoc in IH. exact IH. }
    destruct accumulator as [a|]; cbn [flush].
    + set (acc := {| seg_start := seg_start a; seg_end := seg_end segment;
                     seg_text := seg_text a +:+ " " +:+ seg_text segment |}).
      assert (Hglue : scriptOf (mergedSegments ++ acc :: rest)
                      = scriptOf ((mergedSegments ++ [a]) ++ segment :: rest)).
      { rewrite <- app_assoc. apply scriptOf_glue. }
      assert (Hhead : seg_start <$> head (mergedSegments ++ acc :: rest)
                      = seg_start <$> head ((mergedSegments ++ [a]) ++ segment :: rest)).
      { destruct mergedSegments; reflexivity. }
      assert (Hlast : seg_end <$> last (mergedSegments ++ acc :: rest)
                      = seg_end <$> last ((mergedSegments ++ [a]) ++ segment :: rest)).
      { rewrite <- app_assoc. cbn [app].
        rewrite !last_app. destruct rest as [|r rest']; [reflexivity|].
        cbn [last]. rewrite !last_cons. reflexivity. }
      assert (Hlen : (length (mergedSegments ++ acc :: rest)
                      ≤ length ((mergedSegments ++ [a]) ++ segment :: rest))%nat).
      { rewrite !length_app. simpl. lia. }
      destruct (Qleb targetDuration (seg_end acc - seg_start acc)).
      * specialize (IH None (mergedSegments ++ [acc])). cbv zeta in IH.
        cbn [flush] in IH. rewrite <- app_assoc in IH. cbn [app] in IH.
        destruct IH as (I1 & I2 & I3 & I4).
        split_and!; [congruence | lia | congruence | congruence].
      * specialize (IH (Some acc) mergedSegments). cbv zeta in IH.
        cbn [flush] in IH. rewrite <- app_assoc in IH. cbn [app] in IH.
        destruct IH as (I1 & I2 & I3 & I4).
        split_and!; [congruence | lia | congruence | congruence].
    + destruct (Qleb targetDuration (seg_end segment - seg_start segment)).
      * specialize (IH None (mergedSegments ++ [segment])). cbv zeta in IH.
        cbn [flush] in IH. rewrite <- app_assoc in IH. exact IH.
      * specialize (IH (Some segment) mergedSegments). cbv zeta in IH.
        cbn [flush] in IH. rewrite <- app_assoc in IH. exact IH.
Qed.

(** X25.  [mergeSegments] keeps the script: the texts joined by single spaces
    read the same before and after.  It never returns more segments than it
    was given, and at least one when it was given one; the first start and the last end are kept;
    and a target duration of 0 or less returns the segments as they are. *)
Theorem mergeSegments_keeps_the_script (segments : list Segment) (targetDuration : Q) :
  let merged := mergeSegments segments targetDuration in
  scriptOf merged = scriptOf segments
  ∧ (length merged ≤ length segments)%nat
  ∧ (segments ≠ [] → merged ≠ [])
  ∧ seg_start <$> head merged = seg_start <$> head segments
  ∧ seg_end <$> last merged = seg_end <$> last segments
  ∧ (targetDuration <= 0 → merged = segments).
Proof.
  cbv zeta. unfold mergeSegments.
  destruct segments as [|s0 rest].
  { cbn. split_and!; done. }
  cbn [length Nat.eqb orb].
  destruct (Qleb targetDuration 0) eqn:E.
  { split_and!; done. }
  apply Qleb_gt in E.
  destruct (mergeLoop_spec targetDuration (s0 :: rest) None []) as (H1 & H2 & H3 & H4).
  cbn [flush app] in *.
  split_and!; try assumption.
  - intros _ Hnil. rewrite Hnil in H3. discriminate.
  - intros Hle. lra.
Qed.

End MergedSegments.

Section PlainText.

Import LongTextToAudioPanel.
Local Open Scope Q_scope.






End PlainText.

Section KeyboardFacts.

Variable toLowerCase : string → string.

Lemma placed_allPanelsInOrder (chapters : list Chapter) :
  map placed (allPanelsInOrder chapters) = allPanels chapters.
Proof.
  unfold allPanelsInOrder, allPanels.
  induction chapters as [|c cs IH]; [reflexivity|].
  cbn [map concat]. rewrite map_app, IH. f_equal.
  induction (stitchedPages c) as [|p ps IHp]; [reflexivity|].
  cbn [map concat]. rewrite map_app, IHp. f_equal.
  rewrite map_map. apply map_id.
Qed.

Lemma length_allPanelsInOrder (chapters : list Chapter) :
  length (allPanelsInOrder chapters) = length (allPanels chapters).
Proof. now rewrite <- placed_allPanelsInOrder, length_map. Qed.

Lemma filter_ext_in {A} (P Q : A → Prop) `{!∀ x, Decision (P x)} `{!∀ x, Decision (Q x)}
    (l : list A) :
  (∀ x, x ∈ l → (P x ↔ Q x)) → filter P l = filter Q l.
Proof.
  induction l as [|x l IH]; intros Hext; [reflexivity|].
  assert (Hl : filter P l = filter Q l)
    by (apply IH; intros y Hy; apply Hext; now right).
  destruct (decide (P x)) as [HP | HP].
  - rewrite filter_cons_True by exact HP.
    rewrite filter_cons_True by (apply Hext; [now left | exact HP]). now rewrite Hl.
  - rewrite filter_cons_False by exact HP.
    rewrite filter_cons_False by (intros HQ; apply HP, Hext; [now left | exact HQ]).
    exact Hl.
Qed.

(** With distinct keys, filtering out the key of the [k]-th element removes
    that element and nothing else. *)
Lemma filter_delete_unique {A B} `{EqDecision B} (f : A → B) (l : list A) :
  ∀ (k : nat) (x : A),
    NoDup (map f l) → l !! k = Some x →
    filter (λ y, f y ≠ f x) l = delete k l.
Proof.
  induction l as [|a l IH]; intros k x Hnd Hk; [discriminate|].
  cbn [map] in Hnd. apply NoDup_cons in Hnd as [Ha Hnd].
  destruct k as [|k].
  - injection Hk as ->. rewrite filter_cons_False by (intros Hx; now apply Hx).
    change (delete 0 (x :: l)) with l. apply filter_all, Forall_forall. intros y Hy Heq.
    apply Ha. rewrite <- Heq. now apply list_elem_of_fmap_2.
  - change (l !! k = Some x) in Hk.
    assert (Hne : f a ≠ f x).
    { intros Heq. apply Ha. rewrite Heq. apply list_elem_of_fmap_2.
      eapply list_elem_of_lookup_2. exact Hk. }
    rewrite filter_cons_True by exact Hne.
    change (delete (S k) (a :: l)) with (a :: delete k l). f_equal.
    now apply IH.
Qed.

Lemma identOf_page (cid : string) (page : StitchedPageAnalysis) (ps : list Panel) :
  map identOf (map (λ panel, {| placed := panel; page_id := stitch_id page;
                                placed_chapter_id := cid |}) ps)
  = map (λ i, (i, stitch_id page)) (map panel_id ps).
Proof. rewrite !map_map. reflexivity. Qed.

Lemma filter_placed (cid : string) (page : StitchedPageAnalysis)
    (P : PlacedPanel → Prop) `{!∀ t, Decision (P t)}
    (Q : Panel → Prop) `{!∀ q, Decision (Q q)} (ps : list Panel) :
  (∀ q, P {| placed := q; page_id := stitch_id page; placed_chapter_id := cid |} ↔ Q q) →
  filter P (map (λ panel, {| placed := panel; page_id := stitch_id page;
                             placed_chapter_id := cid |}) ps)
  = map (λ panel, {| placed := panel; page_id := stitch_id page;
                     placed_chapter_id := cid |}) (filter Q ps).
Proof.
  intros HPQ. induction ps as [|q ps IH]; [reflexivity|].
  cbn [map]. destruct (decide (Q q)) as [HQ | HQ].
  - rewrite filter_cons_True by (now apply HPQ).
    rewrite (filter_cons_True Q) by exact HQ. cbn [map]. now rewrite IH.
  - rewrite filter_cons_False by (intros HP; now apply HQ, HPQ).
    rewrite (filter_cons_False Q) by exact HQ. exact IH.
Qed.

(** The panels in reading order after [handleDeletePanel]: those that are
    not the named panel of the named page of the named chapter. *)
Lemma allPanelsInOrder_delete (c p pid : string) (chapters : list Chapter) :
  map identOf (allPanelsInOrder (handleDeletePanel c p pid chapters))
  = map identOf
      (filter (λ t, ¬ (placed_chapter_id t = c ∧ page_id t = p
                        ∧ panel_id (placed t) = pid))
              (allPanelsInOrder chapters)).
Proof.
  unfold allPanelsInOrder, handleDeletePanel.
  induction chapters as [|c0 cs IH]; [reflexivity|].
  cbn [map concat]. rewrite filter_app, !map_app, IH. f_equal. clear IH.
  destruct (decide (id c0 = c)) as [Hc | Hc].
  - rewrite (decide_False (P := id c0 ≠ c)) by (intros H; now apply H).
    cbn [stitchedPages with_stitchedPages id].
    replace (id (with_stitchedPages
      (map (λ p0, if decide (stitch_id p0 ≠ p) then p0 else
             with_panels (reindex (filter (λ panelItem, panel_id panelItem ≠ pid)
                                          (panels p0))) p0) (stitchedPages c0)) c0))
      with (id c0) by now destruct c0.
    replace (stitchedPages (with_stitchedPages
      (map (λ p0, if decide (stitch_id p0 ≠ p) then p0 else
             with_panels (reindex (filter (λ panelItem, panel_id panelItem ≠ pid)
                                          (panels p0))) p0) (stitchedPages c0)) c0))
      with (map (λ p0, if decide (stitch_id p0 ≠ p) then p0 else
             with_panels (reindex (filter (λ panelItem, panel_id panelItem ≠ pid)
                                          (panels p0))) p0) (stitchedPages c0))
      by now destruct c0.
    induction (stitchedPages c0) as [|p0 ps IHp]; [reflexivity|].
    cbn [map concat]. rewrite filter_app, !map_app, IHp. f_equal. clear IHp.
    destruct (decide (stitch_id p0 = p)) as [Hp | Hp].
    + rewrite (decide_False (P := stitch_id p0 ≠ p)) by (intros H; now apply H).
      replace (stitch_id (with_panels (reindex (filter (λ panelItem,
                 panel_id panelItem ≠ pid) (panels p0))) p0))
        with (stitch_id p0) by now destruct p0.
      replace (panels (with_panels (reindex (filter (λ panelItem,
                 panel_id panelItem ≠ pid) (panels p0))) p0))
        with (reindex (filter (λ panelItem, panel_id panelItem ≠ pid) (panels p0)))
        by now destruct p0.
      rewrite (filter_placed (id c0) p0 _ (λ q, panel_id q ≠ pid)).
      * rewrite !identOf_page, panel_id_reindex. reflexivity.
      * intros q. cbn [placed page_id placed_chapter_id]. tauto.
    + rewrite (decide_True (P := stitch_id p0 ≠ p)) by done.
      f_equal. symmetry. apply filter_all, Forall_forall. intros t Ht.
      apply list_elem_of_fmap in Ht as (q & -> & _).
      cbn [placed page_id placed_chapter_id]. tauto.
  - rewrite (decide_True (P := id c0 ≠ c)) by done.
    f_equal. symmetry. apply filter_all, Forall_forall. intros t Ht.
    apply elem_of_concat in Ht as (l & Ht & Hl).
    apply list_elem_of_fmap in Hl as (p0 & -> & _).
    apply list_elem_of_fmap in Ht as (q & -> & _).
    cbn [placed page_id placed_chapter_id]. tauto.
Qed.

Lemma list_eqb_concat_map {A B} (eqb : A → A → bool) (f : A → list B) :
  (∀ x y, eqb x y = true → f x = f y) →
  ∀ a b, list_eqb eqb a b = true → concat (map f a) = concat (map f b).
Proof.
  intros Hf. induction a as [|x a IH]; intros [|y b] Hab; try discriminate; [reflexivity|].
  cbn [list_eqb] in Hab. apply andb_prop in Hab as [Hxy Hab].
  cbn [map concat]. now rewrite (Hf x y Hxy), (IH b Hab).
Qed.

Lemma list_eqb_map {A B} (eqb : A → A → bool) (f : A → B) :
  (∀ x y, eqb x y = true → f x = f y) →
  ∀ a b, list_eqb eqb a b = true → map f a = map f b.
Proof.
  intros Hf. induction a as [|x a IH]; intros [|y b] Hab; try discriminate; [reflexivity|].
  cbn [list_eqb] in Hab. apply andb_prop in Hab as [Hxy Hab].
  cbn [map]. now rewrite (Hf x y Hxy), (IH b Hab).
Qed.

(** States that print alike hold panels with the same ids in the same order. *)
Lemma sameJSON_panel_ids (a b : list Chapter) :
  sameJSON a b = true → map panel_id (allPanels a) = map panel_id (allPanels b).
Proof.
  intros Hab. unfold allPanels. rewrite !concat_map, !map_map.
  apply (list_eqb_concat_map chapter_eqb); [|exact Hab].
  intros c c' Hc. rewrite !concat_map, !map_map.
  apply (list_eqb_concat_map page_eqb).
  - intros p p' Hp. apply (list_eqb_map panel_eqb).
    + intros q q' Hq. unfold panel_eqb in Hq.
      repeat (apply andb_prop in Hq as [Hq _]). now apply String.eqb_eq.
    + unfold page_eqb in Hp.
      do 3 (apply andb_prop in Hp as [Hp _]). now apply andb_prop in Hp as [_ Hp].
  - unfold chapter_eqb in Hc.
    do 2 (apply andb_prop in Hc as [Hc _]). now apply andb_prop in Hc as [_ Hc].
Qed.

Lemma panel_ids_in_order (chapters : list Chapter) :
  map (λ t, panel_id (placed t)) (allPanelsInOrder chapters)
  = map panel_id (allPanels chapters).
Proof. now rewrite <- placed_allPanelsInOrder, map_map. Qed.

(** With distinct panel ids, the panel found for an id is the panel at any
    position that carries the id. *)
Lemma unique_position (chapters : list Chapter) (k j : nat) (t u : PlacedPanel) :
  NoDup (map panel_id (allPanels chapters)) →
  allPanelsInOrder chapters !! k = Some t →
  allPanelsInOrder chapters !! j = Some u →
  panel_id (placed u) = panel_id (placed t) →
  j = k ∧ u = t.
Proof.
  intros Hnd Hk Hj Hid. rewrite <- panel_ids_in_order in Hnd.
  assert (j = k) as ->.
  { eapply NoDup_lookup; [exact Hnd | |].
    - rewrite list_lookup_fmap, Hj. reflexivity.
    - rewrite list_lookup_fmap, Hk. simpl. now rewrite Hid. }
  split; [reflexivity | congruence].
Qed.

(** X26.  Take a store whose panel ids are pairwise distinct, a selected panel
    at position k in reading order, and a key event bound to delete (and not
    to undo or redo) outside a text field.  Then exactly that panel leaves
    the store, the step can be undone, the redo stack is emptied, and the
    selection goes to the panel now at position k, or to the new last panel
    when the deleted one was last: a panel that is in the store.  When it was
    the only panel, the selection is cleared. *)
Theorem delete_key_selects_a_neighbour (keybindings : ActionKeybindings)
    (e : Keybinding) (h : History) (sel : Selection)
    (k : nat) (t : PlacedPanel) :
  checkBinding toLowerCase (undo keybindings) e = false →
  checkBinding toLowerCase (redo keybindings) e = false →
  checkBinding toLowerCase (deletePanel keybindings) e = true →
  NoDup (map panel_id (allPanels (present h))) →
  allPanelsInOrder (present h) !! k = Some t →
  selectedPanelId sel = Some (panel_id (placed t)) →
  panel_id (placed t) ≠ "" →
  let n := length (allPanelsInOrder (present h)) in
  let result := handleGlobalKeyDown toLowerCase keybindings false e h sel in
  map identOf (allPanelsInOrder (present (fst result)))
    = delete k (map identOf (allPanelsInOrder (present h)))
  ∧ present (handleUndo (fst result)) = present h
  ∧ future (fst result) = []
  ∧ (n = 1%nat → snd result = {| selectedPageId := None; selectedPanelId := None |})
  ∧ (1 < n → ∃ t',
       allPanelsInOrder (present (fst result)) !! Nat.min k (n - 2) = Some t'
       ∧ snd result = {| selectedPageId := Some (page_id t');
                         selectedPanelId := Some (panel_id (placed t')) |})%nat.
Proof.
  intros Hundo Hredo Hdel Hnd Hk Hsel Hne n result.
  set (all := allPanelsInOrder (present h)) in *.
  set (edit := handleDeletePanel (placed_chapter_id t) (page_id t) (panel_id (placed t))).
  assert (Hn : (k < n)%nat) by (eapply lookup_lt_Some; exact Hk).
  assert (Hfind : list_find (λ p, panel_id (placed p) = panel_id (placed t)) all
                  = Some (k, t)).
  { apply list_find_Some. split_and!; [exact Hk | reflexivity |].
    intros j y Hj Hlt Hid.
    destruct (unique_position _ _ _ _ _ Hnd Hk Hj Hid) as [-> _]. lia. }
  assert (Hfilter : filter (λ p, Some (panel_id (placed p)) ≠ selectedPanelId sel) all
                    = delete k all).
  { rewrite <- (filter_delete_unique (λ p, panel_id (placed p)) all k t).
    - apply filter_ext_in. intros x _. rewrite Hsel. split; congruence.
    - fold all in Hnd. unfold all. now rewrite panel_ids_in_order.
    - exact Hk. }
  assert (Hnew : map identOf (allPanelsInOrder (edit (present h)))
                 = delete k (map identOf all)).
  { unfold edit. rewrite allPanelsInOrder_delete. fold all.
    rewrite <- list_fmap_delete. f_equal.
    rewrite <- (filter_delete_unique (λ p, panel_id (placed p)) all k t).
    - apply filter_ext_in. intros x Hx. split.
      + intros Hnot Hid. apply Hnot.
        apply list_elem_of_lookup in Hx as [j Hj].
        destruct (unique_position _ _ _ _ _ Hnd Hk Hj Hid) as [_ ->]. done.
      + intros Hid (_ & _ & Hid'). now apply Hid.
    - unfold all. now rewrite panel_ids_in_order.
    - exact Hk. }
  assert (Hchanged : sameJSON (edit (present h)) (present h) = false).
  { destruct (sameJSON (edit (present h)) (present h)) eqn:E; [|reflexivity].
    apply sameJSON_panel_ids in E.
    apply (f_equal length) in E, Hnew.
    rewrite !length_map in E. rewrite <- !length_allPanelsInOrder in E.
    rewrite length_delete, !length_map in Hnew by
      (rewrite list_lookup_fmap; fold all; now rewrite Hk).
    fold all in E. fold n in E, Hnew. unfold all in Hnew. lia. }
  assert (Hres : result =
    (setChapters edit true h,
     if (0 <? n - 1)%nat then
       match delete k all !! Nat.min k (n - 1 - 1) with
       | Some nextPanelToSelect =>
           {| selectedPageId := Some (page_id nextPanelToSelect);
              selectedPanelId := Some (panel_id (placed nextPanelToSelect)) |}
       | None => sel
       end
     else {| selectedPageId := None; selectedPanelId := None |})).
  { unfold result, handleGlobalKeyDown. rewrite Hundo, Hredo. cbv zeta. fold all.
    replace (length all =? 0)%nat with false
      by (symmetry; apply Nat.eqb_neq; fold n; lia).
    rewrite Hsel. rewrite decide_False by exact Hne.
    rewrite Hfind. cbn [fmap option_fmap option_map fst]. rewrite Hdel, Hk.
    fold edit. rewrite <- Hsel, Hfilter. fold n.
    destruct (0 <? n - 1)%nat; [|reflexivity].
    now destruct (delete k all !! Nat.min k (n - 1 - 1)). }
  rewrite Hres. cbn [fst snd].
  assert (Hp : present (setChapters edit true h) = edit (present h))
    by now rewrite setChapters_recorded.
  split_and!.
  - rewrite Hp. exact Hnew.
  - now rewrite undo_after_recorded.
  - now rewrite setChapters_recorded.
  - intros H1. replace (0 <? n - 1)%nat with false; [reflexivity|].
    symmetry. apply Nat.ltb_ge. lia.
  - intros H1. replace (0 <? n - 1)%nat with true
      by (symmetry; apply Nat.ltb_lt; lia).
    replace (n - 1 - 1)%nat with (n - 2)%nat by lia.
    assert (Hlen : (Nat.min k (n - 2) < length (delete k all))%nat).
    { rewrite length_delete by (now rewrite Hk). fold n. lia. }
    apply lookup_lt_is_Some in Hlen as [u Hu]. rewrite Hu.
    assert (Hu' : map identOf (allPanelsInOrder (edit (present h))) !! Nat.min k (n - 2)
                  = Some (identOf u)).
    { rewrite Hnew, <- list_fmap_delete, list_lookup_fmap, Hu. reflexivity. }
    rewrite list_lookup_fmap in Hu'.
    destruct (allPanelsInOrder (edit (present h)) !! Nat.min k (n - 2)) as [t'|] eqn:Et;
      [|discriminate].
    exists t'. rewrite Hp. split; [exact Et|].
    cbn [fmap option_fmap option_map] in Hu'.
    assert (Hid : identOf t' = identOf u) by congruence.
    assert (Hid1 : panel_id (placed t') = panel_id (placed u))
      by (exact (f_equal fst Hid)).
    assert (Hid2 : page_id t' = page_id u) by (exact (f_equal snd Hid)).
    now rewrite Hid1, Hid2.
Qed.


End KeyboardFacts.

(** [Delete] on panel [p-b], the last of its page: [p-c] of the next page
    is selected. *)
Lemma delete_key_selects_a_neighbour_witness :
  let result := handleGlobalKeyDown lowerAscii DEFAULT_KEYBINDINGS false
                  (keyPress "Delete" false) (freshHistory twoPageState)
                  (selectPanel "page-1" "p-b") in
  map identOf (allPanelsInOrder (present result.1))
    = [("p-a", "page-1"); ("p-c", "page-2")]
  ∧ present (handleUndo result.1) = twoPageState
  ∧ ∃ t', allPanelsInOrder (present result.1) !! 1%nat = Some t'
          ∧ result.2 = {| selectedPageId := Some (page_id t');
                          selectedPanelId := Some (panel_id (placed t')) |}.
Proof.
  intros result.
  destruct (delete_key_selects_a_neighbour lowerAscii DEFAULT_KEYBINDINGS
              (keyPress "Delete" false) (freshHistory twoPageState)
              (selectPanel "page-1" "p-b") 1
              {| placed := samplePanel "p-b" 1 (Coords 0 (1 # 2) 1 (1 # 2));
                 page_id := "page-1"; placed_chapter_id := "ch-1" |})
    as (Hnew & Hundo & _ & _ & Hsel).
  - vm_compute. reflexivity.
  - vm_compute. reflexivity.
  - vm_compute. reflexivity.
  - apply (bool_decide_unpack _). vm_compute. exact I.
  - reflexivity.
  - reflexivity.
  - discriminate.
  - split; [exact Hnew|]. split; [exact Hundo|]. apply Hsel. simpl. lia.
Defined.

